(** * DocSetQuery: front-matter parsers, heading extractor, TOC scanner,
      index builder, search and sanitizer

    A shallow embedding of [tools/docindex.py], [tools/docmeta.py] and
    [tools/docset_sanitize.py], followed by the properties the specification
    states about them.

    Conventions of the embedding:
    - a [str] of the host language is the list of its Unicode code points
      (type [N]); string literals of the sources are written with [lit];
    - a [dict] keyed by strings is a [gmap]; the iteration order of a dict
      is not observed by any function below;
    - an uncaught exception is the left injection of a sum; [AttributeError]
      and [TypeError] are the only two the modelled code can raise;
    - the file system, the clock and the command line are inputs: a
      directory is the list of its documents in the order [sorted(glob)]
      yields them, a file is the list of its lines. *)

From Stdlib Require Import String Ascii ZArith NArith Lia DecimalString.
From stdpp Require Import base option list gmap strings sorting.

(** ** Part I: the embedding *)

(** *** The [str] operations the three tools rely on *)

Module Py.

Abbreviation str := (list N).

Definition lit (s : string) : str :=
  map N_of_ascii (list_ascii_of_string s).

Inductive exn := AttributeError | TypeError.

(** [str.isspace] on one code point: the complete table (29 code points). *)
Definition isspace (c : N) : bool :=
  ((9 <=? c) && (c <=? 13) || (28 <=? c) && (c <=? 32)
   || (c =? 133) || (c =? 160) || (c =? 5760)
   || (8192 <=? c) && (c <=? 8202)
   || (c =? 8232) || (c =? 8233) || (c =? 8239) || (c =? 8287)
   || (c =? 12288))%N.

Definition is_ascii (c : N) : bool := (c <? 128)%N.

Definition ascii_isalnum (c : N) : bool :=
  ((48 <=? c) && (c <=? 57) || (65 <=? c) && (c <=? 90)
   || (97 <=? c) && (c <=? 122))%N.

Definition ascii_lower (c : N) : N :=
  if ((65 <=? c) && (c <=? 90))%N then (c + 32)%N else c.

(** The rows of the Unicode tables beyond ASCII, the integer conversion and
    the [repr] of a list are properties of the host language, not of this
    repository: they are the fields of a class, and every function and
    theorem below is generic in them.  [int_of_str s = None] stands for
    [int(s)] raising [ValueError]. *)
Class Tables := {
  ext_isalnum : N -> bool;
  ext_lower : str -> str;
  int_of_str : str -> option Z;
  repr_list : list str -> str;
}.

Section WithTables.
Context {tables : Tables}.

(** [c.isalnum()] for a one-character string. *)
Definition isalnum (c : N) : bool :=
  if is_ascii c then ascii_isalnum c else ext_isalnum c.

(** [s.lower()]. *)
Definition lower (s : str) : str :=
  if forallb is_ascii s then map ascii_lower s else ext_lower s.

End WithTables.

Fixpoint drop_while {A} (p : A -> bool) (s : list A) : list A :=
  match s with
  | [] => []
  | c :: t => if p c then drop_while p t else s
  end.

Definition lstrip_by (p : N -> bool) (s : str) : str := drop_while p s.
Definition rstrip_by (p : N -> bool) (s : str) : str :=
  rev (drop_while p (rev s)).
Definition strip_by (p : N -> bool) (s : str) : str :=
  lstrip_by p (rstrip_by p s).

(** [s.strip()], [s.lstrip()], [s.rstrip()] *)
Definition strip : str -> str := strip_by isspace.
Definition lstrip : str -> str := lstrip_by isspace.
Definition rstrip : str -> str := rstrip_by isspace.

(** [s.rstrip("\n")], [s.lstrip(" ")], [s.strip("-")], [s.lstrip("#")] *)
Definition rstrip_nl : str -> str := rstrip_by (N.eqb 10).
Definition lstrip_sp : str -> str := lstrip_by (N.eqb 32).
Definition strip_dash : str -> str := strip_by (N.eqb 45).
Definition lstrip_hash : str -> str := lstrip_by (N.eqb 35).

(** [s.startswith(p)] *)
Fixpoint startswith (s p : str) {struct p} : bool :=
  match p, s with
  | [], _ => true
  | a :: p', b :: s' => (a =? b)%N && startswith s' p'
  | _ :: _, [] => false
  end.

(** [sub in s] *)
Fixpoint str_in (sub s : str) : bool :=
  startswith s sub
  || match s with
     | [] => false
     | _ :: t => str_in sub t
     end.

(** [s.split(sep, 1)] for a one-character [sep] that occurs in [s]: the
    text before the first [sep] and the text after it.  Every call site is
    guarded by [sep in s]. *)
Fixpoint split_once (sep : N) (s : str) : str * str :=
  match s with
  | [] => ([], [])
  | c :: t =>
      if (c =? sep)%N then ([], t)
      else let '(a, b) := split_once sep t in (c :: a, b)
  end.

(** Truth value of an [Optional[str]]: neither [None] nor empty. *)
Definition truthy (k : option str) : bool :=
  match k with
  | Some (_ :: _) => true
  | _ => false
  end.

(** [str(n)] for an [int]. *)
Definition str_of_int (z : Z) : str :=
  lit (NilZero.string_of_int (Z.to_int z)).

(** [", ".join(l)] and its general form *)
Fixpoint join (sep : str) (l : list str) : str :=
  match l with
  | [] => []
  | [x] => x
  | x :: rest => x ++ sep ++ join sep rest
  end.

(** Literals of the sources *)
Definition DASHES : str := Eval cbv in lit "---".
Definition ITEM2 : str := Eval cbv in lit "- ".
Definition ITEM4 : str := Eval cbv in lit "  - ".
Definition COLON : N := 58.
Definition COLON_S : str := [COLON].
Definition DASH : N := 45.
Definition HASH_S : str := Eval cbv in lit "#".
Definition TOC_HEADING : str := Eval cbv in lit "## Table of Contents".
Definition H2_PREFIX : str := Eval cbv in lit "## ".

(** An excerpt of the host tables, used to run the functions on examples:
    ASCII, plus the rows of U+0130 (LATIN CAPITAL LETTER I WITH DOT ABOVE,
    alphanumeric, lower-cased to the two code points U+0069 U+0307) and of
    U+0307 (COMBINING DOT ABOVE, not alphanumeric).  Code points without a
    row are taken as caseless and not alphanumeric.  The integer
    conversion of the excerpt reads an optional sign and ASCII digits (the
    host also accepts grouping underscores and other decimal digits), and
    its [repr] of a list quotes the items without escaping them.  The
    examples stay within what the excerpt has in common with the host. *)
Definition excerpt_lower_char (c : N) : str :=
  if (c =? 304)%N then [105; 775]%N else [ascii_lower c].

Fixpoint ascii_digits (s : str) (acc : Z) : option Z :=
  match s with
  | [] => Some acc
  | c :: t =>
      if ((48 <=? c) && (c <=? 57))%N
      then ascii_digits t (10 * acc + Z.of_N (c - 48))
      else None
  end.

Definition excerpt_int (s : str) : option Z :=
  match s with
  | [] => None
  | c :: t =>
      if (c =? 45)%N then
        match t with [] => None | _ => Z.opp <$> ascii_digits t 0 end
      else if (c =? 43)%N then
        match t with [] => None | _ => ascii_digits t 0 end
      else ascii_digits s 0
  end.

Definition excerpt_repr (l : list str) : str :=
  lit "[" ++ join (lit ", ") (map (fun s => lit "'" ++ s ++ lit "'") l)
  ++ lit "]".

Definition excerpt : Tables :=
  {| ext_isalnum := fun c => (c =? 304)%N;
     ext_lower := flat_map excerpt_lower_char;
     int_of_str := excerpt_int;
     repr_list := excerpt_repr |}.

End Py.

Import Py.

(** *** tools/docindex.py *)

Module DocIndex.

Record HeadingRecord := {
  text : str;
  anchor : str;
  level : nat;
}.

(** What a front-matter key of the index builder can hold. *)
Inductive value :=
  | VStr (s : str)
  | VInt (z : Z)
  | VList (l : list str).

Record Doc := {
  doc_path : str;            (* [str(rel_path)] *)
  doc_stem : str;            (* [md_path.stem] *)
  doc_lines : list str;      (* [md_path.read_text().splitlines()] *)
}.

Record DocEntry := {
  path : str;
  title : value;
  docset_version : value;
  exported_at : value;
  doc_count : value;
  file_size : value;
  key_sections : value;
  headings : list HeadingRecord;
}.

Record Index := {
  generated_at : str;
  docs_root : str;
  entries : list DocEntry;
}.

Definition SLUG_SEPARATORS : str := Eval cbv in lit "/-_".
Definition DOUBLE_DASH : str := Eval cbv in lit "--".
Definition SECTION : str := Eval cbv in lit "section".
Definition EMPTY_LIST_LITERAL : str := Eval cbv in lit "[]".
Definition NULL_LITERAL : str := Eval cbv in lit "null".
Definition QUOTE : N := 34.
Definition ANCHOR_OPEN : str := Eval cbv in lit "<a id=" ++ [QUOTE].
Definition ANCHOR_CLOSE : str := Eval cbv in QUOTE :: lit "></a>".
Definition LINE_SEP : str := [32; 8212; 32]%N.       (* " — " *)
Definition KEY_SEP : str := Eval cbv in lit "#".
Definition TITLE_SEP : str := Eval cbv in lit ": ".
Definition UNKNOWN : str := Eval cbv in lit "unknown".
Definition K_TITLE : str := Eval cbv in lit "title".
Definition K_DOCSET_VERSION : str := Eval cbv in lit "docset_version".
Definition K_EXPORTED_AT : str := Eval cbv in lit "exported_at".
Definition K_DOC_COUNT : str := Eval cbv in lit "doc_count".
Definition K_FILE_SIZE : str := Eval cbv in lit "file_size".
Definition K_KEY_SECTIONS : str := Eval cbv in lit "key_sections".

(** [slug.replace("--", "-")]: non-overlapping occurrences, left to right. *)
Fixpoint replace_double_dash (s : str) : str :=
  match s with
  | [] => []
  | c :: t =>
      match t with
      | d :: t' =>
          if ((c =? DASH) && (d =? DASH))%N
          then DASH :: replace_double_dash t'
          else c :: replace_double_dash t
      | [] => [c]
      end
  end.

(** [while "--" in slug: slug = slug.replace("--", "-")].  Each round
    shortens the string, so [length slug] rounds are enough
    ([collapse_dashes_done] below). *)
Fixpoint collapse_loop (fuel : nat) (slug : str) : str :=
  match fuel with
  | O => slug
  | S fuel' =>
      if str_in DOUBLE_DASH slug
      then collapse_loop fuel' (replace_double_dash slug)
      else slug
  end.

Definition collapse_dashes (slug : str) : str :=
  collapse_loop (length slug) slug.

Section WithTables.
Context {tables : Tables}.

Definition slug_char (char : N) : str :=
  if isalnum char then lower [char]
  else if str_in [char] SLUG_SEPARATORS then [DASH]
  else [].

Definition _slugify (text : str) : str :=
  let keep := flat_map slug_char text in
  match strip_dash (collapse_dashes keep) with
  | [] => SECTION
  | slug => slug
  end.

(** Vocabulary for the statements about [_slugify]: an alphanumeric
    character that lower-casing leaves unchanged; a character whose
    lower-case form, if it is alphanumeric, consists of such characters;
    a character that [_slugify] maps to itself. *)
Definition slug_fixed (d : N) : bool :=
  isalnum d && bool_decide (lower [d] = [d]).

Definition lower_stable (c : N) : bool :=
  negb (isalnum c) || forallb slug_fixed (lower [c]).

Definition slug_stable (d : N) : Prop :=
  d = DASH ∨ slug_fixed d = true.

(** [data.setdefault(key, []).append(item)]: the list stored under [key]
    grows in place; a stored [str] or [int] has no [append]. *)
Definition setdefault_append (data : gmap str value) (key item : str)
  : exn + gmap str value :=
  match data !! key with
  | None => inr (<[key := VList [item]]> data)
  | Some (VList l) => inr (<[key := VList (l ++ [item])]> data)
  | Some _ => inl AttributeError
  end.

Definition convert (v : str) : value :=
  if bool_decide (v = EMPTY_LIST_LITERAL) || bool_decide (v = NULL_LITERAL)
  then VList []
  else match int_of_str v with
       | Some z => VInt z
       | None => VStr v
       end.

(** The [while idx < len(lines)] loop of [_parse_front_matter], on the
    lines from [idx] on. *)
Fixpoint front_matter_loop (rest : list str) (idx : nat)
    (data : gmap str value) (current_key : option str)
  : exn + (gmap str value * nat) :=
  match rest with
  | [] => inr (data, idx)
  | line :: rest' =>
      let raw := rstrip_nl line in
      let idx := S idx in
      if bool_decide (strip raw = DASHES) then inr (data, idx)
      else if startswith raw ITEM4 && truthy current_key then
        match setdefault_append data (default [] current_key)
                (strip (drop 4 raw)) with
        | inl e => inl e
        | inr data' => front_matter_loop rest' idx data' current_key
        end
      else if negb (str_in COLON_S raw) then
        front_matter_loop rest' idx data current_key
      else
        let '(k, v) := split_once COLON raw in
        let key := strip k in
        let v := strip v in
        front_matter_loop rest' idx
          (<[key := if bool_decide (v = []) then VList [] else convert v]> data)
          (Some key)
  end.

Definition _parse_front_matter (lines : list str)
  : exn + (option (gmap str value) * nat) :=
  match lines with
  | [] => inr (None, 0)
  | first :: rest =>
      if negb (bool_decide (strip first = DASHES)) then inr (None, 0)
      else match front_matter_loop rest 1 ∅ None with
           | inl e => inl e
           | inr (data, idx) => inr (Some data, idx)
           end
  end.

(** Vocabulary for the statements about [_parse_front_matter]: a value
    text that is stored as a scalar, and whether the loop, on the lines
    [rest], comes to an item line while the current key is not empty
    ([key_truthy]) and holds a scalar ([scalar]). *)
Definition is_scalar_text (v : str) : bool :=
  negb (bool_decide (v = []) || bool_decide (v = EMPTY_LIST_LITERAL)
        || bool_decide (v = NULL_LITERAL)).

Fixpoint meets_scalar_item (rest : list str) (key_truthy scalar : bool)
  : bool :=
  match rest with
  | [] => false
  | line :: rest' =>
      let raw := rstrip_nl line in
      if bool_decide (strip raw = DASHES) then false
      else if startswith raw ITEM4 && key_truthy then
        scalar || meets_scalar_item rest' key_truthy scalar
      else if negb (str_in COLON_S raw) then
        meets_scalar_item rest' key_truthy scalar
      else
        meets_scalar_item rest'
          (truthy (Some (strip (split_once COLON raw).1)))
          (is_scalar_text (strip (split_once COLON raw).2))
  end.

(** [anchor_pattern.match(s)], group 1: [s] starts with [ANCHOR_OPEN], a
    non-empty run of characters other than the quote follows (the greedy
    class of the pattern takes all of them), and [ANCHOR_CLOSE] comes next.
    [match] anchors the pattern at the start of [s] only. *)
Definition anchor_match (s : str) : option str :=
  if startswith s ANCHOR_OPEN then
    let body := drop (length ANCHOR_OPEN) s in
    let name := take (length body
                      - length (drop_while (fun c => negb (c =? QUOTE)%N) body))
                  body in
    let after := drop (length name) body in
    match name with
    | [] => None
    | _ => if startswith after ANCHOR_CLOSE then Some name else None
    end
  else None.

(** The [for raw in iterator] loop of [_collect_headings]. *)
Fixpoint collect_loop (lines : list str) (pending_anchor : option str)
  : list HeadingRecord :=
  match lines with
  | [] => []
  | raw :: rest =>
      match anchor_match (strip raw) with
      | Some name => collect_loop rest (Some name)
      | None =>
          let content := lstrip raw in
          if negb (startswith content HASH_S) then
            collect_loop rest pending_anchor
          else
            let level := length content - length (lstrip_hash content) in
            let text := strip (drop level content) in
            match text with
            | [] => collect_loop rest pending_anchor
            | _ =>
                let anchor := if truthy pending_anchor
                              then default [] pending_anchor
                              else _slugify text in
                {| text := text; anchor := anchor; level := min level 6 |}
                :: collect_loop rest None
            end
      end
  end.

(** Vocabulary for the statements about [_collect_headings]: what the
    loop body makes of one line. *)
Inductive line_kind :=
  | AnchorLine (name : str)
  | HeadingLine (text : str) (level : nat)
  | OtherLine.

Definition classify (raw : str) : line_kind :=
  match anchor_match (strip raw) with
  | Some name => AnchorLine name
  | None =>
      let content := lstrip raw in
      if negb (startswith content HASH_S) then OtherLine
      else
        let level := length content - length (lstrip_hash content) in
        match strip (drop level content) with
        | [] => OtherLine
        | text => HeadingLine text level
        end
  end.

Definition is_anchor_line (raw : str) : bool :=
  match classify raw with
  | AnchorLine _ => true
  | _ => false
  end.

Definition is_other_line (raw : str) : bool :=
  match classify raw with
  | OtherLine => true
  | _ => false
  end.

Definition _collect_headings (lines : list str) (start_index : nat)
  : list HeadingRecord :=
  collect_loop (drop start_index lines) None.

(** [dict.get(key, fallback)] *)
Definition get (fm : gmap str value) (key : str) (fallback : value) : value :=
  default fallback (fm !! key).

(** The body of the [for md_path in ...] loop of [build_index]: [None] is
    the [continue] of a document without front matter. *)
Definition build_entry (d : Doc) : exn + option DocEntry :=
  match _parse_front_matter (doc_lines d) with
  | inl e => inl e
  | inr (None, _) => inr None
  | inr (Some front_matter, offset) =>
      if bool_decide (front_matter = ∅) then inr None
      else inr (Some
        {| path := doc_path d;
           title := get front_matter K_TITLE (VStr (doc_stem d));
           docset_version := get front_matter K_DOCSET_VERSION (VStr UNKNOWN);
           exported_at := get front_matter K_EXPORTED_AT (VStr []);
           doc_count := get front_matter K_DOC_COUNT (VInt 0);
           file_size := get front_matter K_FILE_SIZE (VInt 0);
           key_sections := get front_matter K_KEY_SECTIONS (VList []);
           headings := _collect_headings (doc_lines d) offset |})
  end.

(** Vocabulary for the statements about [build_index]: the document does
    not open with the front-matter marker. *)
Definition header_absent (lines : list str) : bool :=
  match lines with
  | [] => true
  | first :: _ => negb (bool_decide (strip first = DASHES))
  end.

Fixpoint build_entries (docs : list Doc) (entries : list DocEntry)
  : exn + list DocEntry :=
  match docs with
  | [] => inr entries
  | d :: docs' =>
      match build_entry d with
      | inl e => inl e
      | inr None => build_entries docs' entries
      | inr (Some entry) => build_entries docs' (entries ++ [entry])
      end
  end.

(** [build_index]: [now] is the time stamp the clock gives, [root] the
    rendered [docs_root], [docs] the documents [sorted(glob("*.md"))]
    enumerates, each with the lines [read_text] gave.  Reading a document
    and writing the index file are not modelled: a failure of either has
    no counterpart here, and the statements about [build_index] speak of
    documents that were read. *)
Definition build_index (now root : str) (docs : list Doc) : exn + Index :=
  match build_entries docs [] with
  | inl e => inl e
  | inr entries =>
      inr {| generated_at := now; docs_root := root; entries := entries |}
  end.

(** [f"{v}"] *)
Definition format_value (v : value) : str :=
  match v with
  | VStr s => s
  | VInt z => str_of_int z
  | VList l => repr_list l
  end.

(** [for section in v]: a list yields its items, a string its characters,
    an integer is not iterable. *)
Definition iterate (v : value) : exn + list str :=
  match v with
  | VList l => inr l
  | VStr s => inr (map (fun c => [c]) s)
  | VInt _ => inl TypeError
  end.

(** The state of [search_entries]: [results], and the set [seen] as the
    list of its elements in the order they were added. *)
Definition search_state : Type := list str * list str.

(** [if key in seen: continue; seen.add(key); results.append(line)] *)
Definition record_hit (st : search_state) (key line : str) : search_state :=
  let '(results, seen) := st in
  if bool_decide (key ∈ seen) then st
  else (results ++ [line], seen ++ [key]).

Definition hit_key (path anchor : str) : str := path ++ KEY_SEP ++ anchor.

Definition hit_line (title : value) (shown path anchor : str) : str :=
  format_value title ++ TITLE_SEP ++ shown ++ LINE_SEP
  ++ hit_key path anchor.

Definition search_heading (term_lower : str) (e : DocEntry)
    (st : search_state) (h : HeadingRecord) : search_state :=
  if str_in term_lower (lower (text h))
  then record_hit st (hit_key (path e) (anchor h))
         (hit_line (title e) (text h) (path e) (anchor h))
  else st.

Definition search_section (term_lower : str) (e : DocEntry)
    (st : search_state) (section : str) : search_state :=
  if str_in term_lower (lower section)
  then let slug := _slugify section in
       record_hit st (hit_key (path e) slug)
         (hit_line (title e) section (path e) slug)
  else st.

Definition search_entry (term_lower : str) (st : search_state) (e : DocEntry)
  : exn + search_state :=
  let st := fold_left (search_heading term_lower e) (headings e) st in
  match iterate (key_sections e) with
  | inl err => inl err
  | inr sections => inr (fold_left (search_section term_lower e) sections st)
  end.

Fixpoint search_loop (term_lower : str) (es : list DocEntry)
    (st : search_state) : exn + search_state :=
  match es with
  | [] => inr st
  | e :: es' =>
      match search_entry term_lower st e with
      | inl err => inl err
      | inr st' => search_loop term_lower es' st'
      end
  end.

Definition search_run (index : Index) (term : str) : exn + search_state :=
  search_loop (lower term) (entries index) ([], []).

Definition search_entries (index : Index) (term : str) : exn + list str :=
  match search_run index term with
  | inl err => inl err
  | inr (results, _) => inr results
  end.

(** Vocabulary for the statements about [search_entries]: a value the
    loop over the key sections can iterate; a result line that ends with
    its key; the invariant of the loop state. *)
Definition iterable (v : value) : bool :=
  match v with
  | VInt _ => false
  | _ => true
  end.

Definition keyed (line key : str) : Prop :=
  ∃ shown, line = shown ++ LINE_SEP ++ key.

Definition search_inv (st : search_state) : Prop :=
  NoDup st.2 ∧ Forall2 keyed st.1 st.2.

(** Vocabulary for further statements about the index builder: a
    character a slug of ASCII text is made of (digit, lower-case letter
    or dash), a line that closes the header, and a document that gets an
    entry (its front matter parses to a mapping that is not empty). *)
Definition is_slug_char (c : N) : bool :=
  ((48 <=? c) && (c <=? 57) || (97 <=? c) && (c <=? 122) || (c =? DASH))%N.

Definition is_closing (line : str) : bool :=
  bool_decide (strip line = DASHES).

Definition indexed (d : Doc) : bool :=
  match _parse_front_matter (doc_lines d) with
  | inr (Some front_matter, _) => negb (bool_decide (front_matter = ∅))
  | _ => false
  end.

(** A key and a value as the simple parser stores them: a key is trimmed
    and holds no colon; a string value is trimmed and not empty; the items
    of a list are trimmed. *)
Definition clean_key (k : str) : bool :=
  bool_decide (strip k = k) && negb (str_in COLON_S k).

Definition clean_value (v : value) : bool :=
  match v with
  | VStr s => negb (bool_decide (s = [])) && bool_decide (strip s = s)
  | VInt _ => true
  | VList l => forallb (fun item => bool_decide (strip item = item)) l
  end.


(** A heading or a key section of [e] that contains the lower-cased
    search term. *)
Definition heading_matches (term_lower : str) (h : HeadingRecord) : bool :=
  str_in term_lower (lower (text h)).

Definition section_matches (term_lower : str) (section : str) : bool :=
  str_in term_lower (lower section).

(** A result line that [search_entries] writes for the entry [e]: the line
    of a heading of [e] whose text holds the term, or of an item of its key
    sections that holds it. *)
Definition hit_of (term_lower : str) (e : DocEntry) (line : str) : Prop :=
  (∃ h, h ∈ headings e ∧ heading_matches term_lower h = true
        ∧ line = hit_line (title e) (text h) (path e) (anchor h))
  ∨ (∃ sections s, iterate (key_sections e) = inr sections ∧ s ∈ sections
        ∧ section_matches term_lower s = true
        ∧ line = hit_line (title e) s (path e) (_slugify s)).

(** The results of [st'] are those of [st] followed by lines that
    satisfy [P]. *)
Definition extends (P : str → Prop) (st st' : search_state) : Prop :=
  ∃ extra, st'.1 = st.1 ++ extra ∧ Forall P extra.



End WithTables.

End DocIndex.

(** *** tools/docmeta.py *)

Module DocMeta.

(** A value inside a nested mapping, and a value of the front matter. *)
Inductive nested :=
  | NStr (s : str)
  | NList (l : list str).

Inductive value :=
  | VStr (s : str)
  | VInt (z : Z)
  | VList (l : list str)
  | VDict (m : gmap str nested).

(** The local variables of [_parse_front_matter_stream]. *)
Record parser := {
  data : gmap str value;
  raw_lines : list str;
  parent_key : option str;
  nested_current_key : option str;
  current_key : option str;
}.

Record PeekResult := {
  has_front_matter : bool;
  front_matter : gmap str value;
  front_matter_raw : list str;
  toc_found : bool;
  toc_truncated : bool;
  toc : option (list str);
}.

Definition with_data (st : parser) (d : gmap str value) : parser :=
  {| data := d; raw_lines := raw_lines st; parent_key := parent_key st;
     nested_current_key := nested_current_key st;
     current_key := current_key st |}.

Definition setdefault_append (d : gmap str value) (key item : str)
  : exn + gmap str value :=
  match d !! key with
  | None => inr (<[key := VList [item]]> d)
  | Some (VList l) => inr (<[key := VList (l ++ [item])]> d)
  | Some _ => inl AttributeError
  end.

Definition nested_setdefault_append (target : gmap str nested)
    (key item : str) : exn + gmap str nested :=
  match target !! key with
  | None => inr (<[key := NList [item]]> target)
  | Some (NList l) => inr (<[key := NList (l ++ [item])]> target)
  | Some (NStr _) => inl AttributeError
  end.

Section WithTables.
Context {tables : Tables}.

(** Lines 63 to 83: the line is read at the top level. *)
Definition top_level (st : parser) (raw stripped : str) (indent : nat)
  : exn + parser :=
  let append n :=
    match setdefault_append (data st) (default [] (current_key st))
            (strip (drop n stripped)) with
    | inl e => inl e
    | inr d =>
        inr {| data := d; raw_lines := raw_lines st;
               parent_key := parent_key st; nested_current_key := None;
               current_key := current_key st |}
    end in
  if startswith stripped ITEM2 && truthy (current_key st) then append 2
  else if startswith stripped ITEM4 && truthy (current_key st) then append 4
  else if negb (str_in COLON_S raw) then
    inr {| data := data st; raw_lines := raw_lines st;
           parent_key := parent_key st; nested_current_key := None;
           current_key := current_key st |}
  else
    let '(k, v) := split_once COLON raw in
    let key := strip k in
    let v := strip v in
    let stored :=
      if bool_decide (v = []) then VList []
      else match int_of_str v with
           | Some z => VInt z
           | None => VStr v
           end in
    inr {| data := <[key := stored]> (data st); raw_lines := raw_lines st;
           parent_key := if bool_decide (indent = 0) then Some key
                         else parent_key st;
           nested_current_key := None;
           current_key := Some key |}.

(** Lines 49 to 62: the parent key holds the mapping [target]. *)
Definition in_mapping (st : parser) (pk : str) (target : gmap str nested)
    (raw stripped : str) (indent : nat) : exn + parser :=
  if startswith stripped ITEM2 then
    if truthy (nested_current_key st) then
      match nested_setdefault_append target
              (default [] (nested_current_key st))
              (strip (drop 2 stripped)) with
      | inl e => inl e
      | inr target' => inr (with_data st (<[pk := VDict target']> (data st)))
      end
    else inr st
  else if str_in COLON_S stripped then
    let '(k, v) := split_once COLON stripped in
    let nk := strip k in
    let v := strip v in
    let stored := if bool_decide (v = []) then NList [] else NStr v in
    inr {| data := <[pk := VDict (<[nk := stored]> target)]> (data st);
           raw_lines := raw_lines st; parent_key := parent_key st;
           nested_current_key := Some nk; current_key := current_key st |}
  else top_level st raw stripped indent.

(** The body of the [for raw in fh] loop, after the test for the closing
    marker. *)
Definition stream_step (st0 : parser) (raw : str) : exn + parser :=
  let st := {| data := data st0;
               raw_lines := raw_lines st0 ++ [rstrip_nl raw];
               parent_key := parent_key st0;
               nested_current_key := nested_current_key st0;
               current_key := current_key st0 |} in
  let stripped := strip raw in
  let indent := length raw - length (lstrip_sp raw) in
  if bool_decide (0 < indent) && truthy (parent_key st) then
    let pk := default [] (parent_key st) in
    match data st !! pk with
    | Some (VList l) =>
        if startswith stripped ITEM2
        then inr (with_data st
                    (<[pk := VList (l ++ [strip (drop 2 stripped)])]> (data st)))
        else in_mapping (with_data st (<[pk := VDict ∅]> (data st))) pk ∅
               raw stripped indent
    | Some (VDict target) => in_mapping st pk target raw stripped indent
    | _ => top_level st raw stripped indent
    end
  else top_level st raw stripped indent.

(** The [for raw in fh] loop; the lines left in the stream are returned
    with the state. *)
Fixpoint stream_loop (fh : list str) (st : parser)
  : exn + (parser * list str) :=
  match fh with
  | [] => inr (st, [])
  | raw :: fh' =>
      if bool_decide (strip raw = DASHES) then inr (st, fh')
      else match stream_step st raw with
           | inl e => inl e
           | inr st' => stream_loop fh' st'
           end
  end.

(** What the loop gives apart from the lines it leaves in the stream. *)
Definition outcome (r : exn + (parser * list str)) : exn + parser :=
  match r with
  | inl e => inl e
  | inr (st, _) => inr st
  end.

(** [_parse_front_matter_stream]: the parsed data, the raw lines, the
    carry, and what is left of the stream. *)
Definition _parse_front_matter_stream (fh : list str)
  : exn + (gmap str value * list str * list str * list str) :=
  match fh with
  | [] => inr (∅, [], [], [])
  | first :: fh' =>
      if negb (bool_decide (strip first = DASHES))
      then inr (∅, [], [first], fh')
      else
        match stream_loop fh'
                {| data := ∅; raw_lines := []; parent_key := None;
                   nested_current_key := None; current_key := None |} with
        | inl e => inl e
        | inr (st, leftover) => inr (data st, raw_lines st, [], leftover)
        end
  end.

End WithTables.




(** The [for raw in chain(carry, fh)] loop of [_read_toc_block]. *)
Fixpoint toc_loop (lines : list str) (max_lines : Z) (lines_scanned : Z)
    (started : bool) (toc : list str) : list str * bool :=
  match lines with
  | [] => (toc, false)
  | raw :: rest =>
      let lines_scanned := (lines_scanned + 1)%Z in
      if negb (max_lines =? 0)%Z && (max_lines <? lines_scanned)%Z
      then (toc, true)
      else
        let stripped := strip raw in
        if negb started then
          if bool_decide (stripped = TOC_HEADING)
          then toc_loop rest max_lines lines_scanned true (toc ++ [stripped])
          else toc_loop rest max_lines lines_scanned false toc
        else if startswith stripped H2_PREFIX
                && negb (bool_decide (stripped = TOC_HEADING))
        then (toc, false)
        else if bool_decide (stripped = [])
        then toc_loop rest max_lines lines_scanned true toc
        else toc_loop rest max_lines lines_scanned true
               (toc ++ [rstrip_nl raw])
  end.

Definition _read_toc_block (fh carry : list str) (max_lines : Z)
  : list str * bool :=
  toc_loop (carry ++ fh) max_lines 0 false [].

(** Vocabulary for the statements about [_read_toc_block]: the line that
    starts the block, a line that ends it, and whether the loop, in the
    state [started], runs through all of [lines] without meeting its
    second [break]. *)
Definition is_toc_start (raw : str) : bool :=
  bool_decide (strip raw = TOC_HEADING).

Definition is_toc_end (raw : str) : bool :=
  startswith (strip raw) H2_PREFIX
  && negb (bool_decide (strip raw = TOC_HEADING)).

Fixpoint runs_through (lines : list str) (started : bool) : bool :=
  match lines with
  | [] => true
  | raw :: rest =>
      if started then negb (is_toc_end raw) && runs_through rest true
      else runs_through rest (is_toc_start raw)
  end.

(** A line of the block after its heading: not blank, no heading of
    another section, no newline at its end.  The lines the scanner looks
    at under the budget [max_lines] ([0]: no limit). *)
Definition toc_item (l : str) : bool :=
  negb (bool_decide (strip l = [])) && negb (is_toc_end l)
  && bool_decide (rstrip_nl l = l).

Definition scan_window (max_lines : Z) (lines : list str) : list str :=
  if (max_lines =? 0)%Z then lines else take (Z.to_nat max_lines) lines.


Section WithTables.
Context {tables : Tables}.

(** [peek_markdown] on the lines of an existing file. *)
Definition peek_markdown (fh : list str) (include_toc : bool) (max_lines : Z)
  : exn + PeekResult :=
  match _parse_front_matter_stream fh with
  | inl e => inl e
  | inr (fm, fm_raw, carry, leftover) =>
      let '(toc, truncated) :=
        if include_toc then _read_toc_block leftover carry max_lines
        else ([], false) in
      inr {| has_front_matter := negb (bool_decide (fm = ∅));
             front_matter := fm;
             front_matter_raw := fm_raw;
             toc_found := negb (bool_decide (toc = []));
             toc_truncated := truncated;
             toc := if include_toc then Some toc else None |}
  end.

End WithTables.

End DocMeta.

(** *** tools/docindex.py: the skim command, which calls tools/docmeta.py *)

Module DocIndexSkim.

(** The files of the disk: the lines a path gives when it is opened,
    [None] when opening it raises [FileNotFoundError].  A path whose
    opening or reading fails in another way (a directory, a file that
    may not be read or is not UTF-8) has no counterpart here: the
    statements about [skim_files] speak of paths that are missing or can
    be read. *)
Definition files : Type := str -> option (list str).

Definition MISSING_PREFIX : str := Eval cbv in lit "[docindex] Missing file: ".

Definition present (fs : files) (path : str) : bool :=
  match fs path with
  | Some _ => true
  | None => false
  end.

Section WithTables.
Context {tables : Tables}.

(** The [for path in paths] loop of [skim_files]: the results, each with
    the path it reports, and the lines printed to the error stream. *)
Fixpoint skim_loop (fs : files) (paths : list str) (include_toc : bool)
    (max_lines : Z) (results : list (str * DocMeta.PeekResult))
    (stderr : list str)
  : exn + (list (str * DocMeta.PeekResult) * list str) :=
  match paths with
  | [] => inr (results, stderr)
  | path :: paths' =>
      match fs path with
      | None =>
          skim_loop fs paths' include_toc max_lines results
            (stderr ++ [MISSING_PREFIX ++ path])
      | Some lines =>
          match DocMeta.peek_markdown lines include_toc max_lines with
          | inl e => inl e
          | inr info =>
              skim_loop fs paths' include_toc max_lines
                (results ++ [(path, info)]) stderr
          end
      end
  end.

Definition skim_files (fs : files) (paths : list str) (include_toc : bool)
    (max_lines : Z)
  : exn + (list (str * DocMeta.PeekResult) * list str) :=
  skim_loop fs paths include_toc max_lines [] [].

End WithTables.

End DocIndexSkim.

(** *** tools/docset_sanitize.py *)

Module DocsetSanitize.

(** What a key of the sanitizer's front matter can hold: this parser
    converts no integers. *)
Inductive value :=
  | VStr (s : str)
  | VList (l : list str).

Definition K_TITLE : str := Eval cbv in lit "title".
Definition K_DOCSET_VERSION : str := Eval cbv in lit "docset_version".
Definition K_EXPORTED_AT : str := Eval cbv in lit "exported_at".
Definition K_DOC_COUNT : str := Eval cbv in lit "doc_count".
Definition K_FILE_SIZE : str := Eval cbv in lit "file_size".
Definition K_SUMMARY : str := Eval cbv in lit "summary".
Definition K_KEY_SECTIONS : str := Eval cbv in lit "key_sections".
Definition KEY_SECTIONS_LINE : str := Eval cbv in lit "key_sections:".
Definition SANITIZER_LINE : str := Eval cbv in lit "sanitizer:".
Definition GENERATED_AT_PREFIX : str := Eval cbv in lit "  generated_at: ".
Definition TOC_DEPTH_PREFIX : str := Eval cbv in lit "  toc_depth: ".
Definition STOPWORDS_LINE : str := Eval cbv in lit "  stopwords:".
Definition WORD_PREFIX : str := Eval cbv in lit "    - ".
Definition FIELD_SEP : str := Eval cbv in lit ": ".
Definition SUMMARY_SEP : str := Eval cbv in lit ", ".
Definition OVERVIEW : str := Eval cbv in lit "overview".
Definition LINK_OPEN : str := Eval cbv in lit "- [".
Definition BULLET : str := Eval cbv in lit "-".
Definition NEWLINE : N := 10.
Definition CLOSE_BRACKET : N := 93.

Definition STOPWORDS_DEFAULT : gset str :=
  list_to_set
    [lit "return value"; lit "discussion"; lit "special considerations";
     lit "parameters"; lit "see also"].

(** The order of [str]: lexicographic on code points. *)
Fixpoint str_leb (a b : str) : bool :=
  match a, b with
  | [], _ => true
  | _ :: _, [] => false
  | x :: a', y :: b' =>
      if (x <? y)%N then true
      else if (x =? y)%N then str_leb a' b'
      else false
  end.

Definition str_le (a b : str) : Prop := str_leb a b = true.

#[global] Instance str_le_dec : RelDecision str_le.
Proof. intros a b. unfold str_le. apply _. Defined.

(** [sorted(stopwords)] *)
Definition sorted (words : gset str) : list str :=
  merge_sort str_le (elements words).

Definition setdefault_append (data : gmap str value) (key item : str)
  : exn + gmap str value :=
  match data !! key with
  | None => inr (<[key := VList [item]]> data)
  | Some (VList l) => inr (<[key := VList (l ++ [item])]> data)
  | Some (VStr _) => inl AttributeError
  end.

(** The [for i in range(1, len(lines))] search for the closing marker, with
    its [else] branch: the header lines and the rest of the document. *)
Fixpoint split_header (tail : list str) : list str * list str :=
  match tail with
  | [] => ([], [])
  | line :: tail' =>
      if bool_decide (strip line = DASHES) then ([], tail')
      else let '(fm_lines, rest) := split_header tail' in
           (line :: fm_lines, rest)
  end.

(** The [for raw in fm_lines] loop of [parse_front_matter]. *)
Fixpoint header_loop (fm_lines : list str) (data : gmap str value)
    (key : option str) : exn + gmap str value :=
  match fm_lines with
  | [] => inr data
  | raw :: fm_lines' =>
      let stripped := strip raw in
      if (startswith stripped ITEM2 || startswith stripped ITEM4)
         && truthy key then
        match setdefault_append data (default [] key) (drop 2 stripped) with
        | inl e => inl e
        | inr data' => header_loop fm_lines' data' key
        end
      else if str_in COLON_S raw then
        let '(key_part, v) := split_once COLON raw in
        let k := strip key_part in
        let v := strip v in
        header_loop fm_lines'
          (<[k := match v with [] => VList [] | _ => VStr v end]> data)
          (Some k)
      else header_loop fm_lines' data key
  end.

Definition parse_front_matter (lines : list str)
  : exn + (gmap str value * list str) :=
  match lines with
  | [] => inr (∅, lines)
  | first :: tail =>
      if negb (bool_decide (strip first = DASHES)) then inr (∅, lines)
      else
        let '(fm_lines, rest) := split_header tail in
        match header_loop fm_lines ∅ None with
        | inl e => inl e
        | inr data => inr (data, rest)
        end
  end.

(** The text after the opening bracket of a link, matched by the lazy
    group and the closing bracket of the two link patterns: at least one
    character, none of them a newline, up to the first closing bracket
    after the first character. *)
Fixpoint until_close (s : str) : option str :=
  match s with
  | [] => None
  | c :: t =>
      if (c =? CLOSE_BRACKET)%N then Some []
      else if (c =? NEWLINE)%N then None
      else cons c <$> until_close t
  end.

Definition link_title (s : str) : option str :=
  match s with
  | [] => None
  | c :: t => if (c =? NEWLINE)%N then None else cons c <$> until_close t
  end.

(** The match of the TOC-line pattern of [rebuild_toc] at the start of
    [line]: the length of group 1 (the leading white space) and group 2. *)
Definition toc_line_match (line : str) : option (nat * str) :=
  let after := lstrip line in
  if startswith after LINK_OPEN
  then pair (length line - length after)
         <$> link_title (drop (length LINK_OPEN) after)
  else None.

(** The match of the link pattern of [sanitize_file] at the start of [s]:
    group 1. *)
Definition link_match (s : str) : option str :=
  if startswith s LINK_OPEN then link_title (drop (length LINK_OPEN) s)
  else None.

Section WithTables.
Context {tables : Tables}.

(** [emit(key, value)] of [build_front_matter], as the lines it adds. *)
Definition emit (key : str) (v : option value) : list str :=
  match v with
  | None => []
  | Some (VStr []) => []
  | Some (VStr s) => [key ++ FIELD_SEP ++ s]
  | Some (VList l) => [key ++ FIELD_SEP ++ repr_list l]
  end.

(** [build_front_matter]; [now] is the time stamp the clock gives. *)
Definition build_front_matter (now : str) (meta : gmap str value)
    (key_sections : list str) (toc_depth : Z) (stopwords : gset str)
  : list str :=
  let summary := join SUMMARY_SEP (take 6 key_sections) in
  [DASHES]
  ++ emit K_TITLE (meta !! K_TITLE)
  ++ emit K_DOCSET_VERSION (meta !! K_DOCSET_VERSION)
  ++ emit K_EXPORTED_AT (meta !! K_EXPORTED_AT)
  ++ emit K_DOC_COUNT (meta !! K_DOC_COUNT)
  ++ emit K_FILE_SIZE (meta !! K_FILE_SIZE)
  ++ match summary with
     | [] => []
     | _ => emit K_SUMMARY (Some (VStr summary))
     end
  ++ [KEY_SECTIONS_LINE]
  ++ map (fun section => ITEM4 ++ section) (take 20 key_sections)
  ++ [SANITIZER_LINE;
      GENERATED_AT_PREFIX ++ now;
      TOC_DEPTH_PREFIX ++ str_of_int toc_depth;
      STOPWORDS_LINE]
  ++ map (fun word => WORD_PREFIX ++ word) (sorted stopwords)
  ++ [DASHES].

(** The body of the loop of [rebuild_toc]: does the line stay? *)
Definition keeps_toc_line (toc_depth : Z) (stop_set : gset str) (line : str)
  : bool :=
  if negb (startswith (lstrip line) BULLET) then false
  else match toc_line_match line with
       | None => false
       | Some (indent, group2) =>
           let depth := (indent / 2 + 1)%nat in
           let low := lower (strip group2) in
           if (toc_depth <? Z.of_nat depth)%Z then false
           else if bool_decide (low ∈ stop_set) then false
           else if bool_decide (low = OVERVIEW) && bool_decide (1 < depth)
           then false
           else true
       end.

Definition rebuild_toc (text_lines : list str) (toc_depth : Z)
    (stopwords : gset str) : list str :=
  let stop_set : gset str := set_map lower stopwords in
  map rstrip (List.filter (keeps_toc_line toc_depth stop_set) text_lines).

(** The [for i, line in enumerate(rest)] loop of [sanitize_file] that
    locates the TOC block: [toc_start] and [toc_end]. *)
Fixpoint locate_toc (rest : list str) (i : nat) (toc_start : option nat)
  : option nat * option nat :=
  match rest with
  | [] => (toc_start, None)
  | line :: rest' =>
      if bool_decide (strip line = TOC_HEADING)
      then locate_toc rest' (S i) (Some i)
      else match toc_start with
           | Some start =>
               if startswith line H2_PREFIX && bool_decide (start < i)
               then (toc_start, Some i)
               else locate_toc rest' (S i) toc_start
           | None => locate_toc rest' (S i) toc_start
           end
  end.

Definition trim_toc (rest : list str) (toc_depth : Z) (stopwords : gset str)
  : list str :=
  match locate_toc rest 0 None with
  | (Some toc_start, Some toc_end) =>
      let toc_block := drop (S toc_start) (take toc_end rest) in
      take (S toc_start) rest
      ++ rebuild_toc toc_block toc_depth stopwords
      ++ drop toc_end rest
  | _ => rest
  end.

Definition is_stopword (stopwords : gset str) (title : str) : bool :=
  let low := lower title in
  bool_decide (low ∈ stopwords) || bool_decide (low = OVERVIEW).

(** The [for title in key_sections] loop: [cleaned_sections]. *)
Definition clean_step (stopwords : gset str) (cleaned : list str)
    (title : str) : list str :=
  if is_stopword stopwords title then cleaned
  else if bool_decide (title ∈ cleaned) then cleaned
  else cleaned ++ [title].

Definition clean_sections (stopwords : gset str) (key_sections : list str)
  : list str :=
  fold_left (clean_step stopwords) key_sections [].

(** The [for line in rest] loop that derives sections from link lines,
    with its [break] at ten titles. *)
Fixpoint derive_loop (stopwords : gset str) (rest : list str)
    (derived : list str) : list str :=
  match rest with
  | [] => derived
  | line :: rest' =>
      match link_match (strip line) with
      | None => derive_loop stopwords rest' derived
      | Some title =>
          if is_stopword stopwords title
          then derive_loop stopwords rest' derived
          else if bool_decide (title ∈ derived)
          then derive_loop stopwords rest' derived
          else let derived := derived ++ [title] in
               if bool_decide (10 <= length derived) then derived
               else derive_loop stopwords rest' derived
      end
  end.

(** [key_sections] as [sanitize_file] hands it to [build_front_matter];
    [rest] is the body after the TOC was trimmed. *)
Definition output_key_sections (stopwords : gset str)
    (meta : gmap str value) (rest : list str) : list str :=
  let key_sections :=
    match meta !! K_KEY_SECTIONS with
    | Some (VList l) => l
    | _ => []
    end in
  match clean_sections stopwords key_sections with
  | [] => derive_loop stopwords rest []
  | cleaned => cleaned
  end.

(** Vocabulary for the statements about the header round trip: a header
    line that is a [key: value] field and no list item, the key such a line
    sets, and a list item that is written as it is read (not blank, no
    trailing white space). *)
Definition is_field (line : str) : bool :=
  negb (startswith (strip line) ITEM2)
  && negb (startswith (strip line) ITEM4)
  && str_in COLON_S line
  && negb (bool_decide (strip line = DASHES)).

Definition field_key (line : str) : str := strip (split_once COLON line).1.


(** [sanitize_file] on the lines of the input file: the lines written to
    the output, which the source joins with newlines. *)
Definition sanitize_file (now : str) (text : list str) (toc_depth : Z)
    (stopwords : gset str) : exn + list str :=
  match parse_front_matter text with
  | inl e => inl e
  | inr (meta, rest) =>
      let rest := trim_toc rest toc_depth stopwords in
      let key_sections := output_key_sections stopwords meta rest in
      inr (build_front_matter now meta key_sections toc_depth stopwords
           ++ rest)
  end.

(** The stopword set [main] builds from the defaults and the
    [--stopword] options ([None]: the option was not given). *)
Definition cli_stopwords (user : option (list str)) : gset str :=
  let stopwords : gset str := set_map lower STOPWORDS_DEFAULT in
  match user with
  | None | Some [] => stopwords
  | Some words => stopwords ∪ list_to_set (map lower words)
  end.

End WithTables.

End DocsetSanitize.

(** *** Inputs for the examples *)

Module Fixtures.

Definition heading_text : str :=
  Eval cbv in lit "Core Data/NSManagedObject -- fetch_request".

Definition scalar_then_item : list str :=
  Eval cbv in [lit "---"; lit "title: Demo"; lit "  - item"].

Definition count_line : str := Eval cbv in lit "doc_count: 3".
Definition item_line : str := Eval cbv in lit "  - Overview".

Definition anchor_line : str :=
  Eval cbv in lit "<a id=" ++ [34%N] ++ lit "fetching" ++ [34%N] ++ lit "></a>".
Definition heading_one : str := Eval cbv in lit "## Fetching Objects".
Definition heading_two : str := Eval cbv in lit "### Batch Size".
Definition heading_three : str := Eval cbv in lit "## See Also".
Definition prose : str := Eval cbv in lit "Some text.".

(** Twenty lines after the front matter: the TOC block starts at line 3
    and runs to line 20; line 4 is blank. *)
Definition toc_entry : str := Eval cbv in lit "- [Fetching](#fetching)" ++ [10%N].
Definition long_toc : list str :=
  Eval cbv in
    [lit "# Core Data" ++ [10%N]; [10%N];
     lit "## Table of Contents" ++ [10%N]; [10%N]]
    ++ repeat toc_entry 16.

(** An index of one entry whose heading and key section both contain the
    search term: with a marker-given anchor that differs from the slug of
    the key section, and with the anchor equal to that slug. *)
Definition entry_with (anchor : str) : DocIndex.DocEntry :=
  {| DocIndex.path := lit "docs/apple/coredata.md";
     DocIndex.title := DocIndex.VStr (lit "Core Data");
     DocIndex.docset_version := DocIndex.VInt 123;
     DocIndex.exported_at := DocIndex.VStr (lit "2025-11-12T00:00:00Z");
     DocIndex.doc_count := DocIndex.VInt 1;
     DocIndex.file_size := DocIndex.VInt 100;
     DocIndex.key_sections := DocIndex.VList [lit "Fetching Objects"];
     DocIndex.headings :=
       [DocIndex.Build_HeadingRecord (lit "Fetching Objects") anchor 2] |}.

Definition index_with (anchor : str) : DocIndex.Index :=
  {| DocIndex.generated_at := lit "2025-11-12T00:00:00Z";
     DocIndex.docs_root := lit "docs/apple";
     DocIndex.entries := [entry_with anchor] |}.

(** The entry the index builder makes of a document whose header says
    [key_sections: 3], and an index that holds it after the entry of the
    first fixture. *)
Definition counted_entry : DocIndex.DocEntry :=
  {| DocIndex.path := lit "docs/apple/counted.md";
     DocIndex.title := DocIndex.VStr (lit "Counted");
     DocIndex.docset_version := DocIndex.VStr DocIndex.UNKNOWN;
     DocIndex.exported_at := DocIndex.VStr [];
     DocIndex.doc_count := DocIndex.VInt 0;
     DocIndex.file_size := DocIndex.VInt 0;
     DocIndex.key_sections := DocIndex.VInt 3;
     DocIndex.headings :=
       [DocIndex.Build_HeadingRecord (lit "Fetching Objects")
          (lit "fetchingobjects") 2] |}.

Definition counted_index : DocIndex.Index :=
  {| DocIndex.generated_at := lit "2025-11-12T00:00:00Z";
     DocIndex.docs_root := lit "docs/apple";
     DocIndex.entries := [entry_with (lit "fetching"); counted_entry] |}.

(** A directory of two documents: one without front matter, one whose
    front matter gives the version only. *)
Definition plain_doc : DocIndex.Doc :=
  {| DocIndex.doc_path := lit "docs/apple/notes.md";
     DocIndex.doc_stem := lit "notes";
     DocIndex.doc_lines := [heading_one; prose] |}.

Definition sparse_doc : DocIndex.Doc :=
  {| DocIndex.doc_path := lit "docs/apple/coredata.md";
     DocIndex.doc_stem := lit "coredata";
     DocIndex.doc_lines :=
       [lit "---"; lit "docset_version: 123"; lit "---";
        heading_one; prose] |}.

(** A document whose header gives a number for the key sections. *)
Definition counted_doc : DocIndex.Doc :=
  {| DocIndex.doc_path := lit "docs/apple/counted.md";
     DocIndex.doc_stem := lit "counted";
     DocIndex.doc_lines :=
       [lit "---"; lit "title: Counted"; lit "key_sections: 3"; lit "---";
        heading_one; prose] |}.

(** A second entry, for an index of two documents. *)
Definition swiftui_entry : DocIndex.DocEntry :=
  {| DocIndex.path := lit "docs/apple/swiftui.md";
     DocIndex.title := DocIndex.VStr (lit "SwiftUI");
     DocIndex.docset_version := DocIndex.VInt 123;
     DocIndex.exported_at := DocIndex.VStr (lit "2025-11-12T00:00:00Z");
     DocIndex.doc_count := DocIndex.VInt 1;
     DocIndex.file_size := DocIndex.VInt 100;
     DocIndex.key_sections := DocIndex.VList [lit "Fetching Images"];
     DocIndex.headings :=
       [DocIndex.Build_HeadingRecord (lit "Layout") (lit "layout") 2] |}.

(** A document whose front-matter block holds no key. *)
Definition hollow_lines : list str :=
  Eval cbv in [lit "---"; lit "  just a note"; []; lit "---";
               lit "## Fetching Objects"; lit "title: not a header"].

Definition hollow_doc : DocIndex.Doc :=
  {| DocIndex.doc_path := lit "docs/apple/hollow.md";
     DocIndex.doc_stem := lit "hollow";
     DocIndex.doc_lines := hollow_lines |}.

(** A document for the sanitizer: stopwords and [Overview] among its key
    sections, in several letter cases. *)
Definition export_lines : list str :=
  Eval cbv in
    [lit "---"; lit "title: Core Data"; lit "doc_count: 3";
     lit "key_sections:"; lit "  - Overview"; lit "  - SEE ALSO";
     lit "  - Fetching Objects"; lit "  - Discussion"; lit "  - OVERVIEW";
     lit "---"; lit "## Table of Contents";
     lit "- [Fetching Objects](#fetching)"; lit "## Fetching Objects"].



(** The documents of the two unit tests of the repository
    ([tools/test_docindex.py]). *)
Definition unit_test_lines : list str :=
  Eval cbv in
    [lit "---"; lit "title: Demo"; lit "docset_version: 123";
     lit "exported_at: 2025-11-12T00:00:00Z"; lit "doc_count: 3";
     lit "file_size: 456"; lit "key_sections:"; lit "  - Overview";
     lit "  - Details"; lit "---"; lit "## Table of Contents";
     lit "- [Overview](#overview)";
     lit "<a id=" ++ [34%N] ++ lit "overview" ++ [34%N] ++ lit "></a>";
     lit "## Overview"; lit "Some text.";
     lit "<a id=" ++ [34%N] ++ lit "details" ++ [34%N] ++ lit "></a>";
     lit "### Details"].

Definition unit_test_doc_lines : list str :=
  Eval cbv in
    [lit "---"; lit "title: Demo"; lit "docset_version: 123";
     lit "exported_at: 2025-11-12T00:00:00Z"; lit "doc_count: 1";
     lit "file_size: 100"; lit "key_sections:"; lit "  - Demo Section";
     lit "---"; lit "## Table of Contents";
     lit "- [Demo Section](#demo-section)";
     lit "<a id=" ++ [34%N] ++ lit "demo-section" ++ [34%N] ++ lit "></a>";
     lit "## Demo Section"].

Definition unit_test_doc : DocIndex.Doc :=
  {| DocIndex.doc_path := lit "docs/apple/demo.md";
     DocIndex.doc_stem := lit "demo";
     DocIndex.doc_lines := unit_test_doc_lines |}.

(** The document of the unit test as a file object yields it. *)
Definition unit_test_stream : list str :=
  Eval cbv in map (fun l => l ++ [10%N]) unit_test_lines.

(** The lines of a table of contents, three levels deep. *)
Definition toc_lines : list str :=
  Eval cbv in
    [lit "- [Fetching Objects](#fetching-objects)";
     lit "  - [Batch Size](#batch-size)";
     lit "    - [Faulting](#faulting)  ";
     lit "Some text.";
     lit "- [See Also](#see-also)"].

(** A disk with one file, the document of the unit test. *)
Definition one_file : DocIndexSkim.files :=
  fun path =>
    if bool_decide (path = lit "docs/apple/demo.md")
    then Some unit_test_stream else None.

(** The same lines as a file object yields them. *)
Definition scalar_then_item_stream : list str :=
  Eval cbv in map (fun l => l ++ [10%N]) scalar_then_item.

(** A document whose header has an item line after a scalar field, and a
    disk that holds it beside the document of the unit test. *)
Definition broken_doc : DocIndex.Doc :=
  {| DocIndex.doc_path := lit "docs/apple/broken.md";
     DocIndex.doc_stem := lit "broken";
     DocIndex.doc_lines := scalar_then_item |}.

Definition two_files : DocIndexSkim.files :=
  fun path =>
    if bool_decide (path = lit "docs/apple/demo.md")
    then Some unit_test_stream
    else if bool_decide (path = lit "docs/apple/broken.md")
    then Some scalar_then_item_stream
    else None.

End Fixtures.

(** ** Part II: properties *)

(** *** Facts about the [str] operations *)

Section StrFacts.

Lemma startswith_spec (s p : str) :
  startswith s p = true ↔ ∃ t, s = p ++ t.
Proof.
  revert s. induction p as [|a p IH]; intros s; simpl.
  - split; eauto.
  - destruct s as [|b s].
    + split; [done | intros [t Ht]; done].
    + rewrite andb_true_iff, N.eqb_eq, IH. split.
      * intros [-> [t ->]]. eauto.
      * intros [t Ht]. injection Ht as -> ->. eauto.
Qed.


Lemma str_in_spec (sub s : str) :
  str_in sub s = true ↔ ∃ a b, s = a ++ sub ++ b.
Proof.
  induction s as [|c s IH]; simpl.
  - rewrite orb_false_r, startswith_spec. split.
    + intros [t Ht]. by exists [], t.
    + intros (a & b & Hab). destruct a; simpl in *; [eauto | done].
  - rewrite orb_true_iff, startswith_spec, IH. split.
    + intros [[t Ht] | (a & b & ->)].
      * by exists [], t.
      * by exists (c :: a), b.
    + intros (a & b & Hab). destruct a as [|x a]; simpl in *.
      * left; eauto.
      * injection Hab as -> ->. right; eauto.
Qed.

Lemma str_in_infix (sub a m b : str) :
  str_in sub (a ++ m ++ b) = false → str_in sub m = false.
Proof.
  intros Hf. destruct (str_in sub m) eqn:Hm; [|done].
  apply str_in_spec in Hm as (x & y & ->).
  assert (str_in sub (a ++ (x ++ sub ++ y) ++ b) = true) as Ht.
  { apply str_in_spec. exists (a ++ x), (y ++ b).
    by rewrite <- !app_assoc. }
  congruence.
Qed.

Lemma drop_while_split (p : N → bool) (s : str) :
  ∃ a, s = a ++ drop_while p s ∧ Forall (λ c, p c = true) a.
Proof.
  induction s as [|c s (a & Ha & Hp)]; simpl.
  - by exists [].
  - destruct (p c) eqn:Hc.
    + exists (c :: a). split; [by simpl; f_equal | by constructor].
    + by exists [].
Qed.

Lemma drop_while_head (p : N → bool) (s : str) c t :
  drop_while p s = c :: t → p c = false.
Proof.
  induction s as [|x s IH]; simpl; [done|].
  destruct (p x) eqn:Hx; [done|]. intros [= -> _]. done.
Qed.

Lemma drop_while_keep (p : N → bool) c (t : str) :
  p c = false → drop_while p (c :: t) = c :: t.
Proof. intros Hc. simpl. by rewrite Hc. Qed.

Lemma drop_while_fixed (p : N → bool) (s : str) :
  drop_while p (drop_while p s) = drop_while p s.
Proof.
  destruct (drop_while p s) as [|c t] eqn:Hd; [done|].
  apply drop_while_keep. eapply drop_while_head. done.
Qed.

Lemma drop_while_app (p : N → bool) (a s : str) :
  Forall (λ c, p c = true) a → drop_while p (a ++ s) = drop_while p s.
Proof. induction 1 as [|c a Hc _ IH]; simpl; [done|]. by rewrite Hc. Qed.

Lemma Forall_rev_iff (P : N → Prop) (s : str) : Forall P (rev s) ↔ Forall P s.
Proof.
  rewrite !Forall_forall. split; intros Hs x Hx; apply Hs.
  - apply list_elem_of_In. apply -> in_rev. by apply list_elem_of_In.
  - apply list_elem_of_In. apply in_rev. by apply list_elem_of_In.
Qed.

Lemma rstrip_by_split (p : N → bool) (s : str) :
  ∃ b, s = rstrip_by p s ++ b ∧ Forall (λ c, p c = true) b.
Proof.
  unfold rstrip_by. destruct (drop_while_split p (rev s)) as (a & Ha & Hp).
  exists (rev a). split.
  - rewrite <- rev_app_distr, <- Ha. by rewrite rev_involutive.
  - by apply Forall_rev_iff.
Qed.

Lemma rstrip_by_snoc (p : N → bool) (s : str) c :
  p c = false → rstrip_by p (s ++ [c]) = s ++ [c].
Proof.
  intros Hc. unfold rstrip_by. rewrite rev_app_distr. simpl.
  rewrite Hc. simpl. by rewrite rev_involutive.
Qed.

Lemma rstrip_by_app (p : N → bool) (s b : str) :
  Forall (λ c, p c = true) b → rstrip_by p (s ++ b) = rstrip_by p s.
Proof.
  intros Hb. unfold rstrip_by. rewrite rev_app_distr.
  rewrite drop_while_app; [done|]. by apply Forall_rev_iff.
Qed.

Lemma rstrip_by_last (p : N → bool) (s t : str) c :
  rstrip_by p s = t ++ [c] → p c = false.
Proof.
  unfold rstrip_by. intros Hr.
  apply (f_equal (@rev N)) in Hr.
  rewrite rev_involutive, rev_app_distr in Hr. simpl in Hr.
  eapply drop_while_head. done.
Qed.

(** [strip] returns an infix of its argument... *)
Lemma strip_by_infix (p : N → bool) (s : str) :
  ∃ a b, s = a ++ strip_by p s ++ b
         ∧ Forall (λ c, p c = true) a ∧ Forall (λ c, p c = true) b.
Proof.
  unfold strip_by, lstrip_by.
  destruct (rstrip_by_split p s) as (b & Hb & Hpb).
  destruct (drop_while_split p (rstrip_by p s)) as (a & Ha & Hpa).
  exists a, b. split; [|done].
  rewrite app_assoc, <- Ha. done.
Qed.

(** ... whose ends are not stripped any further. *)
Lemma strip_by_ends (p : N → bool) (s : str) :
  drop_while p (strip_by p s) = strip_by p s
  ∧ rstrip_by p (strip_by p s) = strip_by p s.
Proof.
  unfold strip_by, lstrip_by. split; [apply drop_while_fixed|].
  destruct (drop_while_split p (rstrip_by p s)) as (a & Ha & Hpa).
  destruct (drop_while p (rstrip_by p s)) as [|x u _] eqn:Hd using rev_ind;
    [done|].
  apply rstrip_by_snoc. apply (rstrip_by_last p s (a ++ u)).
  rewrite Ha at 1. by rewrite app_assoc.
Qed.

Lemma strip_by_fixed (p : N → bool) (s : str) :
  strip_by p (strip_by p s) = strip_by p s.
Proof.
  destruct (strip_by_ends p s) as [Hl Hr].
  unfold strip_by at 1. unfold lstrip_by. by rewrite Hr, Hl.
Qed.

Lemma strip_by_Forall (P : N → Prop) (p : N → bool) (s : str) :
  Forall P s → Forall P (strip_by p s).
Proof.
  intros Hs. destruct (strip_by_infix p s) as (a & b & Hab & _).
  rewrite Hab in Hs. by apply Forall_app in Hs as [_ [Hs _]%Forall_app].
Qed.

End StrFacts.

(** *** Slugify *)

Section SlugifyFacts.
Context {tables : Tables}.
Import DocIndex.

Ltac cmp_step :=
  match goal with
  | H : context [(?a <=? ?b)%N] |- _ => destruct (N.leb_spec a b)
  | |- context [(?a <=? ?b)%N] => destruct (N.leb_spec a b)
  | H : context [(?a <? ?b)%N] |- _ => destruct (N.ltb_spec a b)
  | |- context [(?a <? ?b)%N] => destruct (N.ltb_spec a b)
  end.

Lemma pairs_ind (P : str → Prop) :
  P [] → (∀ c, P [c]) → (∀ c d t, P t → P (d :: t) → P (c :: d :: t)) →
  ∀ s, P s.
Proof.
  intros H0 H1 H2 s.
  assert (P s ∧ ∀ c, P (c :: s)) as [Hs _]; [|done].
  induction s as [|d t [IHt IHdt]]; [by split|].
  split; [apply IHdt|]. intros c. by apply H2.
Qed.

Lemma double_dash_head c d (t : str) :
  str_in DOUBLE_DASH (c :: d :: t)
  = ((c =? DASH) && (d =? DASH))%N || str_in DOUBLE_DASH (d :: t).
Proof.
  change (str_in DOUBLE_DASH (c :: d :: t))
    with (startswith (c :: d :: t) DOUBLE_DASH
          || str_in DOUBLE_DASH (d :: t)).
  f_equal. unfold DOUBLE_DASH, DASH. cbn [startswith].
  by rewrite andb_true_r, (N.eqb_sym 45 c), (N.eqb_sym 45 d).
Qed.

Lemma replace_double_dash_Forall (P : N → Prop) (s : str) :
  Forall P s → Forall P (replace_double_dash s).
Proof.
  induction s as [| c | c d t IHt IHdt] using pairs_ind; [done..|].
  intros Hs. simpl replace_double_dash.
  pose proof Hs as [Hc Hdt]%Forall_cons. pose proof Hdt as [Hd Ht]%Forall_cons.
  destruct ((c =? DASH) && (d =? DASH))%N eqn:Hcd.
  - apply andb_true_iff in Hcd as [->%N.eqb_eq _]. constructor; auto.
  - constructor; auto.
Qed.

Lemma replace_double_dash_length (s : str) :
  length (replace_double_dash s) ≤ length s.
Proof.
  induction s as [| c | c d t IHt IHdt] using pairs_ind; [done..|].
  simpl replace_double_dash.
  destruct ((c =? DASH) && (d =? DASH))%N; simpl in *; lia.
Qed.

Lemma replace_double_dash_shorter (s : str) :
  str_in DOUBLE_DASH s = true → length (replace_double_dash s) < length s.
Proof.
  induction s as [| c | c d t IHt IHdt] using pairs_ind; [done| |].
  { unfold DOUBLE_DASH. cbn [str_in startswith].
    by rewrite andb_false_r. }
  rewrite double_dash_head. intros Hin.
  simpl replace_double_dash.
  destruct ((c =? DASH) && (d =? DASH))%N eqn:Hcd.
  - pose proof (replace_double_dash_length t). simpl. lia.
  - simpl in Hin. specialize (IHdt Hin). simpl in *. lia.
Qed.

Lemma collapse_loop_done (fuel : nat) (s : str) :
  length s ≤ fuel → str_in DOUBLE_DASH (collapse_loop fuel s) = false.
Proof.
  revert s. induction fuel as [|fuel IH]; intros s Hlen; simpl.
  - by destruct s; [|simpl in Hlen; lia].
  - destruct (str_in DOUBLE_DASH s) eqn:Hin; [|done].
    apply IH. pose proof (replace_double_dash_shorter s Hin). lia.
Qed.

(** The loop ends: after [collapse_dashes] no doubled dash is left. *)
Lemma collapse_dashes_done (s : str) :
  str_in DOUBLE_DASH (collapse_dashes s) = false.
Proof. by apply collapse_loop_done. Qed.

Lemma collapse_loop_noop (fuel : nat) (s : str) :
  str_in DOUBLE_DASH s = false → collapse_loop fuel s = s.
Proof. intros Hs. destruct fuel; simpl; [done|]. by rewrite Hs. Qed.

Lemma collapse_loop_Forall (P : N → Prop) (fuel : nat) (s : str) :
  Forall P s → Forall P (collapse_loop fuel s).
Proof.
  revert s. induction fuel as [|fuel IH]; intros s Hs; simpl; [done|].
  destruct (str_in DOUBLE_DASH s); [|done].
  by apply IH, replace_double_dash_Forall.
Qed.

Lemma ascii_lower_facts (c : N) :
  is_ascii c = true → ascii_isalnum c = true →
  is_ascii (ascii_lower c) = true
  ∧ ascii_isalnum (ascii_lower c) = true
  ∧ ascii_lower (ascii_lower c) = ascii_lower c.
Proof.
  unfold is_ascii, ascii_isalnum, ascii_lower. intros Hc Hal.
  repeat (cmp_step; simpl in *; try lia; try done).
Qed.

Lemma ascii_lower_stable (c : N) : is_ascii c = true → lower_stable c = true.
Proof.
  intros Hc. unfold lower_stable, slug_fixed.
  destruct (isalnum c) eqn:Hal; [|done]. simpl.
  unfold isalnum in Hal. rewrite Hc in Hal.
  destruct (ascii_lower_facts c Hc Hal) as (Ha & Hl & Hf).
  assert (∀ d, is_ascii d = true → lower [d] = [ascii_lower d]) as Hlow.
  { intros d Hd. unfold lower. cbn [forallb map]. by rewrite Hd. }
  rewrite (Hlow c Hc). cbn [forallb]. rewrite andb_true_r.
  apply andb_true_iff. split.
  - unfold isalnum. by rewrite Ha.
  - apply bool_decide_eq_true. rewrite (Hlow _ Ha). by rewrite Hf.
Qed.

Lemma ascii_str_lower_stable (s : str) :
  forallb is_ascii s = true → forallb lower_stable s = true.
Proof.
  rewrite !forallb_forall. intros Hs c Hc. by apply ascii_lower_stable, Hs.
Qed.

Lemma slug_char_stable (c : N) :
  lower_stable c = true → Forall slug_stable (slug_char c).
Proof.
  intros Hc. unfold slug_char, lower_stable in *.
  destruct (isalnum c) eqn:Hal; simpl in Hc.
  - rewrite forallb_forall in Hc. apply Forall_forall. intros d Hd.
    right. apply Hc. by apply list_elem_of_In.
  - destruct (str_in [c] SLUG_SEPARATORS); [|done].
    constructor; [by left | done].
Qed.

Lemma slug_char_fixed (d : N) : slug_stable d → slug_char d = [d].
Proof.
  intros [-> | [Hal Hlow%bool_decide_eq_true]%andb_true_iff]; [done|].
  unfold slug_char. by rewrite Hal.
Qed.

Lemma slug_keep_fixed (t : str) :
  Forall slug_stable t → flat_map slug_char t = t.
Proof.
  induction 1 as [|d t Hd _ IH]; simpl; [done|].
  by rewrite (slug_char_fixed d Hd), IH.
Qed.

Lemma slug_keep_stable (text : str) :
  forallb lower_stable text = true →
  Forall slug_stable (flat_map slug_char text).
Proof.
  induction text as [|c t IH]; simpl; [done|].
  intros [Hc Ht]%andb_true_iff.
  apply Forall_app. split; [by apply slug_char_stable | by apply IH].
Qed.

Lemma slugify_section : _slugify SECTION = SECTION.
Proof. by vm_compute. Qed.

End SlugifyFacts.

(** C6, as amended.  For every string whose alphanumeric characters
    lower-case to alphanumeric characters that lower-casing leaves
    unchanged (every ASCII string is one, [ascii_str_lower_stable]),
    slugifying the slug gives the slug again, the fallback [section]
    included. *)
Theorem slugify_idempotent {tables : Tables} (text : str) :
  forallb DocIndex.lower_stable text = true →
  DocIndex._slugify (DocIndex._slugify text) = DocIndex._slugify text.
Proof.
  intros Htext. unfold DocIndex._slugify at 2 3.
  set (keep := flat_map DocIndex.slug_char text).
  pose proof (slug_keep_stable text Htext) as Hkeep. fold keep in Hkeep.
  set (slug := strip_dash (DocIndex.collapse_dashes keep)).
  assert (Forall DocIndex.slug_stable slug) as Hstable.
  { apply strip_by_Forall. by apply collapse_loop_Forall. }
  assert (str_in DocIndex.DOUBLE_DASH slug = false) as Hdd.
  { destruct (strip_by_infix (N.eqb 45) (DocIndex.collapse_dashes keep))
      as (a & b & Hab & _).
    apply (str_in_infix _ a _ b). fold strip_dash in Hab. fold slug in Hab.
    rewrite <- Hab. apply collapse_dashes_done. }
  assert (strip_dash slug = slug) as Hstrip by apply strip_by_fixed.
  destruct slug as [|c u] eqn:Hslug; [apply slugify_section|].
  unfold DocIndex._slugify. rewrite (slug_keep_fixed _ Hstable).
  unfold DocIndex.collapse_dashes. rewrite (collapse_loop_noop _ _ Hdd).
  by rewrite Hstrip.
Qed.

Lemma slugify_idempotent_witness :
  forallb (DocIndex.lower_stable (tables := excerpt)) Fixtures.heading_text
  = true
  ∧ DocIndex._slugify (tables := excerpt)
      (DocIndex._slugify (tables := excerpt) Fixtures.heading_text)
    = DocIndex._slugify (tables := excerpt) Fixtures.heading_text.
Proof.
  split; [by vm_compute|].
  apply (slugify_idempotent (tables := excerpt)). by vm_compute.
Defined.

(** C6 without the condition on the characters: the slug of U+0130 is
    U+0069 U+0307, and the combining mark is dropped when that slug is
    slugified again. *)
Lemma slugify_not_idempotent :
  DocIndex._slugify (tables := excerpt) (DocIndex._slugify (tables := excerpt) [304%N])
  ≠ DocIndex._slugify (tables := excerpt) [304%N].
Proof. by vm_compute. Qed.

(** *** The simple front-matter parser and the stream parser *)

Section ScalarThenItem.
Context {tables : Tables}.
Import DocIndex.

Lemma convert_cases (v : str) :
  v ≠ EMPTY_LIST_LITERAL → v ≠ NULL_LITERAL →
  convert v = VStr v ∨ ∃ z, convert v = VInt z.
Proof.
  intros H1 H2. unfold convert.
  rewrite (bool_decide_eq_false_2 _ H1), (bool_decide_eq_false_2 _ H2).
  simpl. destruct (int_of_str v); eauto.
Qed.

Lemma setdefault_append_scalar (data : gmap str value) (key item : str) x :
  data !! key = Some x → (∀ l, x ≠ VList l) →
  setdefault_append data key item = inl AttributeError.
Proof.
  intros Hx Hl. unfold setdefault_append. rewrite Hx.
  destruct x; [done..|]. by destruct (Hl l).
Qed.

(** What the current key holds, as far as the next item line is
    concerned. *)
Lemma convert_scalar (v : str) :
  v ≠ [] →
  match convert v with
  | VList _ => is_scalar_text v = false
  | _ => is_scalar_text v = true
  end.
Proof.
  intros Hv. unfold convert, is_scalar_text.
  rewrite (bool_decide_eq_false_2 _ Hv). cbn [orb].
  destruct (bool_decide (v = EMPTY_LIST_LITERAL)
            || bool_decide (v = NULL_LITERAL)); [done|].
  by destruct (int_of_str v).
Qed.

(** The loop of the simple parser raises in one situation only: an item
    line is read while the current key holds a scalar. *)
Lemma front_matter_loop_outcome (rest : list str) (idx : nat)
    (data : gmap str value) (current_key : option str) (scalar : bool) :
  (truthy current_key = true →
   match data !! default [] current_key with
   | Some (VList _) => scalar = false
   | Some _ => scalar = true
   | None => scalar = false
   end) →
  if meets_scalar_item rest (truthy current_key) scalar
  then front_matter_loop rest idx data current_key = inl AttributeError
  else ∃ result, front_matter_loop rest idx data current_key = inr result.
Proof.
  revert idx data current_key scalar.
  induction rest as [|line rest IH]; intros idx data key scalar Hkey.
  { cbn. by eexists. }
  cbn [meets_scalar_item front_matter_loop].
  case_bool_decide; [by eexists|].
  destruct (startswith (rstrip_nl line) ITEM4 && truthy key) eqn:Hitem.
  - apply andb_true_iff in Hitem as [_ Htruthy]. specialize (Hkey Htruthy).
    unfold setdefault_append.
    destruct (data !! default [] key) as [[?|?|l]|] eqn:Hdata.
    + by rewrite Hkey.
    + by rewrite Hkey.
    + rewrite Hkey. cbn [orb].
      specialize
        (IH (S idx)
           (<[default [] key :=
                VList (l ++ [strip (drop 4 (rstrip_nl line))])]> data)
           key false).
      apply IH. intros _. by rewrite lookup_insert_eq.
    + rewrite Hkey. cbn [orb].
      specialize
        (IH (S idx)
           (<[default [] key := VList [strip (drop 4 (rstrip_nl line))]]>
              data)
           key false).
      apply IH. intros _. by rewrite lookup_insert_eq.
  - destruct (str_in COLON_S (rstrip_nl line)); cbn [negb]; [|by apply IH].
    destruct (split_once COLON (rstrip_nl line)) as [k v]. cbn [fst snd].
    apply (IH (S idx) _ (Some (strip k))). intros _.
    cbn [default from_option id]. rewrite lookup_insert_eq.
    case_bool_decide as Hv.
    + rewrite Hv. done.
    + by apply convert_scalar.
Qed.

(** [_parse_front_matter] returns on every sequence of lines that does
    not bring an item line to a scalar key, and raises on the others. *)
Lemma parse_front_matter_outcome (lines : list str) :
  if negb (header_absent lines) && meets_scalar_item (tail lines) false false
  then _parse_front_matter lines = inl AttributeError
  else ∃ result, _parse_front_matter lines = inr result.
Proof.
  destruct lines as [|first rest]; [cbn; by eexists|].
  cbn [header_absent tail _parse_front_matter negb].
  destruct (bool_decide (strip first = DASHES)); cbn [negb andb];
    [|by eexists].
  pose proof (front_matter_loop_outcome rest 1 ∅ None false) as Hloop.
  cbn [truthy] in Hloop.
  destruct (meets_scalar_item rest false false).
  - by rewrite Hloop.
  - destruct Hloop as [[d n] ->]; [done|]. by eexists.
Qed.

End ScalarThenItem.

(** C1 (not met by the code).  Front-matter parsing is to return a mapping
    for every sequence of lines.  Both parsers raise [AttributeError] on a
    [key: value] line with a scalar value followed by an indented item
    line, whatever the integer conversion does with the value. *)
Theorem front_matter_parsers_raise {tables : Tables} :
  DocIndex._parse_front_matter Fixtures.scalar_then_item
  = inl AttributeError
  ∧ DocMeta._parse_front_matter_stream Fixtures.scalar_then_item_stream
    = inl AttributeError.
Proof.
  destruct tables as [isalnum_rows lower_rows to_int repr].
  split; vm_compute; by destruct (to_int _).
Qed.

(** C2 (not met by the code).  An item line after a scalar [key: value]
    line is to be appended to the value of that key.  In the loop of the
    simple parser, a [key: value] line whose value is a scalar (not empty,
    not the literals read as an empty list) leaves its key the current
    key; the item line that follows is directed at that key, and the
    append on the stored string or integer raises [AttributeError]: no
    item is added. *)
Theorem item_after_scalar_raises {tables : Tables}
    (key_line item_line : str) (rest : list str) (idx : nat)
    (data : gmap str DocIndex.value) (current_key : option str) :
  strip (rstrip_nl key_line) ≠ DASHES →
  startswith (rstrip_nl key_line) ITEM4 && truthy current_key = false →
  str_in COLON_S (rstrip_nl key_line) = true →
  strip (split_once COLON (rstrip_nl key_line)).1 ≠ [] →
  strip (split_once COLON (rstrip_nl key_line)).2 ≠ [] →
  strip (split_once COLON (rstrip_nl key_line)).2
    ≠ DocIndex.EMPTY_LIST_LITERAL →
  strip (split_once COLON (rstrip_nl key_line)).2 ≠ DocIndex.NULL_LITERAL →
  strip (rstrip_nl item_line) ≠ DASHES →
  startswith (rstrip_nl item_line) ITEM4 = true →
  DocIndex.front_matter_loop (key_line :: item_line :: rest) idx data
    current_key
  = inl AttributeError.
Proof.
  intros Hopen Hnoitem Hcolon Hkey Hval Hnolist Hnonull Hopen' Hitem.
  cbn [DocIndex.front_matter_loop].
  rewrite (bool_decide_eq_false_2 _ Hopen), Hnoitem, Hcolon.
  cbn [negb]. destruct (split_once COLON (rstrip_nl key_line)) as [k v].
  cbn [fst snd] in *.
  rewrite (bool_decide_eq_false_2 _ Hval), (bool_decide_eq_false_2 _ Hopen').
  rewrite Hitem. destruct (strip k) as [|c key] eqn:Hk; [done|].
  cbn [truthy andb default].
  rewrite (setdefault_append_scalar _ _ _ (DocIndex.convert (strip v)));
    [done|apply lookup_insert_eq|].
  intros l. by destruct (convert_cases (strip v) Hnolist Hnonull)
    as [-> | [z ->]].
Qed.

Lemma item_after_scalar_raises_witness :
  DocIndex.front_matter_loop (tables := excerpt)
    [Fixtures.count_line; Fixtures.item_line] 1 ∅ None
  = inl AttributeError.
Proof.
  by apply (item_after_scalar_raises (tables := excerpt)); vm_compute.
Defined.

(** *** The heading extractor *)

Section CollectHeadings.
Context {tables : Tables}.
Import DocIndex.

Lemma anchor_match_nonempty (s name : str) :
  anchor_match s = Some name → truthy (Some name) = true.
Proof.
  unfold anchor_match. destruct (startswith s ANCHOR_OPEN); [|done].
  match goal with |- context [take ?n ?b] => destruct (take n b) end;
    [done|].
  by destruct (startswith _ ANCHOR_CLOSE); intros [= <-].
Qed.

Lemma collect_loop_cons (raw : str) (rest : list str) (p : option str) :
  collect_loop (raw :: rest) p
  = match classify raw with
    | AnchorLine name => collect_loop rest (Some name)
    | HeadingLine t k =>
        {| text := t;
           anchor := if truthy p then default [] p else _slugify t;
           level := min k 6 |} :: collect_loop rest None
    | OtherLine => collect_loop rest p
    end.
Proof.
  cbn [collect_loop]. unfold classify.
  destruct (anchor_match (strip raw)); [done|].
  destruct (startswith (lstrip raw) HASH_S); [|done]. cbn [negb].
  by destruct (strip _).
Qed.

Lemma collect_loop_anchor (pre : list str) (a name : str) (rest : list str)
    (p : option str) :
  classify a = AnchorLine name →
  collect_loop (pre ++ a :: rest) p
  = collect_loop pre p ++ collect_loop rest (Some name).
Proof.
  intros Ha. revert p. induction pre as [|raw pre IH]; intros p.
  - rewrite app_nil_l, collect_loop_cons, Ha. done.
  - rewrite <- app_comm_cons, !collect_loop_cons.
    destruct (classify raw); rewrite ?IH; done.
Qed.

Lemma collect_loop_others (mid rest : list str) (p : option str) :
  forallb is_other_line mid = true →
  collect_loop (mid ++ rest) p = collect_loop rest p.
Proof.
  induction mid as [|raw mid IH]; [done|].
  cbn [forallb]. intros [Hraw Hmid]%andb_true_iff.
  rewrite <- app_comm_cons, collect_loop_cons. unfold is_other_line in Hraw.
  destruct (classify raw); try done. by apply IH.
Qed.

Lemma collect_loop_no_anchor (mid rest : list str) :
  forallb (λ l, negb (is_anchor_line l)) mid = true →
  collect_loop (mid ++ rest) None
  = collect_loop mid None ++ collect_loop rest None.
Proof.
  induction mid as [|raw mid IH]; [done|].
  cbn [forallb]. intros [Hraw Hmid]%andb_true_iff.
  rewrite <- app_comm_cons, !collect_loop_cons. unfold is_anchor_line in Hraw.
  destruct (classify raw); try done; rewrite IH; done.
Qed.

Lemma collect_loop_slugs (mid : list str) :
  forallb (λ l, negb (is_anchor_line l)) mid = true →
  Forall (λ h, anchor h = _slugify (text h)) (collect_loop mid None).
Proof.
  induction mid as [|raw mid IH]; [done|].
  cbn [forallb]. intros [Hraw Hmid]%andb_true_iff.
  rewrite collect_loop_cons. unfold is_anchor_line in Hraw.
  destruct (classify raw); try done; [|by apply IH].
  constructor; [done | by apply IH].
Qed.

End CollectHeadings.

(** C5.  An anchor line binds its name to the next heading line and to no
    other: in a document [... a mid1 h1 mid2 h2 ...] where [a] is an anchor
    line naming [name], [mid1] has neither anchor nor heading lines, [h1]
    and [h2] are heading lines and no line of [mid2] is an anchor line,
    [h1] gets the anchor [name], while [h2] and every heading inside [mid2]
    get the slug of their own text.  The extraction may start at any
    index ([front]). *)
Theorem anchor_binds_next_heading_only {tables : Tables}
    (front pre mid1 mid2 post : list str) (a name h1 text1 h2 text2 : str)
    (level1 level2 : nat) :
  DocIndex.classify a = DocIndex.AnchorLine name →
  forallb DocIndex.is_other_line mid1 = true →
  DocIndex.classify h1 = DocIndex.HeadingLine text1 level1 →
  forallb (λ l, negb (DocIndex.is_anchor_line l)) mid2 = true →
  DocIndex.classify h2 = DocIndex.HeadingLine text2 level2 →
  DocIndex._collect_headings
    (front ++ pre ++ [a] ++ mid1 ++ [h1] ++ mid2 ++ [h2] ++ post)
    (length front)
  = DocIndex._collect_headings (front ++ pre) (length front)
    ++ [DocIndex.Build_HeadingRecord text1 name (min level1 6)]
    ++ DocIndex._collect_headings mid2 0
    ++ [DocIndex.Build_HeadingRecord text2 (DocIndex._slugify text2)
          (min level2 6)]
    ++ DocIndex._collect_headings post 0
  ∧ Forall (λ h, DocIndex.anchor h = DocIndex._slugify (DocIndex.text h))
      (DocIndex._collect_headings mid2 0).
Proof.
  intros Ha Hmid1 Hh1 Hmid2 Hh2. unfold DocIndex._collect_headings.
  rewrite !drop_app_length, !drop_0.
  split; [|by apply collect_loop_slugs].
  cbn [app]. rewrite (collect_loop_anchor pre a name _ None Ha).
  rewrite (collect_loop_others mid1 _ _ Hmid1).
  rewrite collect_loop_cons, Hh1.
  unfold DocIndex.classify in Ha.
  destruct (DocIndex.anchor_match (strip a)) as [n|] eqn:Hn;
    [|by repeat case_match].
  injection Ha as ->. rewrite (anchor_match_nonempty _ _ Hn).
  cbn [default]. do 2 f_equal.
  rewrite (collect_loop_no_anchor mid2 _ Hmid2). f_equal.
  by rewrite collect_loop_cons, Hh2.
Qed.

Lemma anchor_binds_next_heading_only_witness :
  DocIndex._collect_headings (tables := excerpt)
    ([DASHES; DASHES] ++ [Fixtures.prose] ++ [Fixtures.anchor_line]
     ++ [[]] ++ [Fixtures.heading_one] ++ [Fixtures.heading_two]
     ++ [Fixtures.heading_three] ++ [Fixtures.prose])
    2
  = [DocIndex.Build_HeadingRecord (lit "Fetching Objects") (lit "fetching") 2;
     DocIndex.Build_HeadingRecord (lit "Batch Size") (lit "batchsize") 3;
     DocIndex.Build_HeadingRecord (lit "See Also") (lit "seealso") 2].
Proof.
  refine (proj1 (anchor_binds_next_heading_only (tables := excerpt)
    [DASHES; DASHES] [Fixtures.prose] [[]] [Fixtures.heading_two]
    [Fixtures.prose] Fixtures.anchor_line (lit "fetching")
    Fixtures.heading_one (lit "Fetching Objects")
    Fixtures.heading_three (lit "See Also") 2 2 _ _ _ _ _));
  by vm_compute.
Defined.

(** *** The TOC scanner *)

Section TocScanner.
Import DocMeta.

Lemma toc_loop_unlimited (lines : list str) (scanned scanned' : Z)
    (started : bool) (toc : list str) :
  toc_loop lines 0 scanned started toc = toc_loop lines 0 scanned' started toc.
Proof.
  revert scanned scanned' started toc.
  induction lines as [|raw rest IH]; intros s s' started toc; [done|].
  cbn [toc_loop Z.eqb negb andb].
  repeat case_match; auto.
Qed.

Lemma toc_loop_budget (lines : list str) (max_lines scanned : Z)
    (started : bool) (toc : list str) :
  (0 < max_lines)%Z → (0 <= scanned <= max_lines)%Z →
  let budget := Z.to_nat (max_lines - scanned) in
  toc_loop lines max_lines scanned started toc
  = ((toc_loop (take budget lines) 0 0 started toc).1,
     bool_decide (budget < length lines)
     && runs_through (take budget lines) started).
Proof.
  intros Hmax. revert scanned started toc.
  induction lines as [|raw rest IH]; intros scanned started toc Hs budget.
  - subst budget. rewrite take_nil. cbn. by rewrite andb_false_l.
  - cbn [toc_loop]. destruct (Z.eqb_spec max_lines 0) as [|_]; [lia|].
    cbn [negb andb]. destruct (Z.ltb_spec max_lines (scanned + 1)) as [Hlt|Hle].
    + assert (budget = 0) as -> by (subst budget; lia). cbn.
      rewrite bool_decide_eq_true_2; [done | lia].
    + assert (budget = S (Z.to_nat (max_lines - (scanned + 1)))) as ->
        by (subst budget; lia).
      cbn [take toc_loop runs_through length Z.eqb negb andb].
      unfold is_toc_start, is_toc_end.
      assert (∀ k : nat, bool_decide (S k < S (length rest))
                         = bool_decide (k < length rest)) as Hsucc.
      { intros k. apply bool_decide_ext. lia. }
      rewrite Hsucc. destruct started; cbn [negb].
      * destruct (startswith (strip raw) H2_PREFIX
                  && negb (bool_decide (strip raw = TOC_HEADING))) eqn:Hend.
        { cbn. by rewrite andb_false_r. }
        cbn [negb andb].
        destruct (bool_decide (strip raw = [])).
        -- rewrite (IH (scanned + 1)%Z true toc) by lia.
           f_equal. by rewrite (toc_loop_unlimited _ (0 + 1) 0).
        -- rewrite (IH (scanned + 1)%Z true _) by lia.
           f_equal. by rewrite (toc_loop_unlimited _ (0 + 1) 0).
      * destruct (bool_decide (strip raw = TOC_HEADING)).
        -- rewrite (IH (scanned + 1)%Z true _) by lia.
           f_equal. by rewrite (toc_loop_unlimited _ (0 + 1) 0).
        -- rewrite (IH (scanned + 1)%Z false _) by lia.
           f_equal. by rewrite (toc_loop_unlimited _ (0 + 1) 0).
Qed.

End TocScanner.



(** *** Search *)

Section Search.
Context {tables : Tables}.
Import DocIndex.

Lemma filter_none (P : str → Prop) `{∀ x, Decision (P x)} (l : list str) :
  (∀ x, x ∈ l → ¬ P x) → filter P l = [].
Proof.
  induction l as [|x l IH]; intros Hl; [done|].
  rewrite filter_cons_False; [|apply Hl; left].
  apply IH. intros y Hy. apply Hl. by right.
Qed.

(** In a duplicate-free list that holds both keys, one element is equal to
    one of them if the keys coincide, two otherwise. *)
Lemma count_two_keys (l : list str) (k1 k2 : str) :
  NoDup l → k1 ∈ l → k2 ∈ l →
  length (filter (λ k, k = k1 ∨ k = k2) l)
  = if decide (k1 = k2) then 1 else 2.
Proof.
  intros Hnd H1 H2.
  apply elem_of_Permutation in H1 as [l1 Hl1].
  rewrite Hl1 in Hnd, H2 |- *.
  apply NoDup_cons in Hnd as [Hk1 Hnd].
  rewrite filter_cons_True by (by left). cbn [length].
  destruct (decide (k1 = k2)) as [<-|Hne].
  - rewrite filter_none; [done|]. intros x Hx [->| ->]; done.
  - apply elem_of_cons in H2 as [?|H2]; [done|].
    apply elem_of_Permutation in H2 as [l2 Hl2].
    rewrite Hl2 in Hnd, Hk1 |- *.
    apply NoDup_cons in Hnd as [Hk2 Hnd].
    rewrite filter_cons_True by (by right). cbn [length].
    rewrite filter_none; [done|].
    intros x Hx [->| ->]; [|done]. apply Hk1. by right.
Qed.

Lemma hit_key_inj (path a b : str) : hit_key path a = hit_key path b ↔ a = b.
Proof.
  unfold hit_key. split; [|by intros ->].
  intros Heq. by apply app_inv_head in Heq as [= ->].
Qed.

Lemma hit_line_keyed (title : value) (shown path anchor : str) :
  keyed (hit_line title shown path anchor) (hit_key path anchor).
Proof.
  exists (format_value title ++ TITLE_SEP ++ shown).
  unfold hit_line. by rewrite <- !app_assoc.
Qed.

Lemma record_hit_inv (st : search_state) (key line : str) :
  keyed line key → search_inv st → search_inv (record_hit st key line).
Proof.
  intros Hk [Hnd Hal]. destruct st as [results seen]. unfold record_hit.
  case_bool_decide as Hin; [done|]. split; cbn [fst snd] in *.
  - apply NoDup_app. repeat split; [done| |apply NoDup_singleton].
    intros x Hx ->%list_elem_of_singleton. done.
  - apply Forall2_app; [done|]. by constructor.
Qed.

Lemma record_hit_grows (st : search_state) (key line : str) :
  st.2 ⊆ (record_hit st key line).2.
Proof.
  destruct st as [results seen]. unfold record_hit.
  case_bool_decide; cbn [snd]; [done|]. intros x Hx. apply elem_of_app. by left.
Qed.

Lemma record_hit_seen (st : search_state) (key line : str) :
  key ∈ (record_hit st key line).2.
Proof.
  destruct st as [results seen]. unfold record_hit.
  case_bool_decide; cbn [snd]; [done|]. apply elem_of_app. right. by left.
Qed.

(** A loop whose body records at most one hit for each item it visits. *)
Lemma fold_hits {X} (step : search_state → X → search_state)
    (matches : X → bool) (key : X → str) :
  (∀ st x, search_inv st → search_inv (step st x)) →
  (∀ st x, st.2 ⊆ (step st x).2) →
  (∀ st x, matches x = true → key x ∈ (step st x).2) →
  ∀ l st, search_inv st →
    search_inv (fold_left step l st)
    ∧ st.2 ⊆ (fold_left step l st).2
    ∧ ∀ x, x ∈ l → matches x = true → key x ∈ (fold_left step l st).2.
Proof.
  intros Hinv Hgrow Hkey l. induction l as [|y l IH]; intros st Hst.
  - cbn. split_and!; [done..|]. intros x Hx. by apply elem_of_nil in Hx.
  - cbn [fold_left]. destruct (IH (step st y) (Hinv _ _ Hst)) as (Hi & Hg & Hk).
    split_and!; [done| |].
    + intros x Hx. by apply Hg, Hgrow.
    + intros x [->|Hx]%elem_of_cons Hm; [|by apply Hk].
      by apply Hg, Hkey.
Qed.

Lemma search_headings_spec (term_lower : str) (e : DocEntry)
    (st : search_state) :
  search_inv st →
  let st' := fold_left (search_heading term_lower e) (headings e) st in
  search_inv st' ∧ st.2 ⊆ st'.2
  ∧ ∀ h, h ∈ headings e → str_in term_lower (lower (text h)) = true →
         hit_key (path e) (anchor h) ∈ st'.2.
Proof.
  intros Hst.
  apply (fold_hits (search_heading term_lower e)
           (λ h, str_in term_lower (lower (text h)))
           (λ h, hit_key (path e) (anchor h))); [| | |done].
  - intros s h Hs. unfold search_heading. case_match; [|done].
    by apply record_hit_inv; [apply hit_line_keyed|].
  - intros s h. unfold search_heading. case_match; [|done].
    apply record_hit_grows.
  - intros s h Hm. unfold search_heading. rewrite Hm. apply record_hit_seen.
Qed.

Lemma search_sections_spec (term_lower : str) (e : DocEntry)
    (sections : list str) (st : search_state) :
  search_inv st →
  let st' := fold_left (search_section term_lower e) sections st in
  search_inv st' ∧ st.2 ⊆ st'.2
  ∧ ∀ s, s ∈ sections → str_in term_lower (lower s) = true →
         hit_key (path e) (_slugify s) ∈ st'.2.
Proof.
  intros Hst.
  apply (fold_hits (search_section term_lower e)
           (λ s, str_in term_lower (lower s))
           (λ s, hit_key (path e) (_slugify s))); [| | |done].
  - intros s x Hs. unfold search_section. case_match; [|done].
    by apply record_hit_inv; [apply hit_line_keyed|].
  - intros s x. unfold search_section. case_match; [|done].
    apply record_hit_grows.
  - intros s x Hm. unfold search_section. rewrite Hm. apply record_hit_seen.
Qed.

Lemma search_entry_spec (term_lower : str) (e : DocEntry)
    (sections : list str) (st : search_state) :
  iterate (key_sections e) = inr sections → search_inv st →
  ∃ st', search_entry term_lower st e = inr st'
    ∧ search_inv st' ∧ st.2 ⊆ st'.2
    ∧ (∀ h, h ∈ headings e → str_in term_lower (lower (text h)) = true →
            hit_key (path e) (anchor h) ∈ st'.2)
    ∧ (∀ s, s ∈ sections → str_in term_lower (lower s) = true →
            hit_key (path e) (_slugify s) ∈ st'.2).
Proof.
  intros Hit Hst. unfold search_entry. rewrite Hit.
  destruct (search_headings_spec term_lower e st Hst) as (Hi1 & Hg1 & Hk1).
  destruct (search_sections_spec term_lower e sections _ Hi1)
    as (Hi2 & Hg2 & Hk2).
  eexists. split; [done|]. split_and!; [done| | |done].
  - intros x Hx. by apply Hg2, Hg1.
  - intros h Hh Hm. by apply Hg2, Hk1.
Qed.

Lemma iterable_iterate (v : value) :
  iterable v = true → ∃ sections, iterate v = inr sections.
Proof. destruct v; [eauto|done|eauto]. Qed.

Lemma search_loop_spec (term_lower : str) (es : list DocEntry)
    (st : search_state) :
  forallb (λ e, iterable (key_sections e)) es = true → search_inv st →
  ∃ st', search_loop term_lower es st = inr st'
    ∧ search_inv st' ∧ st.2 ⊆ st'.2
    ∧ ∀ e sections, e ∈ es → iterate (key_sections e) = inr sections →
        (∀ h, h ∈ headings e → str_in term_lower (lower (text h)) = true →
              hit_key (path e) (anchor h) ∈ st'.2)
        ∧ (∀ s, s ∈ sections → str_in term_lower (lower s) = true →
              hit_key (path e) (_slugify s) ∈ st'.2).
Proof.
  revert st. induction es as [|e es IH]; intros st Hes Hst.
  - exists st. split_and!; [done..|].
    intros e secs He. by apply elem_of_nil in He.
  - cbn [forallb] in Hes. apply andb_true_iff in Hes as [He Hes].
    destruct (iterable_iterate _ He) as [secs Hsecs].
    destruct (search_entry_spec term_lower e secs st Hsecs Hst)
      as (st1 & Hrun1 & Hi1 & Hg1 & Hh1 & Hs1).
    destruct (IH st1 Hes Hi1) as (st2 & Hrun2 & Hi2 & Hg2 & Hall).
    exists st2. cbn [search_loop]. rewrite Hrun1.
    split_and!; [done|done| |].
    + intros x Hx. by apply Hg2, Hg1.
    + intros e' secs' [->|He']%elem_of_cons Hsecs'; [|by apply Hall].
      rewrite Hsecs in Hsecs'. injection Hsecs' as <-.
      split; [intros h Hh Hm; by apply Hg2, Hh1
             |intros s Hs Hm; by apply Hg2, Hs1].
Qed.

(** An entry whose key sections are an integer makes the loop raise,
    wherever it stands in the index. *)
Lemma search_loop_raises (term_lower : str) (es : list DocEntry)
    (st : search_state) (bad : DocEntry) (z : Z) :
  bad ∈ es → key_sections bad = VInt z →
  search_loop term_lower es st = inl TypeError.
Proof.
  intros Hbad Hint. revert st.
  induction es as [|e es IH]; intros st; [by apply elem_of_nil in Hbad|].
  cbn [search_loop]. unfold search_entry.
  apply elem_of_cons in Hbad as [<-|Hbad].
  - by rewrite Hint.
  - destruct (key_sections e) as [s|z'|l]; cbn [iterate]; [|done|];
      by apply IH.
Qed.

End Search.

(** On an index whose key sections can all be iterated, the search
    returns; its result lines correspond one to one, in order, to the keys
    [path#anchor] it has seen, each line ending with its key, and no key
    is seen twice.  When the term occurs in the text of a heading and in a
    key section of one entry, both of their keys are among them: that
    makes two result lines when the anchor of the heading differs from the
    slug of the key section and one when they coincide. *)
Theorem search_heading_and_key_section {tables : Tables}
    (index : DocIndex.Index) (term : str) (e : DocIndex.DocEntry)
    (h : DocIndex.HeadingRecord) (sections : list str) (section : str) :
  forallb (λ e, DocIndex.iterable (DocIndex.key_sections e))
    (DocIndex.entries index) = true →
  e ∈ DocIndex.entries index →
  h ∈ DocIndex.headings e →
  DocIndex.iterate (DocIndex.key_sections e) = inr sections →
  section ∈ sections →
  str_in (lower term) (lower (DocIndex.text h)) = true →
  str_in (lower term) (lower section) = true →
  ∃ results seen,
    DocIndex.search_run index term = inr (results, seen)
    ∧ DocIndex.search_entries index term = inr results
    ∧ NoDup seen
    ∧ Forall2 DocIndex.keyed results seen
    ∧ length
        (filter (λ k, k = DocIndex.hit_key (DocIndex.path e) (DocIndex.anchor h)
                      ∨ k = DocIndex.hit_key (DocIndex.path e)
                              (DocIndex._slugify section))
           seen)
      = if decide (DocIndex.anchor h = DocIndex._slugify section)
        then 1 else 2.
Proof.
  intros Hes He Hh Hsecs Hs Hmh Hms.
  destruct (search_loop_spec (lower term) (DocIndex.entries index) ([], []) Hes)
    as ([results seen] & Hrun & [Hnd Hal] & _ & Hall).
  { split; cbn; constructor. }
  destruct (Hall e sections He Hsecs) as [Hkh Hks].
  exists results, seen. unfold DocIndex.search_entries, DocIndex.search_run.
  rewrite Hrun. split_and!; [done..|].
  cbn [snd] in *. rewrite count_two_keys; [|by auto..].
  destruct (decide (DocIndex.anchor h = DocIndex._slugify section)) as [Heq|Hne].
  - rewrite decide_True; [done|]. by apply hit_key_inj.
  - rewrite decide_False; [done|]. by intros ?%hit_key_inj.
Qed.

Lemma search_heading_and_key_section_witness :
  ∃ results seen,
    DocIndex.search_run (tables := excerpt)
      (Fixtures.index_with (lit "fetching")) (lit "FETCH")
    = inr (results, seen)
    ∧ DocIndex.search_entries (tables := excerpt)
        (Fixtures.index_with (lit "fetching")) (lit "FETCH")
      = inr results
    ∧ NoDup seen
    ∧ Forall2 DocIndex.keyed results seen
    ∧ length
        (filter (λ k, k = lit "docs/apple/coredata.md#fetching"
                      ∨ k = lit "docs/apple/coredata.md#fetchingobjects")
           seen)
      = 2.
Proof.
  apply (search_heading_and_key_section (tables := excerpt)
           (Fixtures.index_with (lit "fetching")) (lit "FETCH")
           (Fixtures.entry_with (lit "fetching"))
           (DocIndex.Build_HeadingRecord (lit "Fetching Objects")
              (lit "fetching") 2)
           [lit "Fetching Objects"] (lit "Fetching Objects"));
    first [by vm_compute | by left].
Defined.

(** The two fixtures, evaluated: two lines when the anchor differs from the
    slug of the key section, one line when they are equal. *)
Example search_fixture_two_lines :
  DocIndex.search_entries (tables := excerpt)
    (Fixtures.index_with (lit "fetching")) (lit "FETCH")
  = inr [lit "Core Data: Fetching Objects" ++ DocIndex.LINE_SEP
           ++ lit "docs/apple/coredata.md#fetching";
         lit "Core Data: Fetching Objects" ++ DocIndex.LINE_SEP
           ++ lit "docs/apple/coredata.md#fetchingobjects"].
Proof. by vm_compute. Qed.

Example search_fixture_one_line :
  DocIndex.search_entries (tables := excerpt)
    (Fixtures.index_with (lit "fetchingobjects")) (lit "FETCH")
  = inr [lit "Core Data: Fetching Objects" ++ DocIndex.LINE_SEP
           ++ lit "docs/apple/coredata.md#fetchingobjects"].
Proof. by vm_compute. Qed.

(** C7 (not met by the code).  A search is to give the line of a
    matching heading and the line of a matching key section for every
    index.  When the key sections of some entry of the index are an
    integer, as the index builder stores them for a header line such as
    [key_sections: 3], the loop over them raises [TypeError]: the search
    returns no line at all, although a heading and a key section of
    another entry hold the term. *)
Theorem search_raises_despite_match {tables : Tables}
    (index : DocIndex.Index) (term : str) (e : DocIndex.DocEntry)
    (h : DocIndex.HeadingRecord) (sections : list str) (section : str)
    (bad : DocIndex.DocEntry) (z : Z) :
  e ∈ DocIndex.entries index →
  h ∈ DocIndex.headings e →
  DocIndex.iterate (DocIndex.key_sections e) = inr sections →
  section ∈ sections →
  str_in (lower term) (lower (DocIndex.text h)) = true →
  str_in (lower term) (lower section) = true →
  bad ∈ DocIndex.entries index →
  DocIndex.key_sections bad = DocIndex.VInt z →
  DocIndex.search_run index term = inl TypeError
  ∧ DocIndex.search_entries index term = inl TypeError.
Proof.
  intros _ _ _ _ _ _ Hbad Hint.
  unfold DocIndex.search_entries, DocIndex.search_run.
  by rewrite (search_loop_raises _ _ _ bad z Hbad Hint).
Qed.

(** The failing input: the index of the first fixture with a second
    entry whose header gave [key_sections: 3]. *)
Lemma search_raises_despite_match_witness :
  DocIndex.search_run (tables := excerpt) Fixtures.counted_index
    (lit "FETCH") = inl TypeError
  ∧ DocIndex.search_entries (tables := excerpt) Fixtures.counted_index
      (lit "FETCH") = inl TypeError.
Proof.
  apply (search_raises_despite_match (tables := excerpt)
           Fixtures.counted_index (lit "FETCH")
           (Fixtures.entry_with (lit "fetching"))
           (DocIndex.Build_HeadingRecord (lit "Fetching Objects")
              (lit "fetching") 2)
           [lit "Fetching Objects"] (lit "Fetching Objects")
           Fixtures.counted_entry 3);
    first [by vm_compute | by left | by right; left].
Defined.

(** The second entry of that index is the one the index builder makes of
    the document [Fixtures.counted_doc]. *)
Example counted_entry_built :
  DocIndex.build_entries (tables := excerpt) [Fixtures.counted_doc] []
  = inr [Fixtures.counted_entry].
Proof. vm_compute. reflexivity. Qed.

(** *** The index builder *)

Section BuildIndex.
Context {tables : Tables}.
Import DocIndex.


Lemma build_entries_app (docs1 docs2 : list Doc) (acc : list DocEntry) :
  build_entries (docs1 ++ docs2) acc
  = match build_entries docs1 acc with
    | inl e => inl e
    | inr acc' => build_entries docs2 acc'
    end.
Proof.
  revert acc. induction docs1 as [|d docs1 IH]; intros acc; [done|].
  cbn [app build_entries]. destruct (build_entry d) as [|[entry|]]; auto.
Qed.

Lemma build_entries_skip (docs1 docs2 : list Doc) (d : Doc)
    (acc : list DocEntry) :
  build_entry d = inr None →
  build_entries (docs1 ++ d :: docs2) acc = build_entries (docs1 ++ docs2) acc.
Proof.
  intros Hd. rewrite !build_entries_app. cbn [build_entries]. by rewrite Hd.
Qed.


Lemma build_entry_fields (d : Doc) (entry : DocEntry) :
  build_entry d = inr (Some entry) →
  ∃ fm offset,
    _parse_front_matter (doc_lines d) = inr (Some fm, offset)
    ∧ fm ≠ ∅
    ∧ entry
      = {| path := doc_path d;
           title := default (VStr (doc_stem d)) (fm !! K_TITLE);
           docset_version := default (VStr UNKNOWN) (fm !! K_DOCSET_VERSION);
           exported_at := default (VStr []) (fm !! K_EXPORTED_AT);
           doc_count := default (VInt 0) (fm !! K_DOC_COUNT);
           file_size := default (VInt 0) (fm !! K_FILE_SIZE);
           key_sections := default (VList []) (fm !! K_KEY_SECTIONS);
           headings := _collect_headings (doc_lines d) offset |}.
Proof.
  unfold build_entry.
  destruct (_parse_front_matter (doc_lines d)) as [|[[fm|] offset]];
    [done| |done].
  case_bool_decide as Hempty; [done|]. intros [= <-]. by exists fm, offset.
Qed.

End BuildIndex.



(** *** A front-matter block without keys *)

Section HollowHeader.
Context {tables : Tables}.

Lemma rstrip_nl_strip (line : str) : strip (rstrip_nl line) = strip line.
Proof.
  destruct (rstrip_by_split (N.eqb 10) line) as (b & Hb & Hnl).
  fold rstrip_nl in Hb. rewrite Hb at 2. unfold strip, strip_by.
  rewrite rstrip_by_app; [done|].
  eapply Forall_impl; [exact Hnl|]. by intros c <-%N.eqb_eq.
Qed.

Lemma rstrip_nl_no_colon (line : str) :
  str_in COLON_S line = false → str_in COLON_S (rstrip_nl line) = false.
Proof.
  intros Hline. destruct (rstrip_by_split (N.eqb 10) line) as (b & Hb & _).
  apply (str_in_infix _ [] _ b). cbn [app]. fold rstrip_nl in Hb.
  by rewrite <- Hb.
Qed.

Lemma front_matter_loop_hollow (body : list str) (closer : str)
    (rest : list str) (idx : nat) :
  strip closer = DASHES →
  forallb (λ l, negb (str_in COLON_S l)) body = true →
  ∃ n, DocIndex.front_matter_loop (body ++ closer :: rest) idx ∅ None
       = inr (∅, n).
Proof.
  intros Hclose. revert idx. induction body as [|line body IH]; intros idx Hbody.
  - exists (S idx). cbn [app DocIndex.front_matter_loop].
    by rewrite rstrip_nl_strip, bool_decide_eq_true_2.
  - cbn [forallb] in Hbody.
    apply andb_true_iff in Hbody as [Hline%negb_true_iff Hbody].
    cbn [app DocIndex.front_matter_loop]. case_bool_decide; [by eexists|].
    rewrite andb_false_r, (rstrip_nl_no_colon _ Hline). cbn [negb].
    by apply IH.
Qed.

Lemma stream_loop_hollow (body : list str) (closer : str) (rest raws : list str) :
  strip closer = DASHES →
  forallb (λ l, negb (str_in COLON_S l)) body = true →
  ∃ raws' leftover,
    DocMeta.stream_loop (body ++ closer :: rest)
      (DocMeta.Build_parser ∅ raws None None None)
    = inr (DocMeta.Build_parser ∅ raws' None None None, leftover).
Proof.
  intros Hclose. revert raws.
  induction body as [|line body IH]; intros raws Hbody.
  - exists raws, rest. cbn [app DocMeta.stream_loop].
    by rewrite bool_decide_eq_true_2.
  - cbn [forallb] in Hbody.
    apply andb_true_iff in Hbody as [Hline%negb_true_iff Hbody].
    cbn [app DocMeta.stream_loop]. case_bool_decide; [by eexists _, _|].
    unfold DocMeta.stream_step, DocMeta.top_level.
    cbn [DocMeta.parent_key DocMeta.current_key DocMeta.data
         DocMeta.raw_lines DocMeta.nested_current_key truthy].
    rewrite !andb_false_r, Hline. cbn [negb]. by apply IH.
Qed.

End HollowHeader.

(** C10.  A document whose front-matter block is opened and closed but
    holds no line with a colon parses to the empty mapping in both
    parsers.  The index builder then yields no entry for it, so that the
    index of its directory is the index without it, and the peeker reports
    [has_front_matter] false with an empty [front_matter]. *)
Theorem hollow_header_is_no_header {tables : Tables}
    (opener closer : str) (body rest : list str) :
  strip opener = DASHES →
  strip closer = DASHES →
  forallb (λ l, negb (str_in COLON_S l)) body = true →
  (∃ offset,
     DocIndex._parse_front_matter (opener :: body ++ closer :: rest)
     = inr (Some ∅, offset))
  ∧ (∀ d, DocIndex.doc_lines d = opener :: body ++ closer :: rest →
       DocIndex.build_entry d = inr None
       ∧ ∀ now root docs1 docs2,
           DocIndex.build_index now root (docs1 ++ d :: docs2)
           = DocIndex.build_index now root (docs1 ++ docs2))
  ∧ (∀ include_toc max_lines,
       ∃ result,
         DocMeta.peek_markdown (opener :: body ++ closer :: rest)
           include_toc max_lines
         = inr result
         ∧ DocMeta.has_front_matter result = false
         ∧ DocMeta.front_matter result = ∅).
Proof.
  intros Hopen Hclose Hbody.
  destruct (front_matter_loop_hollow body closer rest 1 Hclose Hbody)
    as [offset Hloop].
  assert (DocIndex._parse_front_matter (opener :: body ++ closer :: rest)
          = inr (Some ∅, offset)) as Hparse.
  { unfold DocIndex._parse_front_matter.
    rewrite (bool_decide_eq_true_2 _ Hopen). cbn [negb]. by rewrite Hloop. }
  split_and!.
  - by exists offset.
  - intros d Hd.
    assert (DocIndex.build_entry d = inr None) as Hentry.
    { unfold DocIndex.build_entry. rewrite Hd, Hparse.
      by rewrite bool_decide_eq_true_2. }
    split; [done|]. intros now root docs1 docs2. unfold DocIndex.build_index.
    by rewrite (build_entries_skip docs1 docs2 d [] Hentry).
  - intros include_toc max_lines.
    destruct (stream_loop_hollow body closer rest [] Hclose Hbody)
      as (raws & leftover & Hstream).
    unfold DocMeta.peek_markdown, DocMeta._parse_front_matter_stream.
    rewrite (bool_decide_eq_true_2 _ Hopen). cbn [negb]. rewrite Hstream.
    cbn [DocMeta.data DocMeta.raw_lines].
    destruct (if include_toc then _ else _) as [toc truncated].
    eexists. split; [done|]. split; [|done].
    cbn [DocMeta.has_front_matter]. by rewrite bool_decide_eq_true_2.
Qed.

Lemma hollow_header_is_no_header_witness :
  DocIndex.build_entry (tables := excerpt) Fixtures.hollow_doc = inr None
  ∧ ∃ result,
      DocMeta.peek_markdown (tables := excerpt) Fixtures.hollow_lines true 800
      = inr result
      ∧ DocMeta.has_front_matter result = false
      ∧ DocMeta.front_matter result = ∅.
Proof.
  destruct (hollow_header_is_no_header (tables := excerpt)
              (lit "---") (lit "---") [lit "  just a note"; []]
              [lit "## Fetching Objects"; lit "title: not a header"])
    as (_ & Hbuild & Hpeek); [by vm_compute..|].
  split.
  - by apply (Hbuild Fixtures.hollow_doc).
  - exact (Hpeek true 800%Z).
Defined.

(** *** The sanitizer: stopwords *)

Section Stopwords.
Context {tables : Tables}.
Import DocsetSanitize.

Lemma clean_step_kept (stopwords : gset str) (cleaned : list str)
    (title : str) :
  Forall (λ t, is_stopword stopwords t = false) cleaned →
  Forall (λ t, is_stopword stopwords t = false)
    (clean_step stopwords cleaned title).
Proof.
  intros Hc. unfold clean_step.
  destruct (is_stopword stopwords title) eqn:Hstop; [done|].
  case_bool_decide; [done|]. apply Forall_app. split; [done|].
  by constructor.
Qed.

Lemma clean_fold_kept (stopwords : gset str) (key_sections acc : list str) :
  Forall (λ t, is_stopword stopwords t = false) acc →
  Forall (λ t, is_stopword stopwords t = false)
    (fold_left (clean_step stopwords) key_sections acc).
Proof.
  revert acc. induction key_sections as [|title ks IH]; intros acc Hacc;
    [done|].
  cbn [fold_left]. by apply IH, clean_step_kept.
Qed.

Lemma derive_loop_kept (stopwords : gset str) (rest derived : list str) :
  Forall (λ t, is_stopword stopwords t = false) derived →
  Forall (λ t, is_stopword stopwords t = false)
    (derive_loop stopwords rest derived).
Proof.
  revert derived. induction rest as [|line rest IH]; intros derived Hd;
    [done|].
  cbn [derive_loop]. destruct (link_match (strip line)) as [title|]; [|auto].
  destruct (is_stopword stopwords title) eqn:Hstop; [auto|].
  case_bool_decide; [auto|].
  assert (Forall (λ t, is_stopword stopwords t = false) (derived ++ [title])).
  { apply Forall_app. split; [done | by constructor]. }
  case_bool_decide; auto.
Qed.

Lemma output_key_sections_kept (stopwords : gset str)
    (meta : gmap str value) (rest : list str) :
  Forall (λ t, is_stopword stopwords t = false)
    (output_key_sections stopwords meta rest).
Proof.
  unfold output_key_sections, clean_sections.
  set (ks := match meta !! K_KEY_SECTIONS with
             | Some (VList l) => l
             | _ => []
             end).
  pose proof (clean_fold_kept stopwords ks [] (Forall_nil_2 _)) as Hclean.
  destruct (fold_left (clean_step stopwords) ks []); [|done].
  by apply derive_loop_kept.
Qed.

Lemma cli_stopwords_default (user : option (list str)) (word : str) :
  word ∈ STOPWORDS_DEFAULT → lower word ∈ cli_stopwords user.
Proof.
  intros Hw. unfold cli_stopwords.
  assert (lower word ∈ (set_map lower STOPWORDS_DEFAULT : gset str)) as Hin.
  { apply elem_of_map. by exists word. }
  destruct user as [[|w ws]|]; [done| |done]. by apply elem_of_union_l.
Qed.

Lemma cli_stopwords_user (words : list str) (word : str) :
  word ∈ words → lower word ∈ cli_stopwords (Some words).
Proof.
  intros Hw. unfold cli_stopwords. destruct words as [|w ws].
  { by apply elem_of_nil in Hw. }
  apply elem_of_union_r, elem_of_list_to_set, list_elem_of_fmap.
  by exists word.
Qed.

End Stopwords.

(** C9.  When the sanitizer writes its output for a stopword set built by
    its command line, the key sections it hands to the header builder
    hold no title whose lower-case form is [overview] or a member of the
    stopword set, whatever the letter case of the title: not among the key
    sections of the input, and not among those derived from link lines.
    The lower-case form of every default stopword and of every word given
    on the command line is a member of that set. *)
Theorem sanitizer_drops_stopwords {tables : Tables} (now : str)
    (text : list str) (toc_depth : Z) (user : option (list str))
    (out : list str) :
  DocsetSanitize.sanitize_file now text toc_depth
    (DocsetSanitize.cli_stopwords user) = inr out →
  ∃ meta rest key_sections,
    DocsetSanitize.parse_front_matter text = inr (meta, rest)
    ∧ out
      = DocsetSanitize.build_front_matter now meta key_sections toc_depth
          (DocsetSanitize.cli_stopwords user)
        ++ DocsetSanitize.trim_toc rest toc_depth
             (DocsetSanitize.cli_stopwords user)
    ∧ (∀ title,
         lower title = DocsetSanitize.OVERVIEW
         ∨ lower title ∈ DocsetSanitize.cli_stopwords user →
         title ∉ key_sections)
    ∧ (∀ word, word ∈ DocsetSanitize.STOPWORDS_DEFAULT
               ∨ (∃ words, user = Some words ∧ word ∈ words) →
         lower word ∈ DocsetSanitize.cli_stopwords user).
Proof.
  intros Hrun. unfold DocsetSanitize.sanitize_file in Hrun.
  destruct (DocsetSanitize.parse_front_matter text) as [|[meta rest]];
    [done|].
  injection Hrun as <-. eexists meta, rest, _. split_and!; [done..| |].
  - intros title Hstop Hin.
    pose proof (output_key_sections_kept (DocsetSanitize.cli_stopwords user)
                  meta
                  (DocsetSanitize.trim_toc rest toc_depth
                     (DocsetSanitize.cli_stopwords user))) as Hkept.
    rewrite Forall_forall in Hkept. specialize (Hkept title Hin).
    unfold DocsetSanitize.is_stopword in Hkept.
    apply orb_false_iff in Hkept as [H1%bool_decide_eq_false H2%bool_decide_eq_false].
    by destruct Hstop.
  - intros word [Hdef|(words & -> & Hw)].
    + by apply cli_stopwords_default.
    + by apply cli_stopwords_user.
Qed.

Lemma sanitizer_drops_stopwords_witness :
  ∃ out,
    DocsetSanitize.sanitize_file (tables := excerpt)
      (lit "2025-11-12T00:00:00+00:00") Fixtures.export_lines 2
      (DocsetSanitize.cli_stopwords (tables := excerpt) None)
    = inr out
    ∧ ∃ meta rest key_sections,
        DocsetSanitize.parse_front_matter Fixtures.export_lines
        = inr (meta, rest)
        ∧ out
          = DocsetSanitize.build_front_matter (tables := excerpt)
              (lit "2025-11-12T00:00:00+00:00") meta key_sections 2
              (DocsetSanitize.cli_stopwords (tables := excerpt) None)
            ++ DocsetSanitize.trim_toc (tables := excerpt) rest 2
                 (DocsetSanitize.cli_stopwords (tables := excerpt) None)
        ∧ (∀ title,
             lower (tables := excerpt) title = DocsetSanitize.OVERVIEW
             ∨ lower (tables := excerpt) title
               ∈ DocsetSanitize.cli_stopwords (tables := excerpt) None →
             title ∉ key_sections)
        ∧ (∀ word, word ∈ DocsetSanitize.STOPWORDS_DEFAULT
                   ∨ (∃ words : list str, None = Some words ∧ word ∈ words) →
             lower (tables := excerpt) word
             ∈ DocsetSanitize.cli_stopwords (tables := excerpt) None).
Proof.
  destruct (DocsetSanitize.sanitize_file (tables := excerpt)
              (lit "2025-11-12T00:00:00+00:00") Fixtures.export_lines 2
              (DocsetSanitize.cli_stopwords (tables := excerpt) None))
    as [e|out] eqn:Hrun; [by vm_compute in Hrun|].
  exists out. split; [done|].
  exact (sanitizer_drops_stopwords (tables := excerpt) _ _ _ _ out Hrun).
Defined.

(** On the fixture only [Fetching Objects] stays. *)
Example sanitizer_fixture_sections :
  DocsetSanitize.output_key_sections (tables := excerpt)
    (DocsetSanitize.cli_stopwords (tables := excerpt) None)
    (<[DocsetSanitize.K_KEY_SECTIONS :=
         DocsetSanitize.VList
           [lit "Overview"; lit "SEE ALSO"; lit "Fetching Objects";
            lit "Discussion"; lit "OVERVIEW"]]> ∅)
    []
  = [lit "Fetching Objects"].
Proof. by vm_compute. Qed.

(** *** The sanitizer: parsing and re-serialising the key sections *)

Section RoundTrip.
Context {tables : Tables}.
Import DocsetSanitize.




Lemma header_loop_field (line : str) (more : list str)
    (data : gmap str value) (key : option str) :
  is_field line = true →
  header_loop (line :: more) data key
  = header_loop more
      (<[field_key line :=
           match strip (split_once COLON line).2 with
           | [] => VList []
           | v => VStr v
           end]> data)
      (Some (field_key line)).
Proof.
  unfold is_field, field_key.
  intros [[[H2%negb_true_iff H4%negb_true_iff]%andb_true_iff Hc]%andb_true_iff
            _]%andb_true_iff.
  cbn [header_loop]. rewrite H2, H4, Hc. cbn [orb andb].
  destruct (split_once COLON line) as [key_part v]. cbn [fst snd].
  by destruct (strip v).
Qed.

Lemma header_loop_fields (fields : list str) (data : gmap str value)
    (key : option str) :
  forallb is_field fields = true →
  ∃ data' key',
    (∀ more, header_loop (fields ++ more) data key
             = header_loop more data' key')
    ∧ (forallb (λ l, negb (bool_decide (field_key l = K_KEY_SECTIONS)))
         fields = true →
       data' !! K_KEY_SECTIONS = data !! K_KEY_SECTIONS).
Proof.
  revert data key. induction fields as [|l fields IH]; intros data key Hf.
  - by exists data, key.
  - cbn [forallb] in Hf. apply andb_true_iff in Hf as [Hl Hf].
    destruct (IH (<[field_key l :=
                      match strip (split_once COLON l).2 with
                      | [] => VList []
                      | v => VStr v
                      end]> data) (Some (field_key l)) Hf)
      as (data' & key' & Hrun & Hkeep).
    exists data', key'. split.
    + intros more. cbn [app]. by rewrite header_loop_field.
    + cbn [forallb].
      intros [Hk%negb_true_iff%bool_decide_eq_false Hrest]%andb_true_iff.
      rewrite (Hkeep Hrest). by apply lookup_insert_ne.
Qed.



Lemma is_field_open (line : str) : is_field line = true → strip line ≠ DASHES.
Proof.
  unfold is_field. by intros [_ Hopen%negb_true_iff%bool_decide_eq_false]
    %andb_true_iff.
Qed.





End RoundTrip.




(** The current key does receive items when its value was read as a list:
    an empty value, or one of the two literals the simple parser reads as
    an empty list. *)
Example item_after_list_literal {tables : Tables} :
  DocIndex._parse_front_matter
    [lit "---"; lit "key_sections: []"; lit "  - Overview";
     lit "related: null"; lit "  - Core Data"; lit "---"]
  = inr (Some (<[lit "related" := DocIndex.VList [lit "Core Data"]]>
                 (<[lit "key_sections" := DocIndex.VList [lit "Overview"]]>
                    ∅)),
         6).
Proof. by vm_compute. Qed.

(** *** The unit tests of the repository, run on the embedding *)

Example unit_test_front_matter :
  ∃ front_matter,
    DocIndex._parse_front_matter (tables := excerpt) Fixtures.unit_test_lines
    = inr (Some front_matter, 10)
    ∧ front_matter !! lit "title" = Some (DocIndex.VStr (lit "Demo"))
    ∧ front_matter !! lit "doc_count" = Some (DocIndex.VInt 3)
    ∧ front_matter !! lit "key_sections"
      = Some (DocIndex.VList [lit "Overview"; lit "Details"]).
Proof. eexists. split; [by vm_compute|]. by vm_compute. Qed.

Example unit_test_headings :
  DocIndex._collect_headings (tables := excerpt) Fixtures.unit_test_lines 10
  = [DocIndex.Build_HeadingRecord (lit "Table of Contents")
       (lit "tableofcontents") 2;
     DocIndex.Build_HeadingRecord (lit "Overview") (lit "overview") 2;
     DocIndex.Build_HeadingRecord (lit "Details") (lit "details") 3].
Proof. by vm_compute. Qed.

Example unit_test_build_index_and_search :
  ∃ index entry,
    DocIndex.build_index (tables := excerpt) (lit "2025-11-12T00:00:00Z")
      (lit "docs/apple") [Fixtures.unit_test_doc]
    = inr index
    ∧ DocIndex.entries index = [entry]
    ∧ DocIndex.title entry = DocIndex.VStr (lit "Demo")
    ∧ DocIndex.doc_count entry = DocIndex.VInt 1
    ∧ DocIndex.headings entry
      = [DocIndex.Build_HeadingRecord (lit "Table of Contents")
           (lit "tableofcontents") 2;
         DocIndex.Build_HeadingRecord (lit "Demo Section")
           (lit "demo-section") 2]
    ∧ DocIndex.search_entries (tables := excerpt) index (lit "demo")
      = inr [lit "Demo: Demo Section" ++ DocIndex.LINE_SEP
               ++ lit "docs/apple/demo.md#demo-section";
             lit "Demo: Demo Section" ++ DocIndex.LINE_SEP
               ++ lit "docs/apple/demo.md#demosection"].
Proof. eexists _, _. split; [by vm_compute|]. by vm_compute. Qed.

(** The budget is not a truncation when the stream ends with it: the
    first five lines of the long TOC alone are scanned in full. *)
Example toc_scan_exact_budget :
  DocMeta._read_toc_block (take 5 Fixtures.long_toc) [] 5
  = ([lit "## Table of Contents"; lit "- [Fetching](#fetching)"], false).
Proof. by vm_compute. Qed.

(** ** Part III: further properties of the three tools *)

(** *** The shape of a slug *)

Section SlugShape.
Context {tables : Tables}.
Import DocIndex.

Lemma drop_while_fixed_head (p : N → bool) (s : str) c :
  drop_while p s = s → head s = Some c → p c = false.
Proof.
  destruct s as [|x t]; [done|]. intros Hs [= ->].
  by apply (drop_while_head p (c :: t) c t).
Qed.

Lemma rstrip_by_fixed_last (p : N → bool) (s : str) c :
  rstrip_by p s = s → last s = Some c → p c = false.
Proof.
  destruct s as [|x t _] using rev_ind; [done|].
  rewrite last_snoc. intros Hs [= ->].
  by apply (rstrip_by_last p (t ++ [c]) t c).
Qed.

Lemma slug_body_shape (keep : str) :
  str_in DOUBLE_DASH (strip_dash (collapse_dashes keep)) = false
  ∧ (∀ c, head (strip_dash (collapse_dashes keep)) = Some c → c ≠ DASH)
  ∧ (∀ c, last (strip_dash (collapse_dashes keep)) = Some c → c ≠ DASH).
Proof.
  destruct (strip_by_infix (N.eqb 45) (collapse_dashes keep))
    as (a & b & Hab & _).
  destruct (strip_by_ends (N.eqb 45) (collapse_dashes keep)) as [Hl Hr].
  fold strip_dash in Hab, Hl, Hr. split_and!.
  - apply (str_in_infix _ a _ b). rewrite <- Hab. apply collapse_dashes_done.
  - intros c Hc ->. by pose proof (drop_while_fixed_head _ _ _ Hl Hc).
  - intros c Hc ->. by pose proof (rstrip_by_fixed_last _ _ _ Hr Hc).
Qed.

Lemma slugify_nonempty (text : str) : _slugify text ≠ [].
Proof. unfold _slugify. by destruct (strip_dash _). Qed.

Ltac cmp_cases :=
  repeat (match goal with
          | H : context [(?a <=? ?b)%N] |- _ => destruct (N.leb_spec a b)
          | |- context [(?a <=? ?b)%N] => destruct (N.leb_spec a b)
          | H : context [(?a <? ?b)%N] |- _ => destruct (N.ltb_spec a b)
          | |- context [(?a <? ?b)%N] => destruct (N.ltb_spec a b)
          | H : context [(?a =? ?b)%N] |- _ => destruct (N.eqb_spec a b)
          | |- context [(?a =? ?b)%N] => destruct (N.eqb_spec a b)
          end; simpl in *; try lia; try done).

Lemma ascii_lower_slug_char (c : N) :
  is_ascii c = true → ascii_isalnum c = true →
  is_slug_char (ascii_lower c) = true.
Proof.
  unfold is_ascii, ascii_isalnum, ascii_lower, is_slug_char, DASH.
  intros Hc Hal. cmp_cases.
Qed.

Lemma slug_char_ascii (c : N) :
  is_ascii c = true → forallb is_slug_char (slug_char c) = true.
Proof.
  intros Hc. unfold slug_char, isalnum, lower. cbn [forallb map].
  rewrite Hc. cbn [andb].
  destruct (ascii_isalnum c) eqn:Hal.
  - cbn [forallb]. by rewrite (ascii_lower_slug_char c Hc Hal).
  - by destruct (str_in [c] SLUG_SEPARATORS).
Qed.

Lemma slug_keep_ascii (text : str) :
  forallb is_ascii text = true →
  Forall (λ c, is_slug_char c = true) (flat_map slug_char text).
Proof.
  induction text as [|c text IH]; [done|]. cbn [forallb flat_map].
  intros [Hc Htext]%andb_true_iff. apply Forall_app. split; [|by apply IH].
  apply Forall_forall. intros d Hd.
  pose proof (slug_char_ascii c Hc) as Hall. rewrite forallb_forall in Hall.
  by apply Hall, list_elem_of_In.
Qed.

End SlugShape.

(** X1.  A slug is never empty, holds no doubled dash, and neither starts
    nor ends with a dash, whatever the text. *)
Theorem slugify_shape {tables : Tables} (text : str) :
  DocIndex._slugify text ≠ []
  ∧ str_in DocIndex.DOUBLE_DASH (DocIndex._slugify text) = false
  ∧ head (DocIndex._slugify text) ≠ Some DASH
  ∧ last (DocIndex._slugify text) ≠ Some DASH.
Proof.
  split; [apply slugify_nonempty|]. unfold DocIndex._slugify.
  destruct (slug_body_shape (flat_map DocIndex.slug_char text))
    as (Hdd & Hhead & Hlast).
  destruct (strip_dash _) as [|c u] eqn:Hslug; [by vm_compute|].
  split_and!; [done| |].
  - intros Hc. by apply (Hhead DASH).
  - intros Hc. by apply (Hlast DASH).
Qed.

(** X2.  The slug of an ASCII text consists of digits, lower-case ASCII
    letters and dashes only. *)
Theorem slugify_ascii_alphabet {tables : Tables} (text : str) :
  forallb is_ascii text = true →
  forallb DocIndex.is_slug_char (DocIndex._slugify text) = true.
Proof.
  intros Htext. unfold DocIndex._slugify.
  pose proof (slug_keep_ascii text Htext) as Hkeep.
  assert (Forall (λ c, DocIndex.is_slug_char c = true)
            (strip_dash (DocIndex.collapse_dashes
                           (flat_map DocIndex.slug_char text)))) as Hslug.
  { apply strip_by_Forall. by apply collapse_loop_Forall. }
  destruct (strip_dash _) as [|c u]; [by vm_compute|].
  apply forallb_forall. intros d Hd. rewrite Forall_forall in Hslug.
  by apply Hslug, list_elem_of_In.
Qed.

Lemma slugify_ascii_alphabet_witness :
  forallb DocIndex.is_slug_char
    (DocIndex._slugify (tables := excerpt) Fixtures.heading_text)
  = true.
Proof.
  by apply (slugify_ascii_alphabet (tables := excerpt) Fixtures.heading_text).
Defined.

(** *** Heading records *)

Section HeadingRecords.
Context {tables : Tables}.
Import DocIndex.

Lemma drop_while_length {A} (p : A → bool) (s : list A) :
  length (drop_while p s) ≤ length s.
Proof.
  induction s as [|c s IH]; [done|]. cbn. destruct (p c); cbn; lia.
Qed.

Lemma classify_heading (raw t : str) (k : nat) :
  classify raw = HeadingLine t k → 1 ≤ k ∧ t ≠ [] ∧ strip t = t.
Proof.
  unfold classify. destruct (anchor_match (strip raw)); [done|].
  destruct (startswith (lstrip raw) HASH_S) eqn:Hhash; [|done].
  cbn [negb]. apply startswith_spec in Hhash as [rest Hrest].
  destruct (strip (drop _ (lstrip raw))) as [|c u] eqn:Ht; [done|].
  intros [= <- <-]. split_and!; [|done|].
  - rewrite Hrest. unfold lstrip_hash, lstrip_by. cbn.
    pose proof (drop_while_length (N.eqb 35) rest). lia.
  - rewrite <- Ht. apply strip_by_fixed.
Qed.

Lemma collect_loop_well_formed (lines : list str) (p : option str) :
  Forall (λ h, 1 ≤ level h ≤ 6 ∧ text h ≠ [] ∧ strip (text h) = text h
               ∧ anchor h ≠ [])
    (collect_loop lines p).
Proof.
  revert p. induction lines as [|raw lines IH]; intros p; [constructor|].
  rewrite collect_loop_cons. destruct (classify raw) as [name|t k|] eqn:Hraw;
    [apply IH| |apply IH].
  constructor; [|apply IH]. cbn [level text anchor].
  destruct (classify_heading raw t k Hraw) as (Hk & Ht & Hs).
  split_and!; [lia|lia|done|done|].
  destruct p as [[|c u]|]; cbn; [apply slugify_nonempty|done
                                 |apply slugify_nonempty].
Qed.

End HeadingRecords.

(** X3.  Every record the heading extractor returns has a level between 1
    and 6, a text that is trimmed and not empty, and an anchor that is not
    empty, whatever the lines and the start index. *)
Theorem collected_headings_well_formed {tables : Tables}
    (lines : list str) (start_index : nat) :
  Forall (λ h, 1 ≤ DocIndex.level h ≤ 6
               ∧ DocIndex.text h ≠ []
               ∧ strip (DocIndex.text h) = DocIndex.text h
               ∧ DocIndex.anchor h ≠ [])
    (DocIndex._collect_headings lines start_index).
Proof. apply collect_loop_well_formed. Qed.

(** *** The offset and the mapping of the simple parser *)

Section SimpleParser.
Context {tables : Tables}.
Import DocIndex.

Lemma front_matter_loop_offset (rest : list str) (idx : nat)
    (data : gmap str value) (key : option str) d n :
  front_matter_loop rest idx data key = inr (d, n) →
  ∃ body,
    forallb (λ l, negb (is_closing l)) body = true
    ∧ ((∃ closer after, rest = body ++ closer :: after
                        ∧ is_closing closer = true
                        ∧ n = idx + length body + 1)
       ∨ (rest = body ∧ n = idx + length rest)).
Proof.
  revert idx data key. induction rest as [|line rest IH]; intros idx data key.
  { intros [= <- <-]. exists []. split; [done|]. right. cbn. split; [done|lia]. }
  cbn [front_matter_loop]. rewrite rstrip_nl_strip.
  case_bool_decide as Hclose.
  { intros [= <- <-]. exists []. split; [done|]. left. exists line, rest.
    unfold is_closing. rewrite bool_decide_eq_true_2 by done.
    split_and!; [done..|cbn; lia]. }
  assert (∀ data' key',
            front_matter_loop rest (S idx) data' key' = inr (d, n) →
            ∃ body,
              forallb (λ l, negb (is_closing l)) body = true
              ∧ ((∃ closer after, line :: rest = body ++ closer :: after
                                  ∧ is_closing closer = true
                                  ∧ n = idx + length body + 1)
                 ∨ (line :: rest = body ∧ n = idx + length (line :: rest))))
    as Hstep.
  { intros data' key' Hrun.
    destruct (IH _ _ _ Hrun) as (body & Hbody & Hcases).
    exists (line :: body). split.
    - cbn [forallb]. unfold is_closing at 1.
      by rewrite (bool_decide_eq_false_2 _ Hclose), Hbody.
    - destruct Hcases as [(closer & after & -> & Hc & ->)|[-> ->]].
      + left. exists closer, after. split_and!; [done..|cbn; lia].
      + right. split; [done|cbn; lia]. }
  destruct (startswith (rstrip_nl line) ITEM4 && truthy key).
  - destruct (setdefault_append _ _ _); [done|]. apply Hstep.
  - destruct (negb (str_in COLON_S (rstrip_nl line))); [apply Hstep|].
    destruct (split_once COLON (rstrip_nl line)). apply Hstep.
Qed.

Lemma parse_front_matter_layout (lines : list str) data idx :
  _parse_front_matter lines = inr (Some data, idx) →
  ∃ first body,
    strip first = DASHES
    ∧ forallb (λ l, negb (is_closing l)) body = true
    ∧ ((∃ closer after, lines = first :: body ++ closer :: after
                        ∧ is_closing closer = true
                        ∧ idx = length body + 2
                        ∧ drop idx lines = after)
       ∨ (lines = first :: body ∧ idx = length lines
          ∧ drop idx lines = [])).
Proof.
  destruct lines as [|first rest]; [done|]. cbn [_parse_front_matter].
  case_bool_decide as Hopen; [|done]. cbn [negb].
  destruct (front_matter_loop rest 1 ∅ None) as [|[d n]] eqn:Hloop; [done|].
  intros [= <- <-].
  destruct (front_matter_loop_offset _ _ _ _ _ _ Hloop)
    as (body & Hbody & Hcases).
  exists first, body. split_and!; [done..|].
  destruct Hcases as [(closer & after & -> & Hc & ->)|[-> ->]].
  - left. exists closer, after. split_and!; [done..|lia|].
    replace (1 + length body + 1) with (S (length body + 1)) by lia.
    cbn [drop]. rewrite (cons_middle closer body after), app_assoc.
    apply drop_app_length'. rewrite length_app. cbn. lia.
  - right. split_and!; [done|cbn; lia|]. apply drop_ge. cbn. lia.
Qed.

Lemma split_once_fst_clean (sep : N) (s : str) :
  str_in [sep] (split_once sep s).1 = false.
Proof.
  induction s as [|c s IH]; [done|]. cbn [split_once].
  destruct (N.eqb_spec c sep) as [->|Hne]; [done|].
  destruct (split_once sep s) as [a b]. cbn [fst] in *.
  cbn [str_in startswith]. rewrite IH, andb_true_r.
  destruct (N.eqb_spec sep c); [by subst|done].
Qed.

Lemma strip_no_colon (s : str) :
  str_in COLON_S s = false → str_in COLON_S (strip s) = false.
Proof.
  intros Hs. destruct (strip_by_infix isspace s) as (a & b & Hab & _).
  apply (str_in_infix _ a _ b). fold strip in Hab. by rewrite <- Hab.
Qed.

Lemma clean_key_split (raw : str) :
  clean_key (strip (split_once COLON raw).1) = true.
Proof.
  unfold clean_key. apply andb_true_iff. split.
  - apply bool_decide_eq_true. apply strip_by_fixed.
  - apply negb_true_iff, strip_no_colon, split_once_fst_clean.
Qed.

Lemma clean_value_stored (v : str) :
  clean_value (if bool_decide (strip v = []) then VList []
               else convert (strip v)) = true.
Proof.
  case_bool_decide as Hv; [done|]. unfold convert.
  destruct (_ || _); [done|]. destruct (int_of_str _); [done|].
  cbn. rewrite (bool_decide_eq_false_2 _ Hv). cbn.
  apply bool_decide_eq_true, strip_by_fixed.
Qed.

Lemma front_matter_loop_clean (rest : list str) (idx : nat)
    (data : gmap str value) (key : option str) d n :
  map_Forall (λ k v, clean_key k = true ∧ clean_value v = true) data →
  (∀ k, key = Some k → clean_key k = true) →
  front_matter_loop rest idx data key = inr (d, n) →
  map_Forall (λ k v, clean_key k = true ∧ clean_value v = true) d.
Proof.
  revert idx data key. induction rest as [|line rest IH];
    intros idx data key Hdata Hkey; [by intros [= <- <-]|].
  cbn [front_matter_loop]. case_bool_decide; [by intros [= <- <-]|].
  destruct (startswith (rstrip_nl line) ITEM4 && truthy key) eqn:Hitem.
  - apply andb_true_iff in Hitem as [_ Htruthy].
    destruct key as [[|c k]|]; [done| |done]. cbn [default from_option id].
    specialize (Hkey (c :: k) eq_refl).
    assert (strip (strip (drop 4 (rstrip_nl line)))
            = strip (drop 4 (rstrip_nl line))) as Hs by apply strip_by_fixed.
    unfold setdefault_append.
    destruct (data !! (c :: k)) as [[?|?|l]|] eqn:Hl; [done|done| |].
    + apply IH; [|by intros ? [= <-]].
      apply map_Forall_insert_2; [|done]. split; [done|].
      cbn [clean_value]. rewrite forallb_app. cbn [forallb].
      rewrite (bool_decide_eq_true_2 _ Hs).
      destruct (Hdata _ _ Hl) as [_ Hlist]. cbn [clean_value] in Hlist.
      by rewrite Hlist.
    + apply IH; [|by intros ? [= <-]].
      apply map_Forall_insert_2; [|done]. split; [done|].
      cbn [clean_value forallb]. by rewrite (bool_decide_eq_true_2 _ Hs).
  - destruct (negb (str_in COLON_S (rstrip_nl line))); [by apply IH|].
    pose proof (clean_key_split (rstrip_nl line)) as Hk.
    pose proof (clean_value_stored (split_once COLON (rstrip_nl line)).2)
      as Hv.
    destruct (split_once COLON (rstrip_nl line)) as [k v]. cbn [fst snd] in *.
    apply IH; [|by intros ? [= <-]].
    by apply map_Forall_insert_2.
Qed.

End SimpleParser.

(** X4.  When the simple parser returns a mapping, its offset is the
    number of lines of the header block: the opening line, the lines up to
    the first closing line, and that closing line, so that the lines from
    the offset on are the body after the header.  When no line closes the
    header the offset is the number of lines of the document, and nothing
    is left after it. *)
Theorem parse_front_matter_offset {tables : Tables} (lines : list str)
    (data : gmap str DocIndex.value) (idx : nat) :
  DocIndex._parse_front_matter lines = inr (Some data, idx) →
  ∃ first body,
    strip first = DASHES
    ∧ forallb (λ l, negb (DocIndex.is_closing l)) body = true
    ∧ ((∃ closer after, lines = first :: body ++ closer :: after
                        ∧ DocIndex.is_closing closer = true
                        ∧ idx = length body + 2
                        ∧ drop idx lines = after)
       ∨ (lines = first :: body ∧ idx = length lines
          ∧ drop idx lines = [])).
Proof. apply parse_front_matter_layout. Qed.

Lemma parse_front_matter_offset_witness :
  ∃ first body,
    strip first = DASHES
    ∧ forallb (λ l, negb (DocIndex.is_closing l)) body = true
    ∧ ((∃ closer after,
          Fixtures.unit_test_lines = first :: body ++ closer :: after
          ∧ DocIndex.is_closing closer = true
          ∧ 10 = length body + 2
          ∧ drop 10 Fixtures.unit_test_lines = after)
       ∨ (Fixtures.unit_test_lines = first :: body
          ∧ 10 = length Fixtures.unit_test_lines
          ∧ drop 10 Fixtures.unit_test_lines = [])).
Proof.
  assert (match DocIndex._parse_front_matter (tables := excerpt)
                 Fixtures.unit_test_lines with
          | inr (Some _, idx) => idx = 10
          | _ => False
          end) as Hrun by (vm_compute; reflexivity).
  destruct (DocIndex._parse_front_matter (tables := excerpt)
              Fixtures.unit_test_lines) as [e|[[data|] idx]] eqn:Hparse;
    [destruct Hrun| |destruct Hrun].
  subst idx.
  exact (parse_front_matter_offset (tables := excerpt) _ data 10 Hparse).
Defined.

(** X5.  In a mapping the simple parser returns, every key is trimmed and
    holds no colon, every string value is trimmed and not empty, and every
    item of a list value is trimmed. *)
Theorem parse_front_matter_clean {tables : Tables} (lines : list str)
    (data : gmap str DocIndex.value) (idx : nat) :
  DocIndex._parse_front_matter lines = inr (Some data, idx) →
  map_Forall (λ k v, DocIndex.clean_key k = true
                     ∧ DocIndex.clean_value v = true) data.
Proof.
  destruct lines as [|first rest]; [done|]. cbn [DocIndex._parse_front_matter].
  destruct (negb _); [done|].
  destruct (DocIndex.front_matter_loop rest 1 ∅ None) as [|[d n]] eqn:Hloop;
    [done|].
  intros [= <- <-].
  by apply (front_matter_loop_clean rest 1 ∅ None d n).
Qed.

Lemma parse_front_matter_clean_witness :
  ∃ data,
    DocIndex._parse_front_matter (tables := excerpt) Fixtures.unit_test_lines
    = inr (Some data, 10)
    ∧ map_Forall (λ k v, DocIndex.clean_key k = true
                         ∧ DocIndex.clean_value v = true) data.
Proof.
  assert (match DocIndex._parse_front_matter (tables := excerpt)
                 Fixtures.unit_test_lines with
          | inr (Some _, idx) => idx = 10
          | _ => False
          end) as Hrun by (vm_compute; reflexivity).
  destruct (DocIndex._parse_front_matter (tables := excerpt)
              Fixtures.unit_test_lines) as [e|[[data|] idx]] eqn:Hparse;
    [destruct Hrun| |destruct Hrun].
  subst idx. exists data. split; [reflexivity|].
  exact (parse_front_matter_clean (tables := excerpt) _ data 10 Hparse).
Defined.

(** *** The entries of a built index *)

Section IndexEntries.
Context {tables : Tables}.
Import DocIndex.

Lemma indexed_build_entry (d : Doc) :
  if indexed d then ∃ entry, build_entry d = inr (Some entry)
  else build_entry d = inr None
       ∨ ∃ e, build_entry d = inl e
              ∧ _parse_front_matter (doc_lines d) = inl e.
Proof.
  unfold indexed, build_entry.
  destruct (_parse_front_matter (doc_lines d)) as [e|[[fm|] offset]];
    [right; by exists e| |by left].
  destruct (bool_decide (fm = ∅)); cbn [negb]; [by left | by eexists].
Qed.

Lemma build_entries_listing (docs : list Doc) (acc entries : list DocEntry) :
  build_entries docs acc = inr entries →
  ∃ new, entries = acc ++ new
         ∧ Forall2 (λ entry d, build_entry d = inr (Some entry)) new
             (List.filter indexed docs).
Proof.
  revert acc. induction docs as [|d docs IH]; intros acc.
  - intros [= <-]. exists []. by rewrite app_nil_r.
  - cbn [build_entries List.filter]. pose proof (indexed_build_entry d) as Hd.
    destruct (indexed d).
    + destruct Hd as [entry Hentry]. rewrite Hentry. intros Hrun.
      destruct (IH _ Hrun) as (new & -> & Hnew). exists (entry :: new).
      split; [by rewrite <- app_assoc | by constructor].
    + destruct Hd as [Hnone|(e & He & _)]; [|by rewrite He].
      rewrite Hnone. apply IH.
Qed.

Lemma build_entries_returns (docs : list Doc) (acc : list DocEntry) :
  (∃ entries, build_entries docs acc = inr entries)
  ↔ Forall (λ d, ∃ r, _parse_front_matter (doc_lines d) = inr r) docs.
Proof.
  revert acc. induction docs as [|d docs IH]; intros acc.
  - split; [constructor | by eexists].
  - cbn [build_entries]. rewrite Forall_cons, <- (IH acc).
    unfold build_entry.
    destruct (_parse_front_matter (doc_lines d)) as [e|[[fm|] offset]].
    + split; [by intros [? ?] | by intros [[? ?] _]].
    + destruct (bool_decide (fm = ∅)).
      * split; [intros Hrun; split; [by eexists | done] | by intros [_ ?]].
      * rewrite (IH (acc ++ _)), <- (IH acc).
        split; [intros Hrun; split; [by eexists | done] | by intros [_ ?]].
    + split; [intros Hrun; split; [by eexists | done] | by intros [_ ?]].
Qed.

Lemma entry_headings_layout (d : Doc) (entry : DocEntry) :
  build_entry d = inr (Some entry) →
  ∃ first body,
    strip first = DASHES
    ∧ forallb (λ l, negb (is_closing l)) body = true
    ∧ ((∃ closer after, doc_lines d = first :: body ++ closer :: after
                        ∧ is_closing closer = true
                        ∧ headings entry = _collect_headings after 0)
       ∨ (doc_lines d = first :: body ∧ headings entry = [])).
Proof.
  intros Hentry.
  destruct (build_entry_fields d entry Hentry) as (fm & offset & Hp & _ & ->).
  destruct (parse_front_matter_layout _ _ _ Hp)
    as (first & body & Hopen & Hbody & Hcases).
  exists first, body. split_and!; [done..|]. cbn [headings].
  unfold _collect_headings.
  destruct Hcases as [(closer & after & Hl & Hc & _ & Hdrop)|(Hl & _ & Hdrop)].
  - left. exists closer, after. by rewrite Hdrop.
  - right. by rewrite Hdrop.
Qed.

End IndexEntries.

(** X6.  The headings of an index entry are those of the lines after the
    closing line of the header, so that no line of the header block is
    taken for a heading; an entry whose header is never closed has no
    headings. *)
Theorem entry_headings_from_body {tables : Tables} (d : DocIndex.Doc)
    (entry : DocIndex.DocEntry) :
  DocIndex.build_entry d = inr (Some entry) →
  ∃ first body,
    strip first = DASHES
    ∧ forallb (λ l, negb (DocIndex.is_closing l)) body = true
    ∧ ((∃ closer after,
          DocIndex.doc_lines d = first :: body ++ closer :: after
          ∧ DocIndex.is_closing closer = true
          ∧ DocIndex.headings entry = DocIndex._collect_headings after 0)
       ∨ (DocIndex.doc_lines d = first :: body
          ∧ DocIndex.headings entry = [])).
Proof. apply entry_headings_layout. Qed.

Lemma entry_headings_from_body_witness :
  ∃ entry first body,
    DocIndex.build_entry (tables := excerpt) Fixtures.unit_test_doc
    = inr (Some entry)
    ∧ strip first = DASHES
    ∧ forallb (λ l, negb (DocIndex.is_closing l)) body = true
    ∧ ((∃ closer after,
          DocIndex.doc_lines Fixtures.unit_test_doc
          = first :: body ++ closer :: after
          ∧ DocIndex.is_closing closer = true
          ∧ DocIndex.headings entry
            = DocIndex._collect_headings (tables := excerpt) after 0)
       ∨ (DocIndex.doc_lines Fixtures.unit_test_doc = first :: body
          ∧ DocIndex.headings entry = [])).
Proof.
  assert (match DocIndex.build_entry (tables := excerpt)
                 Fixtures.unit_test_doc with
          | inr (Some _) => True
          | _ => False
          end) as Hrun by (vm_compute; exact I).
  destruct (DocIndex.build_entry (tables := excerpt) Fixtures.unit_test_doc)
    as [e|[entry|]] eqn:Hentry; [destruct Hrun| |destruct Hrun].
  destruct (entry_headings_from_body (tables := excerpt) _ entry Hentry)
    as (first & body & Hrest).
  exists entry, first, body. split; [reflexivity | exact Hrest].
Defined.

(** X7.  A built index carries the time stamp and the root it was given,
    and its entries are those of the documents whose front matter parses
    to a mapping that is not empty, one entry for each, in the order the
    documents were enumerated. *)
Theorem build_index_entries {tables : Tables} (now root : str)
    (docs : list DocIndex.Doc) (index : DocIndex.Index) :
  DocIndex.build_index now root docs = inr index →
  DocIndex.generated_at index = now
  ∧ DocIndex.docs_root index = root
  ∧ Forall2 (λ entry d, DocIndex.build_entry d = inr (Some entry))
      (DocIndex.entries index) (List.filter DocIndex.indexed docs)
  ∧ map DocIndex.path (DocIndex.entries index)
    = map DocIndex.doc_path (List.filter DocIndex.indexed docs).
Proof.
  unfold DocIndex.build_index.
  destruct (DocIndex.build_entries docs []) as [|entries] eqn:Hrun; [done|].
  intros [= <-]. cbn.
  destruct (build_entries_listing docs [] entries Hrun) as (new & -> & Hnew).
  cbn [app]. split_and!; [reflexivity | reflexivity | exact Hnew |].
  clear Hrun. induction Hnew as [|entry d new ds Hd _ IH]; [done|]. cbn [map].
  rewrite IH. f_equal.
  by destruct (build_entry_fields d entry Hd) as (? & ? & _ & _ & ->).
Qed.

Lemma build_index_entries_witness :
  ∃ index,
    DocIndex.build_index (tables := excerpt) (lit "2025-11-12T00:00:00Z")
      (lit "docs/apple")
      [Fixtures.plain_doc; Fixtures.sparse_doc; Fixtures.hollow_doc;
       Fixtures.unit_test_doc]
    = inr index
    ∧ map DocIndex.path (DocIndex.entries index)
      = [lit "docs/apple/coredata.md"; lit "docs/apple/demo.md"].
Proof.
  assert (match DocIndex.build_index (tables := excerpt)
                 (lit "2025-11-12T00:00:00Z") (lit "docs/apple")
                 [Fixtures.plain_doc; Fixtures.sparse_doc;
                  Fixtures.hollow_doc; Fixtures.unit_test_doc] with
          | inr _ => True
          | inl _ => False
          end) as Hrun by (vm_compute; exact I).
  destruct (DocIndex.build_index (tables := excerpt)
              (lit "2025-11-12T00:00:00Z") (lit "docs/apple")
              [Fixtures.plain_doc; Fixtures.sparse_doc; Fixtures.hollow_doc;
               Fixtures.unit_test_doc]) as [e|index] eqn:Hbuild;
    [destruct Hrun|].
  exists index. split; [reflexivity|].
  destruct (build_index_entries (tables := excerpt) _ _ _ index Hbuild)
    as (_ & _ & _ & ->).
  vm_compute. reflexivity.
Defined.

(** X8.  A document whose lines make the simple parser raise ends the
    rebuild.  When the parser returns on the lines of the documents
    enumerated before it, the rebuild raises the exception of that
    document: it gives no index, whatever the documents after it. *)
Theorem build_index_stops_at_raise {tables : Tables} (now root : str)
    (pre post : list DocIndex.Doc) (d : DocIndex.Doc) (e : exn) :
  Forall (λ d', ∃ r, DocIndex._parse_front_matter (DocIndex.doc_lines d')
                     = inr r) pre →
  DocIndex._parse_front_matter (DocIndex.doc_lines d) = inl e →
  DocIndex.build_index now root (pre ++ d :: post) = inl e.
Proof.
  intros Hpre Hd. unfold DocIndex.build_index.
  rewrite build_entries_app.
  apply (build_entries_returns pre []) in Hpre as [entries ->].
  cbn [DocIndex.build_entries]. unfold DocIndex.build_entry.
  by rewrite Hd.
Qed.

Lemma build_index_stops_at_raise_witness :
  DocIndex.build_index (tables := excerpt) (lit "2025-11-12T00:00:00Z")
    (lit "docs/apple")
    ([Fixtures.sparse_doc] ++ Fixtures.broken_doc :: [Fixtures.unit_test_doc])
  = inl AttributeError.
Proof.
  apply (build_index_stops_at_raise (tables := excerpt)).
  - constructor; [|constructor].
    assert (match DocIndex._parse_front_matter (tables := excerpt)
                   (DocIndex.doc_lines Fixtures.sparse_doc) with
            | inr _ => True
            | inl _ => False
            end) as Hrun by (vm_compute; exact I).
    destruct (DocIndex._parse_front_matter (tables := excerpt)
                (DocIndex.doc_lines Fixtures.sparse_doc)) as [e|r];
      [destruct Hrun | by exists r].
  - vm_compute. reflexivity.
Defined.

(** *** What a search returns *)

Section SearchResults.
Context {tables : Tables}.
Import DocIndex.

Lemma extends_refl (P : str → Prop) (st : search_state) : extends P st st.
Proof. exists []. by rewrite app_nil_r. Qed.

Lemma extends_trans (P : str → Prop) (st1 st2 st3 : search_state) :
  extends P st1 st2 → extends P st2 st3 → extends P st1 st3.
Proof.
  intros (x1 & H1 & Hx1) (x2 & H2 & Hx2). exists (x1 ++ x2).
  split; [by rewrite H2, H1, <- app_assoc | by apply Forall_app].
Qed.

Lemma extends_weaken (P Q : str → Prop) (st st' : search_state) :
  (∀ line, P line → Q line) → extends P st st' → extends Q st st'.
Proof.
  intros HPQ (x & Hx & HP). exists x. split; [done|].
  by apply (Forall_impl P).
Qed.

Lemma record_hit_extends (P : str → Prop) (st : search_state)
    (key line : str) :
  P line → extends P st (record_hit st key line).
Proof.
  intros HP. destruct st as [results seen]. unfold record_hit.
  case_bool_decide; [apply extends_refl|].
  exists [line]. split; [done | by constructor].
Qed.

Lemma fold_extends {X} (P : str → Prop)
    (step : search_state → X → search_state) (l : list X) :
  (∀ st x, x ∈ l → extends P st (step st x)) →
  ∀ st, extends P st (fold_left step l st).
Proof.
  induction l as [|x l IH]; intros Hstep st; [apply extends_refl|].
  cbn [fold_left]. apply (extends_trans P _ (step st x)).
  - apply Hstep. by left.
  - apply IH. intros st' y Hy. apply Hstep. by right.
Qed.

Lemma search_entry_extends (term_lower : str) (e : DocEntry)
    (st st' : search_state) :
  search_entry term_lower st e = inr st' →
  extends (hit_of term_lower e) st st'.
Proof.
  unfold search_entry.
  destruct (iterate (key_sections e)) as [|sections] eqn:Hit; [done|].
  intros [= <-].
  apply (extends_trans _ _
           (fold_left (search_heading term_lower e) (headings e) st)).
  - apply fold_extends. intros s h Hh. unfold search_heading.
    destruct (str_in term_lower (lower (text h))) eqn:Hm;
      [|apply extends_refl].
    apply record_hit_extends. left. by exists h.
  - apply fold_extends. intros s x Hx. unfold search_section.
    destruct (str_in term_lower (lower x)) eqn:Hm; [|apply extends_refl].
    apply record_hit_extends. right. by exists sections, x.
Qed.

Lemma search_loop_extends (term_lower : str) (es : list DocEntry)
    (st st' : search_state) :
  search_loop term_lower es st = inr st' →
  extends (λ line, ∃ e, e ∈ es ∧ hit_of term_lower e line) st st'.
Proof.
  revert st. induction es as [|e es IH]; intros st.
  - intros [= <-]. apply extends_refl.
  - cbn [search_loop].
    destruct (search_entry term_lower st e) as [|st1] eqn:Hrun; [done|].
    intros Hloop. apply (extends_trans _ _ st1).
    + apply (extends_weaken (hit_of term_lower e));
        [|by apply search_entry_extends].
      intros line Hline. exists e. split; [by left | done].
    + apply (extends_weaken
               (λ line, ∃ e', e' ∈ es ∧ hit_of term_lower e' line));
        [|by apply IH].
      intros line (e' & He' & Hline). exists e'. split; [by right | done].
Qed.

Lemma search_loop_app (term_lower : str) (es more : list DocEntry)
    (st : search_state) :
  search_loop term_lower (es ++ more) st
  = match search_loop term_lower es st with
    | inl err => inl err
    | inr st' => search_loop term_lower more st'
    end.
Proof.
  revert st. induction es as [|e es IH]; intros st; [done|].
  cbn [app search_loop].
  by destruct (search_entry term_lower st e) as [|st1].
Qed.

(** The loop returns exactly when every entry has key sections that can
    be iterated; it raises [TypeError] otherwise. *)
Lemma search_loop_returns (term_lower : str) (es : list DocEntry)
    (st : search_state) :
  match search_loop term_lower es st with
  | inr _ => forallb (λ e, iterable (key_sections e)) es = true
  | inl err =>
      err = TypeError
      ∧ forallb (λ e, iterable (key_sections e)) es = false
  end.
Proof.
  revert st. induction es as [|e es IH]; intros st; [done|].
  cbn [search_loop forallb]. unfold search_entry.
  destruct (key_sections e) as [s|z|l]; cbn [iterate iterable andb];
    [apply IH | done | apply IH].
Qed.


Lemma search_entries_raises (index : Index) (term : str) :
  forallb (λ e, iterable (key_sections e)) (entries index) = false →
  search_entries index term = inl TypeError.
Proof.
  intros Hall. unfold search_entries, search_run.
  pose proof (search_loop_returns (lower term) (entries index) ([], []))
    as Hret.
  destruct (search_loop (lower term) (entries index) ([], []))
    as [err|[results seen]]; [by destruct Hret as [-> _]|].
  by rewrite Hret in Hall.
Qed.

End SearchResults.

(** X9.  Every line a search returns was written for a heading or for an
    item of the key sections of an entry of the index, one whose
    lower-cased text holds the lower-cased term; the line gives the title
    of that entry, the text, and the key [path#anchor]. *)
Theorem search_results_sound {tables : Tables} (index : DocIndex.Index)
    (term : str) (results : list str) :
  DocIndex.search_entries index term = inr results →
  Forall (λ line, ∃ e, e ∈ DocIndex.entries index
                       ∧ DocIndex.hit_of (lower term) e line) results.
Proof.
  unfold DocIndex.search_entries, DocIndex.search_run.
  destruct (DocIndex.search_loop (lower term) (DocIndex.entries index)
              ([], [])) as [|[res seen]] eqn:Hrun; [done|].
  intros [= <-].
  destruct (search_loop_extends _ _ _ _ Hrun) as (extra & Hres & Hextra).
  cbn in Hres. by subst res.
Qed.

Lemma search_results_sound_witness :
  ∃ results,
    DocIndex.search_entries (tables := excerpt)
      (Fixtures.index_with (lit "fetching")) (lit "FETCH") = inr results
    ∧ Forall (λ line, ∃ e,
                e ∈ DocIndex.entries (Fixtures.index_with (lit "fetching"))
                ∧ DocIndex.hit_of (tables := excerpt)
                    (lower (tables := excerpt) (lit "FETCH")) e line)
        results.
Proof.
  assert (match DocIndex.search_entries (tables := excerpt)
                 (Fixtures.index_with (lit "fetching")) (lit "FETCH") with
          | inr _ => True
          | inl _ => False
          end) as Hrun by (vm_compute; exact I).
  destruct (DocIndex.search_entries (tables := excerpt)
              (Fixtures.index_with (lit "fetching")) (lit "FETCH"))
    as [e|results] eqn:Hsearch; [destruct Hrun|].
  exists results. split; [reflexivity|].
  exact (search_results_sound (tables := excerpt) _ _ results Hsearch).
Defined.

(** X10.  A search returns exactly when the key sections of every entry of
    the index can be iterated (a list or a string); when those of some
    entry are an integer it raises [TypeError], whatever the term. *)
Theorem search_returns_iff {tables : Tables} (index : DocIndex.Index)
    (term : str) :
  ((∃ results, DocIndex.search_entries index term = inr results)
   ↔ forallb (λ e, DocIndex.iterable (DocIndex.key_sections e))
       (DocIndex.entries index) = true)
  ∧ (DocIndex.search_entries index term = inl TypeError
     ↔ forallb (λ e, DocIndex.iterable (DocIndex.key_sections e))
         (DocIndex.entries index) = false).
Proof.
  unfold DocIndex.search_entries, DocIndex.search_run.
  pose proof (search_loop_returns (lower term) (DocIndex.entries index)
                ([], [])) as Hret.
  destruct (DocIndex.search_loop (lower term) (DocIndex.entries index)
              ([], [])) as [err|[results seen]].
  - destruct Hret as [-> Hall]. rewrite Hall.
    split; split; [by intros [? ?] | done | done | done].
  - rewrite Hret. split; split; [done | by eexists | done | done].
Qed.

(** X11.  A document whose header gives an integer for [key_sections]
    gets an entry, and every search of the index built with it raises
    [TypeError]. *)
Theorem integer_key_sections_break_search {tables : Tables}
    (now root : str) (docs : list DocIndex.Doc) (index : DocIndex.Index)
    (d : DocIndex.Doc) (fm : gmap str DocIndex.value) (offset : nat)
    (z : Z) (term : str) :
  DocIndex.build_index now root docs = inr index →
  d ∈ docs →
  DocIndex._parse_front_matter (DocIndex.doc_lines d)
  = inr (Some fm, offset) →
  fm !! DocIndex.K_KEY_SECTIONS = Some (DocIndex.VInt z) →
  DocIndex.search_entries index term = inl TypeError.
Proof.
  intros Hbuild Hd Hparse Hks. apply search_entries_raises.
  unfold DocIndex.build_index in Hbuild.
  destruct (DocIndex.build_entries docs []) as [|entries] eqn:Hrun; [done|].
  injection Hbuild as <-. cbn [DocIndex.entries].
  destruct (build_entries_listing docs [] entries Hrun) as (new & -> & Hnew).
  cbn [app].
  assert (d ∈ List.filter DocIndex.indexed docs) as Hin.
  { apply list_elem_of_In, List.filter_In. split; [by apply list_elem_of_In|].
    unfold DocIndex.indexed. rewrite Hparse.
    apply negb_true_iff, bool_decide_eq_false. intros ->.
    by rewrite lookup_empty in Hks. }
  apply list_elem_of_lookup in Hin as [i Hi].
  destruct (Forall2_lookup_r _ _ _ _ _ Hnew Hi) as (entry & Hentry & Hmade).
  destruct (build_entry_fields d entry Hmade) as (fm' & off' & Hp' & _ & He).
  rewrite Hparse in Hp'. injection Hp' as <- <-.
  apply not_true_is_false. intros Hall.
  rewrite forallb_forall in Hall.
  specialize (Hall entry). rewrite He in Hall at 2.
  cbn [DocIndex.key_sections] in Hall. rewrite Hks in Hall.
  cbn in Hall. discriminate Hall.
  apply list_elem_of_In. by eapply list_elem_of_lookup_2.
Qed.

Lemma integer_key_sections_break_search_witness :
  ∃ index,
    DocIndex.build_index (tables := excerpt) (lit "2025-11-12T00:00:00Z")
      (lit "docs/apple") [Fixtures.sparse_doc; Fixtures.counted_doc]
    = inr index
    ∧ DocIndex.search_entries (tables := excerpt) index (lit "fetch")
      = inl TypeError.
Proof.
  assert (match DocIndex.build_index (tables := excerpt)
                 (lit "2025-11-12T00:00:00Z") (lit "docs/apple")
                 [Fixtures.sparse_doc; Fixtures.counted_doc] with
          | inr _ => True
          | inl _ => False
          end) as Hrun by (vm_compute; exact I).
  destruct (DocIndex.build_index (tables := excerpt)
              (lit "2025-11-12T00:00:00Z") (lit "docs/apple")
              [Fixtures.sparse_doc; Fixtures.counted_doc])
    as [e|index] eqn:Hbuild; [destruct Hrun|].
  exists index. split; [reflexivity|].
  assert (match DocIndex._parse_front_matter (tables := excerpt)
                 (DocIndex.doc_lines Fixtures.counted_doc) with
          | inr (Some fm, _) =>
              fm !! DocIndex.K_KEY_SECTIONS = Some (DocIndex.VInt 3)
          | _ => False
          end) as Hfm by (vm_compute; reflexivity).
  destruct (DocIndex._parse_front_matter (tables := excerpt)
              (DocIndex.doc_lines Fixtures.counted_doc))
    as [e|[[fm|] offset]] eqn:Hparse; [destruct Hfm| |destruct Hfm].
  apply (integer_key_sections_break_search (tables := excerpt) _ _ _ index
           Fixtures.counted_doc fm offset 3 (lit "fetch") Hbuild);
    [right; left | exact Hparse | exact Hfm].
Defined.



(** X13.  Entries added at the end of an index leave the lines found in
    the entries before them as they are: the search of the longer index
    returns the lines of the search of the shorter one, in the same
    order, followed by lines written for the added entries. *)
Theorem search_extends_with_entries {tables : Tables} (stamp root : str)
    (es more : list DocIndex.DocEntry) (term : str) (results' : list str) :
  DocIndex.search_entries
    {| DocIndex.generated_at := stamp; DocIndex.docs_root := root;
       DocIndex.entries := es ++ more |} term = inr results' →
  ∃ results extra,
    DocIndex.search_entries
      {| DocIndex.generated_at := stamp; DocIndex.docs_root := root;
         DocIndex.entries := es |} term = inr results
    ∧ results' = results ++ extra
    ∧ Forall (λ line, ∃ e, e ∈ more ∧ DocIndex.hit_of (lower term) e line)
        extra.
Proof.
  unfold DocIndex.search_entries, DocIndex.search_run.
  cbn [DocIndex.entries]. rewrite search_loop_app.
  destruct (DocIndex.search_loop (lower term) es ([], []))
    as [|[res seen]]; [done|].
  destruct (DocIndex.search_loop (lower term) more (res, seen))
    as [|[res' seen']] eqn:Hrun; [done|].
  intros [= <-].
  destruct (search_loop_extends _ _ _ _ Hrun) as (extra & Hres & Hextra).
  cbn in Hres. by exists res, extra.
Qed.

Lemma search_extends_with_entries_witness :
  ∃ results' results extra,
    DocIndex.search_entries (tables := excerpt)
      {| DocIndex.generated_at := lit "2025-11-12T00:00:00Z";
         DocIndex.docs_root := lit "docs/apple";
         DocIndex.entries :=
           [Fixtures.entry_with (lit "fetching")]
           ++ [Fixtures.swiftui_entry] |} (lit "fetch") = inr results'
    ∧ DocIndex.search_entries (tables := excerpt)
        {| DocIndex.generated_at := lit "2025-11-12T00:00:00Z";
           DocIndex.docs_root := lit "docs/apple";
           DocIndex.entries := [Fixtures.entry_with (lit "fetching")] |}
        (lit "fetch") = inr results
    ∧ results' = results ++ extra
    ∧ Forall (λ line, ∃ e, e ∈ [Fixtures.swiftui_entry]
                ∧ DocIndex.hit_of (tables := excerpt)
                    (lower (tables := excerpt) (lit "fetch")) e line)
        extra.
Proof.
  assert (match DocIndex.search_entries (tables := excerpt)
                 {| DocIndex.generated_at := lit "2025-11-12T00:00:00Z";
                    DocIndex.docs_root := lit "docs/apple";
                    DocIndex.entries :=
                      [Fixtures.entry_with (lit "fetching")]
                      ++ [Fixtures.swiftui_entry] |} (lit "fetch") with
          | inr _ => True
          | inl _ => False
          end) as Hrun by (vm_compute; exact I).
  destruct (DocIndex.search_entries (tables := excerpt)
              {| DocIndex.generated_at := lit "2025-11-12T00:00:00Z";
                 DocIndex.docs_root := lit "docs/apple";
                 DocIndex.entries :=
                   [Fixtures.entry_with (lit "fetching")]
                   ++ [Fixtures.swiftui_entry] |} (lit "fetch"))
    as [e|results'] eqn:Hsearch; [destruct Hrun|].
  destruct (search_extends_with_entries (tables := excerpt) _ _ _ _ _
              results' Hsearch) as (results & extra & Hshort & Hsplit & Hnew).
  exists results', results, extra. split; [reflexivity|].
  split; [exact Hshort|]. split; [exact Hsplit | exact Hnew].
Defined.

(** *** The streaming parser and the peek *)

Section StreamParser.
Context {tables : Tables}.
Import DocMeta.

Lemma stream_step_raw (st st' : parser) (raw : str) :
  stream_step st raw = inr st' →
  raw_lines st' = raw_lines st ++ [rstrip_nl raw].
Proof.
  unfold stream_step, in_mapping, top_level, with_data.
  cbn [data raw_lines parent_key nested_current_key current_key].
  intros Hstep. repeat case_match; simplify_eq; done.
Qed.

Lemma stream_loop_envelope (fh : list str) (st st' : parser)
    (leftover : list str) :
  stream_loop fh st = inr (st', leftover) →
  ∃ body,
    Forall (λ l, strip l ≠ DASHES) body
    ∧ raw_lines st' = raw_lines st ++ map rstrip_nl body
    ∧ ((fh = body ∧ leftover = [])
       ∨ ∃ closer, strip closer = DASHES ∧ fh = body ++ closer :: leftover).
Proof.
  revert st. induction fh as [|raw fh IH]; intros st.
  - intros [= <- <-]. exists []. rewrite app_nil_r. split_and!; auto.
  - cbn [stream_loop]. case_bool_decide as Hclose.
    + intros [= <- <-]. exists []. rewrite app_nil_r.
      split_and!; [done..|]. right. by exists raw.
    + destruct (stream_step st raw) as [|st1] eqn:Hstep; [done|].
      intros Hloop. destruct (IH _ Hloop) as (body & Hbody & Hraw & Hcases).
      exists (raw :: body). split_and!.
      * by constructor.
      * rewrite Hraw, (stream_step_raw _ _ _ Hstep), <- app_assoc. done.
      * destruct Hcases as [[-> ->]|(closer & Hc & ->)]; [by left|].
        right. by exists closer.
Qed.

Lemma stream_loop_closer (body : list str) (closer : str)
    (after after' : list str) (st : parser) :
  strip closer = DASHES →
  outcome (stream_loop (body ++ closer :: after) st)
  = outcome (stream_loop (body ++ closer :: after') st).
Proof.
  intros Hclose. revert st. induction body as [|raw body IH]; intros st.
  - cbn [app stream_loop]. by rewrite !bool_decide_eq_true_2.
  - cbn [app stream_loop]. case_bool_decide; [done|].
    destruct (stream_step st raw) as [|st1]; [done | apply IH].
Qed.

End StreamParser.

(** X14.  What the streaming parser returns accounts for every line of
    the stream.  On an empty stream it returns nothing.  On a stream whose
    first line is not the marker it returns, with an empty mapping and no
    raw lines: that first line is carried over and the lines after it
    stay in the stream.  On a stream that opens with the marker, when it
    returns, nothing is carried over and the raw lines are the lines
    after the marker up to the first closing marker, each without its
    trailing newlines; the lines after that closing marker stay in the
    stream, none of them read, and when no line closes the header the
    stream is read to its end. *)
Theorem stream_parser_envelope {tables : Tables} (fh : list str) :
  match fh with
  | [] => DocMeta._parse_front_matter_stream fh = inr (∅, [], [], [])
  | first :: rest =>
      if bool_decide (strip first = DASHES) then
        ∀ data raw carry leftover,
          DocMeta._parse_front_matter_stream fh
          = inr (data, raw, carry, leftover) →
          carry = []
          ∧ ∃ body,
              Forall (λ l, strip l ≠ DASHES) body
              ∧ raw = map rstrip_nl body
              ∧ ((rest = body ∧ leftover = [])
                 ∨ ∃ closer, strip closer = DASHES
                             ∧ rest = body ++ closer :: leftover)
      else
        DocMeta._parse_front_matter_stream fh = inr (∅, [], [first], rest)
  end.
Proof.
  destruct fh as [|first rest]; [done|].
  unfold DocMeta._parse_front_matter_stream.
  case_bool_decide as Hopen; cbn [negb]; [|done].
  intros data raw carry leftover.
  destruct (DocMeta.stream_loop rest _) as [|[st lines]] eqn:Hloop; [done|].
  intros [= <- <- <- <-]. split; [done|].
  destruct (stream_loop_envelope _ _ _ _ Hloop)
    as (body & Hbody & Hraw & Hcases).
  by exists body.
Qed.

(** The document of the unit test as a stream: the eight lines of the
    header are the raw lines and the seven lines of the body stay in the
    stream. *)
Example stream_parser_fixture :
  ∃ data,
    DocMeta._parse_front_matter_stream (tables := excerpt)
      Fixtures.unit_test_stream
    = inr (data, map rstrip_nl (take 8 (drop 1 Fixtures.unit_test_stream)),
           [], drop 10 Fixtures.unit_test_stream).
Proof.
  assert (match DocMeta._parse_front_matter_stream (tables := excerpt)
                 Fixtures.unit_test_stream with
          | inr (_, raw, carry, leftover) =>
              raw = map rstrip_nl (take 8 (drop 1 Fixtures.unit_test_stream))
              ∧ carry = []
              ∧ leftover = drop 10 Fixtures.unit_test_stream
          | inl _ => False
          end) as Hrun by (vm_compute; split_and!; reflexivity).
  destruct (DocMeta._parse_front_matter_stream (tables := excerpt)
              Fixtures.unit_test_stream)
    as [e|[[[data raw] carry] leftover]]; [destruct Hrun|].
  destruct Hrun as (-> & -> & ->). by exists data.
Qed.

(** X15.  A peek that is not asked for the table of contents depends on
    the lines up to the first closing marker only: whatever follows the
    marker, and whatever budget is given, the result is the same, an
    exception included. *)
Theorem peek_reads_header_only {tables : Tables} (first closer : str)
    (body after after' : list str) (max_lines max_lines' : Z) :
  strip closer = DASHES →
  DocMeta.peek_markdown (first :: body ++ closer :: after) false max_lines
  = DocMeta.peek_markdown (first :: body ++ closer :: after') false
      max_lines'.
Proof.
  intros Hclose. unfold DocMeta.peek_markdown.
  unfold DocMeta._parse_front_matter_stream.
  case_bool_decide as Hopen; cbn [negb]; [|done].
  pose proof (stream_loop_closer body closer after after'
                {| DocMeta.data := ∅; DocMeta.raw_lines := [];
                   DocMeta.parent_key := None;
                   DocMeta.nested_current_key := None;
                   DocMeta.current_key := None |} Hclose) as Hsame.
  destruct (DocMeta.stream_loop (body ++ closer :: after) _) as [e1|[st1 l1]];
    destruct (DocMeta.stream_loop (body ++ closer :: after') _)
      as [e2|[st2 l2]]; cbn [DocMeta.outcome] in Hsame; by simplify_eq.
Qed.

Lemma peek_reads_header_only_witness :
  DocMeta.peek_markdown (tables := excerpt)
    (lit "---" :: take 8 (drop 1 Fixtures.unit_test_stream)
     ++ lit "---" :: drop 10 Fixtures.unit_test_stream) false 800
  = DocMeta.peek_markdown (tables := excerpt)
      (lit "---" :: take 8 (drop 1 Fixtures.unit_test_stream)
       ++ lit "---" :: []) false 0.
Proof.
  apply (peek_reads_header_only (tables := excerpt)). reflexivity.
Defined.

(** *** The block the TOC scanner returns *)

Section TocBlock.
Import DocMeta.

Lemma rstrip_by_fixed (p : N → bool) (s : str) :
  rstrip_by p (rstrip_by p s) = rstrip_by p s.
Proof.
  unfold rstrip_by. by rewrite rev_involutive, drop_while_fixed.
Qed.

Lemma toc_item_collected (raw : str) :
  is_toc_end raw = false → strip raw ≠ [] → toc_item (rstrip_nl raw) = true.
Proof.
  intros Hend Hblank. unfold toc_item, is_toc_end in *.
  rewrite rstrip_nl_strip, Hend.
  rewrite (bool_decide_eq_false_2 _ Hblank). cbn [negb andb].
  apply bool_decide_eq_true_2, rstrip_by_fixed.
Qed.

Lemma toc_loop_collects (lines : list str) (max_lines scanned : Z)
    (toc : list str) :
  ∃ items,
    (toc_loop lines max_lines scanned true toc).1 = toc ++ items
    ∧ forallb toc_item items = true
    ∧ items `sublist_of` map rstrip_nl lines.
Proof.
  revert scanned toc. induction lines as [|raw rest IH]; intros scanned toc.
  { exists []. by rewrite app_nil_r. }
  cbn [toc_loop negb map].
  destruct (negb (max_lines =? 0)%Z && (max_lines <? scanned + 1)%Z).
  { exists []. rewrite app_nil_r. split_and!; [done..|apply sublist_nil_l]. }
  fold (is_toc_end raw). destruct (is_toc_end raw) eqn:Hend.
  { exists []. rewrite app_nil_r. split_and!; [done..|apply sublist_nil_l]. }
  case_bool_decide as Hblank.
  - destruct (IH (scanned + 1)%Z toc) as (items & Hres & Hitems & Hsub).
    exists items. split_and!; [done..|]. by apply sublist_cons.
  - destruct (IH (scanned + 1)%Z (toc ++ [rstrip_nl raw]))
      as (items & Hres & Hitems & Hsub).
    exists (rstrip_nl raw :: items). split_and!.
    + by rewrite Hres, <- app_assoc.
    + cbn [forallb]. by rewrite toc_item_collected.
    + by apply sublist_skip.
Qed.

Lemma toc_loop_shape (lines : list str) (max_lines scanned : Z) :
  (toc_loop lines max_lines scanned false []).1 = []
  ∨ ∃ items,
      (toc_loop lines max_lines scanned false []).1 = TOC_HEADING :: items
      ∧ forallb toc_item items = true
      ∧ items `sublist_of` map rstrip_nl lines.
Proof.
  revert scanned. induction lines as [|raw rest IH]; intros scanned;
    [by left|].
  cbn [toc_loop negb map].
  destruct (negb (max_lines =? 0)%Z && (max_lines <? scanned + 1)%Z);
    [by left|].
  case_bool_decide as Hstart.
  - right. rewrite Hstart.
    destruct (toc_loop_collects rest max_lines (scanned + 1) ([] ++ [TOC_HEADING]))
      as (items & Hres & Hitems & Hsub).
    exists items. split_and!; [done..|]. by apply sublist_cons.
  - destruct (IH (scanned + 1)%Z) as [Hnone|(items & Hres & Hitems & Hsub)];
      [by left|].
    right. exists items. split_and!; [done..|]. by apply sublist_cons.
Qed.

Lemma toc_loop_found (lines : list str) (scanned : Z) :
  (toc_loop lines 0 scanned false []).1 ≠ []
  ↔ Exists (λ l, is_toc_start l = true) lines.
Proof.
  revert scanned. induction lines as [|raw rest IH]; intros scanned.
  { cbn. rewrite Exists_nil. done. }
  cbn [toc_loop negb Z.eqb andb]. rewrite Exists_cons. unfold is_toc_start.
  case_bool_decide as Hstart.
  - destruct (toc_loop_collects rest 0 (scanned + 1) ([] ++ [strip raw]))
      as (items & -> & _).
    split; [by left | done].
  - rewrite IH. split; [by right | by intros [?|?]].
Qed.

Lemma toc_loop_negative (lines : list str) (max_lines : Z)
    (started : bool) (toc : list str) :
  (max_lines < 0)%Z →
  toc_loop lines max_lines 0 started toc
  = (toc, negb (bool_decide (lines = []))).
Proof.
  intros Hneg. destruct lines as [|raw rest]; [done|]. cbn [toc_loop].
  destruct (Z.eqb_spec max_lines 0) as [|_]; [lia|].
  destruct (Z.ltb_spec max_lines (0 + 1)) as [_|]; [done | lia].
Qed.

Lemma toc_loop_never_truncates (lines : list str) (scanned : Z)
    (started : bool) (toc : list str) :
  (toc_loop lines 0 scanned started toc).2 = false.
Proof.
  revert scanned started toc.
  induction lines as [|raw rest IH]; intros scanned started toc; [done|].
  cbn [toc_loop negb Z.eqb andb]. repeat case_match; auto.
Qed.

End TocBlock.

(** X16.  The block the scanner returns is empty, or it opens with the
    heading of the table of contents, trimmed, and goes on with lines of
    the stream in their order, each without its trailing newlines: none
    of them is blank and none is the heading of another section. *)
Theorem toc_block_shape (fh carry : list str) (max_lines : Z) :
  (DocMeta._read_toc_block fh carry max_lines).1 = []
  ∨ ∃ items,
      (DocMeta._read_toc_block fh carry max_lines).1 = TOC_HEADING :: items
      ∧ forallb DocMeta.toc_item items = true
      ∧ items `sublist_of` map rstrip_nl (carry ++ fh).
Proof. apply toc_loop_shape. Qed.

(** X17.  The scanner finds a block exactly when a line among those it may
    look at (all of them for the budget [0], the first [max_lines]
    otherwise) is the heading of the table of contents. *)
Theorem toc_found_iff (fh carry : list str) (max_lines : Z) :
  (DocMeta._read_toc_block fh carry max_lines).1 ≠ []
  ↔ Exists (λ l, DocMeta.is_toc_start l = true)
      (DocMeta.scan_window max_lines (carry ++ fh)).
Proof.
  unfold DocMeta._read_toc_block, DocMeta.scan_window.
  destruct (Z.eqb_spec max_lines 0) as [->|Hne]; [apply toc_loop_found|].
  destruct (Z.lt_ge_cases 0 max_lines) as [Hpos|Hneg].
  - rewrite (toc_loop_budget _ max_lines 0 false [] Hpos) by lia.
    cbn [fst]. rewrite Z.sub_0_r. apply toc_loop_found.
  - rewrite toc_loop_negative by lia. cbn [fst].
    replace (Z.to_nat max_lines) with 0 by lia. rewrite take_0, Exists_nil.
    done.
Qed.

(** X18.  The budget [0] switches the limit off: the scan is never
    flagged as truncated, however long the stream. *)
Theorem toc_scan_without_budget (fh carry : list str) :
  (DocMeta._read_toc_block fh carry 0).2 = false.
Proof. apply toc_loop_never_truncates. Qed.

(** X19.  A negative budget is no way to switch the limit off: the scan
    stops at the first line, returns no block, and is flagged as truncated
    unless there is no line at all. *)
Theorem toc_scan_negative_budget (fh carry : list str) (max_lines : Z) :
  (max_lines < 0)%Z →
  DocMeta._read_toc_block fh carry max_lines
  = ([], negb (bool_decide (carry ++ fh = []))).
Proof. apply toc_loop_negative. Qed.

Lemma toc_scan_negative_budget_witness :
  DocMeta._read_toc_block Fixtures.long_toc [] (-1) = ([], true).
Proof.
  rewrite (toc_scan_negative_budget Fixtures.long_toc [] (-1)); [|lia].
  reflexivity.
Defined.

(** *** The key sections the sanitizer keeps *)

Section KeptSections.
Context {tables : Tables}.
Import DocsetSanitize.

Lemma clean_fold_spec (stopwords : gset str) (key_sections acc : list str) :
  NoDup acc →
  ∃ kept,
    fold_left (clean_step stopwords) key_sections acc = acc ++ kept
    ∧ kept `sublist_of` key_sections
    ∧ NoDup (acc ++ kept)
    ∧ ∀ t, t ∈ acc ++ kept
           ↔ t ∈ acc ∨ (t ∈ key_sections ∧ is_stopword stopwords t = false).
Proof.
  revert acc. induction key_sections as [|t0 ks IH]; intros acc Hacc.
  { exists []. rewrite app_nil_r. split_and!; [done..|].
    intros t. split; [by left | intros [?|[?%elem_of_nil _]]; done]. }
  cbn [fold_left]. unfold clean_step at 2.
  destruct (is_stopword stopwords t0) eqn:Hstop.
  - destruct (IH acc Hacc) as (kept & Hrun & Hsub & Hnd & Hmem).
    exists kept. split_and!; [done|by apply sublist_cons|done|].
    intros t. rewrite Hmem, elem_of_cons.
    split; [intros [?|[? ?]]; auto|].
    intros [?|[[->|?] Hns]]; [auto|congruence|auto].
  - case_bool_decide as Hin.
    + destruct (IH acc Hacc) as (kept & Hrun & Hsub & Hnd & Hmem).
      exists kept. split_and!; [done|by apply sublist_cons|done|].
      intros t. rewrite Hmem, elem_of_cons.
      split; [intros [?|[? ?]]; auto|].
      intros [?|[[->|?] Hns]]; auto.
    + destruct (IH (acc ++ [t0])) as (kept & Hrun & Hsub & Hnd & Hmem).
      { apply NoDup_app. split_and!; [done| |apply NoDup_singleton].
        by intros x Hx ->%list_elem_of_singleton. }
      exists (t0 :: kept). rewrite <- app_assoc in Hrun, Hnd, Hmem.
      split_and!; [done|by apply sublist_skip|done|].
      intros t. rewrite Hmem, elem_of_app, list_elem_of_singleton, elem_of_cons.
      split; [intros [[?| ->]|[? ?]]; auto|].
      intros [?|[[->|?] Hns]]; auto.
Qed.

(** The order of the titles kept: those that stand before a title [t] in
    the result occur in the header before the first occurrence of [t]. *)
Lemma clean_fold_order (stopwords : gset str) (key_sections acc : list str) :
  ∃ kept,
    fold_left (clean_step stopwords) key_sections acc = acc ++ kept
    ∧ (∀ t, t ∈ kept → (t ∉ acc) ∧ is_stopword stopwords t = false)
    ∧ ∀ r1 t r2, kept = r1 ++ t :: r2 →
        ∃ pre post, key_sections = pre ++ t :: post ∧ (t ∉ pre)
                    ∧ ∀ x, x ∈ r1 → x ∈ pre.
Proof.
  revert acc. induction key_sections as [|t0 ks IH]; intros acc.
  { exists []. rewrite app_nil_r. split_and!; [done| |].
    - by intros t ?%elem_of_nil.
    - intros r1 t r2 Heq. by destruct r1. }
  cbn [fold_left]. unfold clean_step at 2.
  destruct (is_stopword stopwords t0) eqn:Hstop.
  - destruct (IH acc) as (kept & Hrun & Hkept & Horder).
    exists kept. split_and!; [done..|].
    intros r1 t r2 Heq.
    destruct (Horder r1 t r2 Heq) as (pre & post & -> & Hpre & Hr1).
    exists (t0 :: pre), post. split_and!; [done| |].
    + intros [->|?]%elem_of_cons; [|done].
      destruct (Hkept t0) as [_ Hns]; [|congruence].
      rewrite Heq. apply elem_of_app. right. by left.
    + intros x Hx. right. by apply Hr1.
  - case_bool_decide as Hin.
    + destruct (IH acc) as (kept & Hrun & Hkept & Horder).
      exists kept. split_and!; [done..|].
      intros r1 t r2 Heq.
      destruct (Horder r1 t r2 Heq) as (pre & post & -> & Hpre & Hr1).
      exists (t0 :: pre), post. split_and!; [done| |].
      * intros [->|?]%elem_of_cons; [|done].
        destruct (Hkept t0) as [Hacc _]; [|done].
        rewrite Heq. apply elem_of_app. right. by left.
      * intros x Hx. right. by apply Hr1.
    + destruct (IH (acc ++ [t0])) as (kept & Hrun & Hkept & Horder).
      exists (t0 :: kept). rewrite <- app_assoc in Hrun.
      split_and!; [done| |].
      * intros t [->|Ht]%elem_of_cons; [done|].
        destruct (Hkept t Ht) as [Hacc Hns]. split; [|done].
        intros ?. apply Hacc, elem_of_app. by left.
      * intros [|x r1] t r2 Heq.
        { injection Heq as <- <-. exists [], ks. split_and!; [done| |].
          - by intros ?%elem_of_nil.
          - by intros x ?%elem_of_nil. }
        injection Heq as <- Heq.
        destruct (Horder r1 t r2 Heq) as (pre & post & -> & Hpre & Hr1).
        exists (t0 :: pre), post. split_and!; [done| |].
        -- intros [->|?]%elem_of_cons; [|done].
           destruct (Hkept t0) as [Hacc _].
           { rewrite Heq. apply elem_of_app. right. by left. }
           apply Hacc, elem_of_app. right. by left.
        -- intros y [->|Hy]%elem_of_cons; [by left|]. right. by apply Hr1.
Qed.

Lemma derive_loop_spec (stopwords : gset str) (rest derived : list str) :
  NoDup derived → length derived < 10 →
  ∃ more,
    derive_loop stopwords rest derived = derived ++ more
    ∧ NoDup (derived ++ more)
    ∧ length (derived ++ more) ≤ 10
    ∧ Forall (λ t, ∃ line, line ∈ rest ∧ link_match (strip line) = Some t)
        more
    ∧ (length (derived ++ more) < 10 →
       ∀ line t, line ∈ rest → link_match (strip line) = Some t →
                 is_stopword stopwords t = false → t ∈ derived ++ more).
Proof.
  revert derived. induction rest as [|line rest IH]; intros derived Hnd Hlen.
  { exists []. rewrite app_nil_r. split_and!; [done|done|lia|done|].
    intros _ l t Hl. by apply elem_of_nil in Hl. }
  cbn [derive_loop].
  assert (∀ more,
            derive_loop stopwords rest derived = derived ++ more
            ∧ NoDup (derived ++ more)
            ∧ length (derived ++ more) ≤ 10
            ∧ Forall (λ t, ∃ l, l ∈ rest ∧ link_match (strip l) = Some t)
                more
            ∧ (length (derived ++ more) < 10 →
               ∀ l t, l ∈ rest → link_match (strip l) = Some t →
                      is_stopword stopwords t = false → t ∈ derived ++ more) →
            (∀ t, link_match (strip line) = Some t →
                  is_stopword stopwords t = false → t ∈ derived) →
            derive_loop stopwords rest derived = derived ++ more
            ∧ NoDup (derived ++ more)
            ∧ length (derived ++ more) ≤ 10
            ∧ Forall (λ t, ∃ l, l ∈ line :: rest
                                ∧ link_match (strip l) = Some t) more
            ∧ (length (derived ++ more) < 10 →
               ∀ l t, l ∈ line :: rest → link_match (strip l) = Some t →
                      is_stopword stopwords t = false → t ∈ derived ++ more))
    as Hskip.
  { intros more (Hrun & Hnd' & Hlen' & Hfrom & Hall) Hline.
    split_and!; [done..| |].
    - eapply Forall_impl; [exact Hfrom|].
      intros t (l & Hl & Hm). exists l. split; [by right | done].
    - intros Hlt l t [->|Hl]%elem_of_cons Hm Hns; [|by eapply Hall].
      apply elem_of_app. left. by apply Hline. }
  destruct (link_match (strip line)) as [title|] eqn:Hmatch.
  2:{ destruct (IH derived Hnd Hlen) as (more & Hmore). exists more.
      by apply Hskip. }
  destruct (is_stopword stopwords title) eqn:Hstop.
  { destruct (IH derived Hnd Hlen) as (more & Hmore). exists more.
    apply Hskip; [done|]. intros t [= <-]. congruence. }
  case_bool_decide as Hin.
  { destruct (IH derived Hnd Hlen) as (more & Hmore). exists more.
    apply Hskip; [done|]. by intros t [= <-]. }
  assert (NoDup (derived ++ [title])) as Hnd1.
  { apply NoDup_app. split_and!; [done| |apply NoDup_singleton].
    by intros x Hx ->%list_elem_of_singleton. }
  case_bool_decide as Hfull.
  - exists [title]. split_and!; [done|done| | |].
    + rewrite length_app in *. cbn [length] in *. lia.
    + constructor; [|done]. exists line. split; [by left | done].
    + intros Hlt. lia.
  - destruct (IH (derived ++ [title]) Hnd1) as (more & Hrun & Hnd' & Hlen'
                                                  & Hfrom & Hall); [lia|].
    exists (title :: more). rewrite <- app_assoc in Hrun, Hnd', Hlen', Hall.
    split_and!; [done..| |].
    + constructor; [exists line; split; [by left | done]|].
      eapply Forall_impl; [exact Hfrom|].
      intros t (l & Hl & Hm). exists l. split; [by right | done].
    + intros Hlt l t [->|Hl]%elem_of_cons Hm Hns; [|by eapply Hall].
      rewrite Hmatch in Hm. injection Hm as <-.
      apply elem_of_app. right. by left.
Qed.

End KeptSections.

(** X20.  The cleaned key sections are the titles of the header that are
    no stopword and not [overview], each once, in the order of their first
    appearance: the titles that stand before a title in the result are
    titles that occur in the header before its first occurrence. *)
Theorem clean_sections_spec {tables : Tables} (stopwords : gset str)
    (key_sections : list str) :
  NoDup (DocsetSanitize.clean_sections stopwords key_sections)
  ∧ DocsetSanitize.clean_sections stopwords key_sections
      `sublist_of` key_sections
  ∧ (∀ t, t ∈ DocsetSanitize.clean_sections stopwords key_sections
          ↔ t ∈ key_sections
            ∧ DocsetSanitize.is_stopword stopwords t = false)
  ∧ ∀ before t after,
      DocsetSanitize.clean_sections stopwords key_sections
      = before ++ t :: after →
      ∃ pre post, key_sections = pre ++ t :: post ∧ (t ∉ pre)
                  ∧ ∀ x, x ∈ before → x ∈ pre.
Proof.
  unfold DocsetSanitize.clean_sections.
  destruct (clean_fold_spec stopwords key_sections [] (NoDup_nil_2))
    as (kept & Hrun & Hsub & Hnd & Hmem).
  destruct (clean_fold_order stopwords key_sections [])
    as (kept' & Hrun' & _ & Horder).
  rewrite Hrun in Hrun' |- *. cbn [app] in *. subst kept'.
  split_and!; [done..| |done].
  intros t. rewrite Hmem. split; [intros [?%elem_of_nil|?]; done | auto].
Qed.

(** X21.  The sections derived from the link lines of the body are at most
    ten titles, each once, each the title of a link line; when fewer than
    ten are derived, every title of a link line that is no stopword and
    not [overview] is among them. *)
Theorem derived_sections_spec {tables : Tables} (stopwords : gset str)
    (rest : list str) :
  NoDup (DocsetSanitize.derive_loop stopwords rest [])
  ∧ length (DocsetSanitize.derive_loop stopwords rest []) ≤ 10
  ∧ Forall (λ t, ∃ line, line ∈ rest
                 ∧ DocsetSanitize.link_match (strip line) = Some t)
      (DocsetSanitize.derive_loop stopwords rest [])
  ∧ (length (DocsetSanitize.derive_loop stopwords rest []) < 10 →
     ∀ line t, line ∈ rest →
       DocsetSanitize.link_match (strip line) = Some t →
       DocsetSanitize.is_stopword stopwords t = false →
       t ∈ DocsetSanitize.derive_loop stopwords rest []).
Proof.
  destruct (derive_loop_spec stopwords rest [] (NoDup_nil_2))
    as (more & -> & Hrest); [cbn; lia|].
  exact Hrest.
Qed.

(** *** The table of contents the sanitizer writes *)

Section TrimmedToc.
Context {tables : Tables}.
Import DocsetSanitize.

Lemma filter_sublist_impl {A} (f g : A → bool) (l : list A) :
  (∀ x, f x = true → g x = true) →
  List.filter f l `sublist_of` List.filter g l.
Proof.
  intros Hfg. induction l as [|x l IH]; [done|]. cbn [List.filter].
  destruct (f x) eqn:Hf.
  - rewrite (Hfg x Hf). by apply sublist_skip.
  - destruct (g x); [by apply sublist_cons | done].
Qed.

Lemma filter_sublist_all {A} (f : A → bool) (l : list A) :
  List.filter f l `sublist_of` l.
Proof.
  induction l as [|x l IH]; [done|]. cbn [List.filter].
  destruct (f x); [by apply sublist_skip | by apply sublist_cons].
Qed.

Lemma filter_nothing {A} (f : A → bool) (l : list A) :
  (∀ x, f x = false) → List.filter f l = [].
Proof.
  intros Hf. induction l as [|x l IH]; [done|]. cbn [List.filter].
  by rewrite Hf.
Qed.

Lemma keeps_toc_line_mono (d1 d2 : Z) (stop_set : gset str) (line : str) :
  (d1 ≤ d2)%Z →
  keeps_toc_line d1 stop_set line = true →
  keeps_toc_line d2 stop_set line = true.
Proof.
  intros Hd. unfold keeps_toc_line.
  destruct (negb (startswith (lstrip line) BULLET)); [done|].
  destruct (toc_line_match line) as [[indent group2]|]; [|done].
  destruct (Z.ltb_spec d1 (Z.of_nat (indent / 2 + 1))) as [|H1]; [done|].
  destruct (Z.ltb_spec d2 (Z.of_nat (indent / 2 + 1))) as [|H2]; [lia|].
  done.
Qed.

Lemma keeps_toc_line_depth (d : Z) (stop_set : gset str) (line : str) :
  (d ≤ 0)%Z → keeps_toc_line d stop_set line = false.
Proof.
  intros Hd. unfold keeps_toc_line.
  destruct (negb (startswith (lstrip line) BULLET)); [done|].
  destruct (toc_line_match line) as [[indent group2]|]; [|done].
  destruct (Z.ltb_spec d (Z.of_nat (indent / 2 + 1))) as [|H1]; [done|lia].
Qed.

(** The loop that locates the block, started at line [i] after the lines
    [pre]. *)
Lemma locate_toc_spec (pre rest : list str) (toc_start : option nat)
    (s e : nat) :
  (∀ s0, toc_start = Some s0 →
         s0 < length pre
         ∧ ∃ h, pre !! s0 = Some h ∧ strip h = TOC_HEADING) →
  locate_toc rest (length pre) toc_start = (Some s, Some e) →
  s < e
  ∧ (∃ h, (pre ++ rest) !! s = Some h ∧ strip h = TOC_HEADING)
  ∧ (∃ n, (pre ++ rest) !! e = Some n ∧ startswith n H2_PREFIX = true).
Proof.
  revert pre toc_start. induction rest as [|line rest IH];
    intros pre toc_start Hstart; [done|].
  cbn [locate_toc].
  assert (S (length pre) = length (pre ++ [line])) as Hnext
    by (rewrite length_app; cbn; lia).
  rewrite (cons_middle line pre rest), app_assoc, Hnext.
  case_bool_decide as Hhead.
  { apply IH. intros s0 [= <-]. split; [rewrite length_app; cbn; lia|].
    exists line. split; [|done]. by rewrite lookup_app_r, Nat.sub_diag. }
  assert (∀ s0, toc_start = Some s0 →
            s0 < length (pre ++ [line])
            ∧ ∃ h, (pre ++ [line]) !! s0 = Some h ∧ strip h = TOC_HEADING)
    as Hkeep.
  { intros s0 Hs0. destruct (Hstart s0 Hs0) as (Hlt & h & Hh & Hstrip).
    split; [rewrite length_app; lia|]. exists h.
    split; [|done]. by rewrite lookup_app_l. }
  destruct toc_start as [start|]; [|by apply IH].
  destruct (startswith line H2_PREFIX && bool_decide (start < length pre))
    eqn:Hend; [|by apply IH].
  apply andb_true_iff in Hend as [Hh2 Hlt%bool_decide_eq_true].
  intros [= -> <-]. destruct (Hstart s eq_refl) as (_ & h & Hh & Hstrip).
  split_and!; [done| |].
  - exists h. split; [|done]. rewrite <- app_assoc. by rewrite lookup_app_l.
  - exists line. split; [|done]. rewrite <- app_assoc.
    by rewrite lookup_app_r, Nat.sub_diag.
Qed.

(** The loop over lines before the first heading of the table of contents:
    no start is set, so no line ends the block. *)
Lemma locate_toc_before (before more : list str) (i : nat) :
  Forall (λ l, strip l ≠ TOC_HEADING) before →
  locate_toc (before ++ more) i None
  = locate_toc more (i + length before) None.
Proof.
  intros Hbefore. revert i.
  induction Hbefore as [|line before Hline _ IH]; intros i.
  { cbn. by rewrite Nat.add_0_r. }
  cbn [app locate_toc length].
  rewrite bool_decide_eq_false_2 by done.
  rewrite IH. f_equal. lia.
Qed.

(** The loop over lines none of which ends the block: a heading of the
    table of contents moves the start, and the start stays behind the
    line reached. *)
Lemma locate_toc_open (open more : list str) (i : nat)
    (toc_start : option nat) :
  Forall (λ l, strip l = TOC_HEADING ∨ startswith l H2_PREFIX = false)
    open →
  (∀ s, toc_start = Some s → s < i) →
  ∃ toc_start',
    locate_toc (open ++ more) i toc_start
    = locate_toc more (i + length open) toc_start'
    ∧ (∀ s, toc_start' = Some s → s < i + length open)
    ∧ (Forall (λ l, strip l ≠ TOC_HEADING) open → toc_start' = toc_start).
Proof.
  intros Hopen. revert i toc_start.
  induction Hopen as [|line open Hline _ IH]; intros i toc_start Hlt.
  { exists toc_start. cbn. rewrite Nat.add_0_r. split_and!; [done| |done].
    intros s Hs. specialize (Hlt s Hs). lia. }
  cbn [app locate_toc length].
  case_bool_decide as Hhead.
  - destruct (IH (S i) (Some i)) as (ts & Hrun & Hts & _).
    { intros s [= <-]. lia. }
    exists ts. split_and!.
    + rewrite Hrun. f_equal. lia.
    + intros s Hs. specialize (Hts s Hs). lia.
    + intros Hnone. by inversion Hnone.
  - destruct Hline as [Hline|Hline]; [done|].
    rewrite Hline. cbn [andb].
    destruct (IH (S i) toc_start) as (ts & Hrun & Hts & Hsame).
    { intros s Hs. specialize (Hlt s Hs). lia. }
    exists ts. split_and!.
    + destruct toc_start; rewrite Hrun; f_equal; lia.
    + intros s Hs. specialize (Hts s Hs). lia.
    + intros Hnone. apply Hsame. by inversion Hnone.
Qed.

(** Without a line that opens a section after a heading of the table of
    contents the loop finds no end. *)
Lemma locate_toc_no_end (b1 b2 : list str) :
  Forall (λ l, strip l ≠ TOC_HEADING) b1 →
  Forall (λ l, strip l = TOC_HEADING ∨ startswith l H2_PREFIX = false) b2 →
  ∃ toc_start, locate_toc (b1 ++ b2) 0 None = (toc_start, None).
Proof.
  intros H1 H2. rewrite locate_toc_before by done.
  destruct (locate_toc_open b2 [] (0 + length b1) None H2)
    as (ts & Hrun & _); [done|].
  rewrite app_nil_r in Hrun. exists ts. by rewrite Hrun.
Qed.

(** The block the loop finds: it starts at the last heading of the table
    of contents before the first line that opens a section after such a
    heading, and ends at that line. *)
Lemma locate_toc_block (b1 b2 block post : list str) (h n : str) :
  Forall (λ l, strip l ≠ TOC_HEADING) b1 →
  Forall (λ l, strip l = TOC_HEADING ∨ startswith l H2_PREFIX = false) b2 →
  strip h = TOC_HEADING →
  Forall (λ l, strip l ≠ TOC_HEADING ∧ startswith l H2_PREFIX = false)
    block →
  startswith n H2_PREFIX = true → strip n ≠ TOC_HEADING →
  locate_toc (b1 ++ b2 ++ h :: block ++ n :: post) 0 None
  = (Some (length (b1 ++ b2)), Some (length ((b1 ++ b2 ++ [h]) ++ block))).
Proof.
  intros H1 H2 Hh Hblock Hn2 Hn.
  rewrite locate_toc_before by done.
  destruct (locate_toc_open b2 (h :: block ++ n :: post)
              (0 + length b1) None H2) as (ts & -> & _); [done|].
  cbn [locate_toc]. rewrite bool_decide_eq_true_2 by done.
  destruct (locate_toc_open block (n :: post)
              (S (0 + length b1 + length b2))
              (Some (0 + length b1 + length b2)))
    as (ts' & -> & _ & Hsame).
  { eapply Forall_impl; [exact Hblock|]. intros l [_ Hl]. by right. }
  { intros s [= <-]. lia. }
  rewrite Hsame
    by (eapply Forall_impl; [exact Hblock|]; by intros l [Hl _]).
  cbn [locate_toc]. rewrite bool_decide_eq_false_2 by done.
  rewrite Hn2. cbn [andb].
  rewrite bool_decide_eq_true_2 by lia.
  rewrite !length_app. cbn [length]. do 2 f_equal; lia.
Qed.

End TrimmedToc.

(** X22.  The lines the sanitizer keeps of a table of contents are lines
    of the block in their order, each without its trailing white space,
    and a smaller depth keeps a part of what a larger depth keeps. *)
Theorem rebuild_toc_depth_monotone {tables : Tables} (text_lines : list str)
    (depth depth' : Z) (stopwords : gset str) :
  (depth ≤ depth')%Z →
  DocsetSanitize.rebuild_toc text_lines depth stopwords
    `sublist_of` DocsetSanitize.rebuild_toc text_lines depth' stopwords
  ∧ DocsetSanitize.rebuild_toc text_lines depth' stopwords
      `sublist_of` map rstrip text_lines.
Proof.
  intros Hd. unfold DocsetSanitize.rebuild_toc. split.
  - refine (fmap_sublist rstrip _ _ _). apply filter_sublist_impl.
    intros line. by apply keeps_toc_line_mono.
  - refine (fmap_sublist rstrip _ _ _). apply filter_sublist_all.
Qed.

Lemma rebuild_toc_depth_monotone_witness :
  DocsetSanitize.rebuild_toc (tables := excerpt) Fixtures.toc_lines 1
    (DocsetSanitize.cli_stopwords (tables := excerpt) None)
    `sublist_of`
    DocsetSanitize.rebuild_toc (tables := excerpt) Fixtures.toc_lines 2
      (DocsetSanitize.cli_stopwords (tables := excerpt) None)
  ∧ DocsetSanitize.rebuild_toc (tables := excerpt) Fixtures.toc_lines 2
      (DocsetSanitize.cli_stopwords (tables := excerpt) None)
      `sublist_of` map rstrip Fixtures.toc_lines.
Proof.
  apply (rebuild_toc_depth_monotone (tables := excerpt)). lia.
Defined.

(** X23.  A depth of zero or less keeps no line of the table of
    contents. *)
Theorem rebuild_toc_no_depth {tables : Tables} (text_lines : list str)
    (depth : Z) (stopwords : gset str) :
  (depth ≤ 0)%Z →
  DocsetSanitize.rebuild_toc text_lines depth stopwords = [].
Proof.
  intros Hd. unfold DocsetSanitize.rebuild_toc.
  rewrite filter_nothing; [done|].
  intros line. by apply keeps_toc_line_depth.
Qed.

Lemma rebuild_toc_no_depth_witness :
  DocsetSanitize.rebuild_toc (tables := excerpt) Fixtures.toc_lines 0
    (DocsetSanitize.cli_stopwords (tables := excerpt) None) = [].
Proof.
  apply (rebuild_toc_no_depth (tables := excerpt)). lia.
Defined.

(** X24.  Trimming rewrites one block of the body and nothing else.
    Let [b1] be lines before the first heading of the table of contents,
    and [b2] lines of which none opens a section.  A body that ends there
    is returned as it is.  When a heading [h] of the table of contents,
    a [block] without headings of either kind and a line [n] that opens a
    section follow, the body returned is the same lines with [block]
    replaced by those of its lines the depth and the stopwords keep. *)
Theorem trim_toc_one_block {tables : Tables} (b1 b2 : list str)
    (toc_depth : Z) (stopwords : gset str) :
  Forall (λ l, strip l ≠ TOC_HEADING) b1 →
  Forall (λ l, strip l = TOC_HEADING ∨ startswith l H2_PREFIX = false) b2 →
  DocsetSanitize.trim_toc (b1 ++ b2) toc_depth stopwords = b1 ++ b2
  ∧ ∀ (h : str) (block : list str) (n : str) (post : list str),
      strip h = TOC_HEADING →
      Forall (λ l, strip l ≠ TOC_HEADING ∧ startswith l H2_PREFIX = false)
        block →
      startswith n H2_PREFIX = true → strip n ≠ TOC_HEADING →
      DocsetSanitize.trim_toc (b1 ++ b2 ++ h :: block ++ n :: post)
        toc_depth stopwords
      = b1 ++ b2 ++ h
          :: DocsetSanitize.rebuild_toc block toc_depth stopwords
          ++ n :: post.
Proof.
  intros H1 H2. split.
  { unfold DocsetSanitize.trim_toc.
    destruct (locate_toc_no_end b1 b2 H1 H2) as (ts & ->).
    by destruct ts. }
  intros h block n post Hh Hblock Hn2 Hn.
  unfold DocsetSanitize.trim_toc.
  rewrite (locate_toc_block b1 b2 block post h n) by done.
  assert (b1 ++ b2 ++ h :: block ++ n :: post
          = ((b1 ++ b2 ++ [h]) ++ block) ++ n :: post) as Hshape
    by (by rewrite <- !app_assoc).
  assert (S (length (b1 ++ b2)) = length (b1 ++ b2 ++ [h])) as Hstart
    by (rewrite !length_app; cbn [length]; lia).
  rewrite Hshape, Hstart.
  rewrite (take_app_length ((b1 ++ b2 ++ [h]) ++ block)).
  rewrite (drop_app_length ((b1 ++ b2 ++ [h]) ++ block)).
  rewrite (drop_app_length (b1 ++ b2 ++ [h])).
  rewrite <- (app_assoc (b1 ++ b2 ++ [h]) block), take_app_length.
  by rewrite <- !app_assoc.
Qed.

Lemma trim_toc_one_block_witness :
  DocsetSanitize.trim_toc (tables := excerpt)
    ([Fixtures.prose] ++ [TOC_HEADING]) 1
    (DocsetSanitize.cli_stopwords (tables := excerpt) None)
  = [Fixtures.prose] ++ [TOC_HEADING]
  ∧ DocsetSanitize.trim_toc (tables := excerpt)
      ([Fixtures.prose] ++ [TOC_HEADING] ++ TOC_HEADING
         :: Fixtures.toc_lines
         ++ Fixtures.heading_one :: [Fixtures.prose; Fixtures.heading_three])
      1 (DocsetSanitize.cli_stopwords (tables := excerpt) None)
    = [Fixtures.prose] ++ [TOC_HEADING] ++ TOC_HEADING
        :: DocsetSanitize.rebuild_toc (tables := excerpt)
             Fixtures.toc_lines 1
             (DocsetSanitize.cli_stopwords (tables := excerpt) None)
        ++ Fixtures.heading_one :: [Fixtures.prose; Fixtures.heading_three].
Proof.
  assert (Forall (λ l, strip l ≠ TOC_HEADING) [Fixtures.prose]) as H1.
  { constructor; [|constructor].
    intros H. vm_compute in H. discriminate H. }
  assert (Forall (λ l, strip l = TOC_HEADING
                       ∨ startswith l H2_PREFIX = false) [TOC_HEADING])
    as H2.
  { constructor; [|constructor]. left. vm_compute. reflexivity. }
  destruct (trim_toc_one_block (tables := excerpt) [Fixtures.prose]
              [TOC_HEADING] 1
              (DocsetSanitize.cli_stopwords (tables := excerpt) None)
              H1 H2) as [Hsame Hblock].
  split; [exact Hsame|].
  apply Hblock.
  - vm_compute. reflexivity.
  - repeat (constructor;
              [split; [intros H; vm_compute in H; discriminate H
                      |vm_compute; reflexivity]|]).
    constructor.
  - vm_compute. reflexivity.
  - intros H. vm_compute in H. discriminate H.
Defined.

(** *** The header parser of the sanitizer *)

Section SanitizerHeader.
Context {tables : Tables}.
Import DocsetSanitize.

Lemma split_header_open (hdr tail : list str) :
  Forall (λ l, strip l ≠ DASHES) hdr →
  split_header (hdr ++ tail)
  = (hdr ++ (split_header tail).1, (split_header tail).2).
Proof.
  intros Hhdr. induction Hhdr as [|l hdr Hl _ IH]; cbn [app split_header].
  - by destruct (split_header tail).
  - by rewrite (bool_decide_eq_false_2 _ Hl), IH.
Qed.

Lemma item_open (line : str) :
  startswith (strip line) ITEM2 = true → strip line ≠ DASHES.
Proof. intros Hitem Hdash. by rewrite Hdash in Hitem. Qed.

Lemma header_loop_item_scalar (item : str) (more : list str)
    (data : gmap str value) (k v : str) :
  k ≠ [] → data !! k = Some (VStr v) →
  startswith (strip item) ITEM2 = true →
  header_loop (item :: more) data (Some k) = inl AttributeError.
Proof.
  intros Hk Hdata Hitem. cbn [header_loop]. rewrite Hitem.
  destruct k as [|c k]; [done|]. cbn [orb andb truthy from_option id].
  unfold setdefault_append. by rewrite Hdata.
Qed.

End SanitizerHeader.

(** X25.  The header parser of the sanitizer has the defect of the other
    two: a field with a value, followed by an item line, makes it raise
    [AttributeError], and the sanitizer with it, which then writes no
    output. *)
Theorem sanitizer_item_after_scalar_raises {tables : Tables} (now : str)
    (first key_line item : str) (pre rest : list str) (toc_depth : Z)
    (stopwords : gset str) :
  strip first = DASHES →
  forallb DocsetSanitize.is_field pre = true →
  DocsetSanitize.is_field key_line = true →
  DocsetSanitize.field_key key_line ≠ [] →
  strip (split_once COLON key_line).2 ≠ [] →
  startswith (strip item) ITEM2 = true →
  DocsetSanitize.parse_front_matter (first :: pre ++ key_line :: item :: rest)
  = inl AttributeError
  ∧ DocsetSanitize.sanitize_file now
      (first :: pre ++ key_line :: item :: rest) toc_depth stopwords
    = inl AttributeError.
Proof.
  intros Hopen Hpre Hfield Hkey Hvalue Hitem.
  assert (DocsetSanitize.parse_front_matter
            (first :: pre ++ key_line :: item :: rest) = inl AttributeError)
    as Hparse.
  { unfold DocsetSanitize.parse_front_matter.
    rewrite (bool_decide_eq_true_2 _ Hopen). cbn [negb].
    replace (pre ++ key_line :: item :: rest)
      with ((pre ++ [key_line; item]) ++ rest)
      by (by rewrite <- app_assoc).
    rewrite split_header_open.
    2:{ apply Forall_app. split.
        - apply Forall_forall. intros l Hl. apply is_field_open.
          rewrite forallb_forall in Hpre. by apply Hpre, list_elem_of_In.
        - repeat constructor; [by apply is_field_open | by apply item_open]. }
    cbn [fst snd]. rewrite <- !app_assoc. cbn [app].
    destruct (header_loop_fields pre ∅ None Hpre) as (d1 & k1 & Hrun & _).
    rewrite Hrun, header_loop_field by done.
    destruct (strip (split_once COLON key_line).2) as [|c v] eqn:Hv; [done|].
    rewrite (header_loop_item_scalar item _ _ _ (c :: v)); [done..| |done].
    apply lookup_insert_eq. }
  split; [done|]. unfold DocsetSanitize.sanitize_file. by rewrite Hparse.
Qed.

Lemma sanitizer_item_after_scalar_raises_witness :
  DocsetSanitize.parse_front_matter
    (lit "---" :: [lit "docset_version: 123"]
     ++ lit "title: Core Data" :: lit "  - Overview" :: [lit "---"])
  = inl AttributeError
  ∧ DocsetSanitize.sanitize_file (tables := excerpt)
      (lit "2025-11-12T00:00:00Z")
      (lit "---" :: [lit "docset_version: 123"]
       ++ lit "title: Core Data" :: lit "  - Overview" :: [lit "---"])
      2 (DocsetSanitize.cli_stopwords (tables := excerpt) None)
    = inl AttributeError.
Proof.
  apply (sanitizer_item_after_scalar_raises (tables := excerpt));
    first [reflexivity | by vm_compute].
Defined.

(** *** Reading the header the sanitizer has written *)

Section Reparse.
Context {tables : Tables}.
Import DocsetSanitize.





Lemma no_colon (s : str) :
  Forall (λ x, isspace x = true) s → str_in COLON_S s = false.
Proof.
  induction 1 as [|x s Hx _ IH]; [done|]. cbn [str_in startswith COLON_S].
  rewrite IH. destruct (N.eqb_spec COLON x) as [<-|]; [done|].
  by rewrite andb_false_l.
Qed.











End Reparse.



(** *** Skimming several files *)

Section Skim.
Context {tables : Tables}.
Import DocIndexSkim.

Lemma skim_loop_spec (fs : files) (paths : list str) (include_toc : bool)
    (max_lines : Z) (results results' : list (str * DocMeta.PeekResult))
    (stderr stderr' : list str) :
  skim_loop fs paths include_toc max_lines results stderr
  = inr (results', stderr') →
  ∃ new,
    results' = results ++ new
    ∧ Forall2 (λ r path,
                 r.1 = path
                 ∧ ∃ lines, fs path = Some lines
                            ∧ DocMeta.peek_markdown lines include_toc max_lines
                              = inr r.2)
        new (List.filter (present fs) paths)
    ∧ stderr'
      = stderr
        ++ map (app MISSING_PREFIX)
             (List.filter (λ p, negb (present fs p)) paths).
Proof.
  revert results stderr. induction paths as [|path paths IH];
    intros results stderr.
  - intros [= <- <-]. exists []. by rewrite !app_nil_r.
  - cbn [skim_loop List.filter].
    destruct (fs path) as [lines|] eqn:Hfile.
    + assert (present fs path = true) as ->
        by (unfold present; by rewrite Hfile).
      cbn [negb].
      destruct (DocMeta.peek_markdown lines include_toc max_lines)
        as [|info] eqn:Hpeek; [done|].
      intros Hrun. destruct (IH _ _ Hrun) as (new & -> & Hnew & ->).
      exists ((path, info) :: new). split_and!.
      * by rewrite <- app_assoc.
      * constructor; [|done]. split; [done|]. by exists lines.
      * done.
    + assert (present fs path = false) as ->
        by (unfold present; by rewrite Hfile).
      cbn [negb].
      intros Hrun. destruct (IH _ _ Hrun) as (new & -> & Hnew & ->).
      exists new. split_and!; [done..|]. cbn [map].
      by rewrite <- app_assoc.
Qed.

Lemma skim_loop_returns (fs : files) (paths : list str) (include_toc : bool)
    (max_lines : Z) (results : list (str * DocMeta.PeekResult))
    (stderr : list str) :
  (∃ r, skim_loop fs paths include_toc max_lines results stderr = inr r)
  ↔ Forall (λ path, ∀ lines, fs path = Some lines →
              ∃ info, DocMeta.peek_markdown lines include_toc max_lines
                      = inr info) paths.
Proof.
  revert results stderr. induction paths as [|path paths IH];
    intros results stderr.
  - split; [constructor | by eexists].
  - cbn [skim_loop]. rewrite Forall_cons.
    destruct (fs path) as [lines|] eqn:Hfile.
    + destruct (DocMeta.peek_markdown lines include_toc max_lines)
        as [e|info] eqn:Hpeek.
      * split; [by intros [? ?]|]. intros [Hhere _].
        destruct (Hhere lines eq_refl) as [info Hinfo]. congruence.
      * rewrite IH. split; [|by intros [_ ?]].
        intros Hrest. split; [|done]. intros ? [= <-]. by exists info.
    + rewrite IH. split; [|by intros [_ ?]].
      intros Hrest. split; [|done]. by intros ? [=].
Qed.

Lemma skim_loop_stops (fs : files) (pre post : list str) (path : str)
    (lines : list str) (e : exn) (include_toc : bool) (max_lines : Z)
    (results : list (str * DocMeta.PeekResult)) (stderr : list str) :
  Forall (λ q, ∀ ls, fs q = Some ls →
            ∃ info, DocMeta.peek_markdown ls include_toc max_lines
                    = inr info) pre →
  fs path = Some lines →
  DocMeta.peek_markdown lines include_toc max_lines = inl e →
  skim_loop fs (pre ++ path :: post) include_toc max_lines results stderr
  = inl e.
Proof.
  intros Hpre Hfile Hpeek. revert results stderr.
  induction Hpre as [|q pre Hq _ IH]; intros results stderr.
  - cbn [app skim_loop]. by rewrite Hfile, Hpeek.
  - cbn [app skim_loop]. destruct (fs q) as [ls|]; [|apply IH].
    destruct (Hq ls eq_refl) as [info ->]. apply IH.
Qed.

End Skim.

(** X27.  A skim that returns gives one result for each path that can be
    opened, in the order of the paths, with that path and the peek of its
    file, and prints one line for each path that cannot, naming it: a
    missing file is skipped and does not end the skim. *)
Theorem skim_files_spec {tables : Tables} (fs : DocIndexSkim.files)
    (paths : list str) (include_toc : bool) (max_lines : Z)
    (results : list (str * DocMeta.PeekResult)) (stderr : list str) :
  DocIndexSkim.skim_files fs paths include_toc max_lines
  = inr (results, stderr) →
  Forall2 (λ r path,
             r.1 = path
             ∧ ∃ lines, fs path = Some lines
                        ∧ DocMeta.peek_markdown lines include_toc max_lines
                          = inr r.2)
    results (List.filter (DocIndexSkim.present fs) paths)
  ∧ stderr
    = map (app DocIndexSkim.MISSING_PREFIX)
        (List.filter (λ p, negb (DocIndexSkim.present fs p)) paths).
Proof.
  intros Hrun.
  by destruct (skim_loop_spec _ _ _ _ _ _ _ _ Hrun) as (new & -> & Hnew & ->).
Qed.

Lemma skim_files_spec_witness :
  ∃ results stderr,
    DocIndexSkim.skim_files (tables := excerpt) Fixtures.one_file
      [lit "docs/apple/missing.md"; lit "docs/apple/demo.md"] true 800
    = inr (results, stderr)
    ∧ map fst results = [lit "docs/apple/demo.md"]
    ∧ stderr = [lit "[docindex] Missing file: docs/apple/missing.md"].
Proof.
  assert (match DocIndexSkim.skim_files (tables := excerpt) Fixtures.one_file
                 [lit "docs/apple/missing.md"; lit "docs/apple/demo.md"]
                 true 800 with
          | inr _ => True
          | inl _ => False
          end) as Hrun by (vm_compute; exact I).
  destruct (DocIndexSkim.skim_files (tables := excerpt) Fixtures.one_file
              [lit "docs/apple/missing.md"; lit "docs/apple/demo.md"]
              true 800) as [e|[results stderr]] eqn:Hskim; [destruct Hrun|].
  exists results, stderr. split; [reflexivity|].
  destruct (skim_files_spec (tables := excerpt) _ _ _ _ results stderr Hskim)
    as [Hres ->].
  split; [|reflexivity].
  change (List.filter (DocIndexSkim.present Fixtures.one_file)
            [lit "docs/apple/missing.md"; lit "docs/apple/demo.md"])
    with [lit "docs/apple/demo.md"] in Hres.
  apply Forall2_cons_inv_r in Hres as (r & rest & [Hpath _] & Hnil & ->).
  apply Forall2_nil_inv_r in Hnil as ->. cbn [map]. by rewrite Hpath.
Defined.

(** X28.  A file that can be opened and whose header makes the streaming
    parser raise ends the skim.  When every path before it is missing or
    has a file whose peek returns, the skim raises the exception of that
    file: it gives no result for any file, whatever the paths after
    it. *)
Theorem skim_files_stops_at_raise {tables : Tables}
    (fs : DocIndexSkim.files) (pre post : list str) (path : str)
    (lines : list str) (e : exn) (include_toc : bool) (max_lines : Z) :
  Forall (λ q, ∀ ls, fs q = Some ls →
            ∃ info, DocMeta.peek_markdown ls include_toc max_lines
                    = inr info) pre →
  fs path = Some lines →
  DocMeta.peek_markdown lines include_toc max_lines = inl e →
  DocIndexSkim.skim_files fs (pre ++ path :: post) include_toc max_lines
  = inl e.
Proof. apply skim_loop_stops. Qed.

Lemma skim_files_stops_at_raise_witness :
  DocIndexSkim.skim_files (tables := excerpt) Fixtures.two_files
    ([lit "docs/apple/missing.md"; lit "docs/apple/demo.md"]
     ++ lit "docs/apple/broken.md" :: [lit "docs/apple/demo.md"]) false 800
  = inl AttributeError.
Proof.
  apply (skim_files_stops_at_raise (tables := excerpt) Fixtures.two_files
           _ _ _ Fixtures.scalar_then_item_stream).
  - constructor; [by intros ls [=]|]. constructor; [|constructor].
    intros ls [= <-].
    assert (match DocMeta.peek_markdown (tables := excerpt)
                   Fixtures.unit_test_stream false 800 with
            | inr _ => True
            | inl _ => False
            end) as Hrun by (vm_compute; exact I).
    destruct (DocMeta.peek_markdown (tables := excerpt)
                Fixtures.unit_test_stream false 800) as [e|info];
      [destruct Hrun | by exists info].
  - reflexivity.
  - vm_compute. reflexivity.
Defined.

(** *** The index builder on a header the sanitizer has written *)

Section SanitizedHeader.
Context {tables : Tables}.











End SanitizedHeader.



(** *** The streaming parser on a header the sanitizer has written *)

Section SkimSanitized.
Context {tables : Tables}.
Import DocMeta.

















End SkimSanitized.


